(** * Order-book state engine of [binance/orderbook/orderbook_local.py]

    A shallow embedding of the order-book part of the repository: the level
    codec [parse_levels], the payload normalisation [iter_depth_events], the
    book operations [book_from_snapshot], [apply_event], [sorted_side],
    [book_to_levels], [generate_revert_update] and the sampling loop of
    [main], followed by the properties proved about them.

    Conventions of the embedding.
    - A JSON document as returned by [json.load] is a [json] value.
    - A Python [dict] from price text to quantity text is an association
      list in insertion order with unique keys ([dict]); Python dictionaries
      iterate in insertion order and both [sorted] and [list.sort] are
      stable, so the order is observable in projections.
    - [decimal.Decimal] is modelled by the type [decimal] with the numeric
      string grammar of the decimal module restricted to ASCII input and
      with an unbounded exponent range.
    - Exceptions are values of [error]; a function that may raise returns a
      [result]; a function that mutates its argument before raising returns
      the mutated state next to the [result]. *)

From Stdlib Require Import String Ascii List Bool Arith ZArith NArith QArith Lia.
From Stdlib Require Import Permutation Sorted SetoidList RelationClasses Morphisms.
Import ListNotations.
Open Scope string_scope.
Open Scope list_scope.
Open Scope Z_scope.

Set Implicit Arguments.

(* ------------------------------------------------------------------ *)
(** ** Exact decimals *)

Module Dec.

(** The value of a [decimal.Decimal]: a finite number
    [(-1)^neg * coeff * 10^exp], an infinity, or a (quiet or signalling)
    NaN. *)
Inductive decimal : Type :=
| Finite (neg : bool) (coeff : N) (exp : Z)
| Infinity (neg : bool)
| NaN (signaling : bool).

Definition is_digit (c : ascii) : bool :=
  let n := N_of_ascii c in ((48 <=? n) && (n <=? 57))%N.

(** Characters removed by [str.strip()] (ASCII range). *)
Definition is_space (c : ascii) : bool :=
  let n := N_of_ascii c in
  (((9 <=? n) && (n <=? 13)) || ((28 <=? n) && (n <=? 32)))%N.

Definition to_lower (c : ascii) : ascii :=
  let n := N_of_ascii c in
  if ((65 <=? n) && (n <=? 90))%N then ascii_of_N (n + 32) else c.

Fixpoint lstrip (l : list ascii) : list ascii :=
  match l with
  | c :: r => if is_space c then lstrip r else l
  | [] => []
  end.

Definition strip (l : list ascii) : list ascii :=
  rev (lstrip (rev (lstrip l))).

Definition is_underscore (c : ascii) : bool := (N_of_ascii c =? 95)%N.

Definition drop_underscores (l : list ascii) : list ascii :=
  filter (fun c => negb (is_underscore c)) l.

(** Longest prefix of digits and the rest. *)
Fixpoint span_digits (l : list ascii) : list ascii * list ascii :=
  match l with
  | c :: r =>
      if is_digit c
      then let '(ds, rest) := span_digits r in (c :: ds, rest)
      else ([], l)
  | [] => ([], [])
  end.

Definition digit_val (c : ascii) : N := (N_of_ascii c - 48)%N.

Definition digits_to_N (ds : list ascii) : N :=
  fold_left (fun acc c => (10 * acc + digit_val c)%N) ds 0%N.

Definition parse_sign (l : list ascii) : bool * list ascii :=
  match l with
  | "-"%char :: r => (true, r)
  | "+"%char :: r => (false, r)
  | _ => (false, l)
  end.

(** The optional exponent part [E[+-]digits] followed by the end of the
    text. *)
Definition parse_exponent (l : list ascii) : option Z :=
  match l with
  | [] => Some 0
  | c :: r =>
      if Ascii.eqb (to_lower c) "e"%char then
        let '(neg, r1) := parse_sign r in
        match span_digits r1 with
        | ((_ :: _) as ds, []) =>
            let n := Z.of_N (digits_to_N ds) in
            Some (if neg then - n else n)
        | _ => None
        end
      else None
  end.

(** A number with at least one digit, an optional fraction and an
    optional exponent. *)
Definition parse_number (neg : bool) (l : list ascii) : option decimal :=
  let '(int, r1) := span_digits l in
  let '(frac, r2) :=
    match r1 with
    | "."%char :: r => span_digits r
    | _ => ([], r1)
    end in
  match int ++ frac with
  | [] => None
  | ds =>
      match parse_exponent r2 with
      | Some e =>
          Some (Finite neg (digits_to_N ds) (e - Z.of_nat (length frac)))
      | None => None
      end
  end.

Definition lower_string (l : list ascii) : string :=
  string_of_list_ascii (map to_lower l).

(** [Inf], [Infinity], [NaN] and [sNaN] with optional diagnostic digits,
    in any letter case. *)
Definition parse_special (neg : bool) (l : list ascii) : option decimal :=
  let s := lower_string l in
  if String.eqb s "inf" || String.eqb s "infinity" then Some (Infinity neg)
  else
    match map to_lower l with
    | "n"%char :: "a"%char :: "n"%char :: r =>
        match span_digits r with
        | (_, []) => Some (NaN false)
        | _ => None
        end
    | "s"%char :: "n"%char :: "a"%char :: "n"%char :: r =>
        match span_digits r with
        | (_, []) => Some (NaN true)
        | _ => None
        end
    | _ => None
    end.

(** [Decimal(s)] for a text [s]: [None] stands for
    [decimal.InvalidOperation] (conversion syntax). *)
Definition Decimal (s : string) : option decimal :=
  let l := drop_underscores (strip (list_ascii_of_string s)) in
  let '(neg, r) := parse_sign l in
  match parse_number neg r with
  | Some d => Some d
  | None => parse_special neg r
  end.

Definition is_nan (d : decimal) : bool :=
  match d with NaN _ => true | _ => false end.

Definition pow10 (e : Z) : Q := Qpower (10 # 1) e.

(** The rational value of a finite decimal. *)
Definition Qval (neg : bool) (coeff : N) (exp : Z) : Q :=
  let m := (inject_Z (Z.of_N coeff) * pow10 exp)%Q in
  if neg then (- m)%Q else m.

Definition Qltb (x y : Q) : bool :=
  match Qcompare x y with Lt => true | _ => false end.

(** [a < b] on operands that are not NaN (the comparison signals on a
    NaN, see [lt_r]; the value given here for a NaN is never used). *)
Definition ltb (a b : decimal) : bool :=
  match a, b with
  | NaN _, _ => false
  | _, NaN _ => false
  | Infinity true, Infinity true => false
  | Infinity true, _ => true
  | _, Infinity true => false
  | Infinity false, _ => false
  | _, Infinity false => true
  | Finite n1 c1 e1, Finite n2 c2 e2 => Qltb (Qval n1 c1 e1) (Qval n2 c2 e2)
  end.

(** [d == 0] and [d < 0] against the integer zero, on an operand that is
    not NaN. *)
Definition is_zero (d : decimal) : bool :=
  match d with Finite _ c _ => (c =? 0)%N | _ => false end.

Definition is_negative (d : decimal) : bool :=
  match d with
  | Finite neg c _ => neg && negb (c =? 0)%N
  | Infinity neg => neg
  | NaN _ => false
  end.

(** Numeric equality of two decimals, as [==] on [Decimal] (false when an
    operand is NaN). *)
Definition eqb (a b : decimal) : bool :=
  negb (is_nan a) && negb (is_nan b) && negb (ltb a b) && negb (ltb b a).

End Dec.

(* ------------------------------------------------------------------ *)
(** ** JSON values, exceptions and results *)

(** A value produced by [json.load]. A JSON object is a [dict]; it is kept
    as an association list read by its first binding of a key. *)
#[local] Unset Elimination Schemes.
Inductive json : Type :=
| JNull
| JBool (b : bool)
| JInt (n : Z)
| JFloat (literal : string)
| JStr (s : string)
| JList (items : list json)
| JDict (fields : list (string * json)).
#[local] Set Elimination Schemes.

(** [type(v).__name__] *)
Definition type_name (v : json) : string :=
  match v with
  | JNull => "NoneType"
  | JBool _ => "bool"
  | JInt _ => "int"
  | JFloat _ => "float"
  | JStr _ => "str"
  | JList _ => "list"
  | JDict _ => "dict"
  end.

(** The messages of the [ValueError]s raised by the module, with the
    values interpolated in each. *)
Inductive message : Type :=
| MustBeList (label : string) (got : string)
    (* '{label}' must be a list, got {type} *)
| NotAPair (label : string) (index : nat)
    (* Each {label} level must be a [price, qty] pair (index {i}) *)
| NotStrings (label : string) (index : nat)
    (* {label} values must be strings (index {i}) *)
| InvalidDecimal (label : string) (index : nat) (row : json)
    (* Invalid decimal in {label} at index {i}: {row} *)
| NegativeQuantity (label : string) (index : nat) (row : json)
    (* Negative quantity in {label} at index {i}: {row} *)
| SnapshotNotObject (index : nat)
    (* Snapshot at index {i} is not an object *)
| SnapshotBadShape
    (* Snapshot JSON must be an object or a list of objects ... *)
| UpdatesNotList
    (* Updates JSON must be a list of objects. *)
| UpdateNotObject (index : nat)
    (* Update at index {i} is not an object *)
| PayloadNotObject (index : nat)
    (* Update payload at index {i} is not an object *)
| MissingArrays (index : nat).
    (* Update at index {i} missing 'a'/'b' arrays *)

Inductive error : Type :=
| ValueError (m : message)
| InvalidOperation            (* decimal.InvalidOperation *)
| KeyError (key : string)
| SystemExit (m : string).

Inductive result (A : Type) : Type :=
| Ok (a : A)
| Err (e : error).

Arguments Ok {A} a.
Arguments Err {A} e.

Definition bind {A B : Type} (r : result A) (f : A -> result B) : result B :=
  match r with
  | Ok a => f a
  | Err e => Err e
  end.

Notation "x <- c ;; k" := (bind c (fun x => k))
  (at level 61, c at next level, right associativity).
Notation "' pat <- c ;; k" := (bind c (fun x => match x with pat => k end))
  (at level 61, pat pattern, c at next level, right associativity).

Definition is_ok {A : Type} (r : result A) : bool :=
  match r with Ok _ => true | Err _ => false end.

Definition is_value_error {A : Type} (r : result A) : bool :=
  match r with Err (ValueError _) => true | _ => false end.

(** The index and the raw row a message carries, when it carries one. *)
Definition message_index (m : message) : option nat :=
  match m with
  | NotAPair _ i | NotStrings _ i | InvalidDecimal _ i _
  | NegativeQuantity _ i _ | SnapshotNotObject i | UpdateNotObject i
  | PayloadNotObject i | MissingArrays i => Some i
  | MustBeList _ _ | SnapshotBadShape | UpdatesNotList => None
  end.

Definition message_row (m : message) : option json :=
  match m with
  | InvalidDecimal _ _ row | NegativeQuantity _ _ row => Some row
  | _ => None
  end.

(* ------------------------------------------------------------------ *)
(** ** Dictionaries in insertion order *)

Section Dict.
Variable V : Type.

(** [d.get(k)] *)
Fixpoint dict_get (d : list (string * V)) (k : string) : option V :=
  match d with
  | [] => None
  | (k', v) :: r => if String.eqb k' k then Some v else dict_get r k
  end.

(** [k in d] *)
Definition dict_mem (d : list (string * V)) (k : string) : bool :=
  match dict_get d k with Some _ => true | None => false end.

(** [d[k] = v]: an existing key keeps its place, a new key goes last. *)
Fixpoint dict_set (d : list (string * V)) (k : string) (v : V)
  : list (string * V) :=
  match d with
  | [] => [(k, v)]
  | (k', v') :: r =>
      if String.eqb k' k then (k', v) :: r else (k', v') :: dict_set r k v
  end.

(** [d.pop(k, None)] *)
Fixpoint dict_pop (d : list (string * V)) (k : string)
  : list (string * V) :=
  match d with
  | [] => []
  | (k', v') :: r =>
      if String.eqb k' k then dict_pop r k else (k', v') :: dict_pop r k
  end.

(** [d[k]] *)
Definition dict_getitem (d : list (string * V)) (k : string) : result V :=
  match dict_get d k with
  | Some v => Ok v
  | None => Err (KeyError k)
  end.

Definition dict_keys (d : list (string * V)) : list string := map fst d.

(** Keys are unique in a dictionary. *)
Definition dict_wf (d : list (string * V)) : Prop := NoDup (dict_keys d).
End Dict.

(** One side of a book: price text to quantity text. *)
Definition dict : Type := list (string * string).

(** [obj.get(k, default)] and [obj.get(k)] on a JSON object. *)
Definition get_default (o : list (string * json)) (k : string) (dflt : json)
  : json :=
  match dict_get o k with Some v => v | None => dflt end.

Definition get_or_none (o : list (string * json)) (k : string) : json :=
  get_default o k JNull.

(* ------------------------------------------------------------------ *)
(** ** Parsing: [parse_levels], [iter_snapshots], [iter_depth_events] *)

(** The body of the loop of [parse_levels] for the row at index [i]. *)
Definition check_level (label : string) (i : nat) (row : json)
  : result (string * string) :=
  match row with
  | JList [p; q] =>
      match p, q with
      | JStr ps, JStr qs =>
          match Dec.Decimal ps, Dec.Decimal qs with
          | Some _, Some qd =>
              (* qd < 0 signals InvalidOperation on a NaN, outside the try *)
              if Dec.is_nan qd then Err InvalidOperation
              else if Dec.is_negative qd
                   then Err (ValueError (NegativeQuantity label i row))
                   else Ok (ps, qs)
          | _, _ => Err (ValueError (InvalidDecimal label i row))
          end
      | _, _ => Err (ValueError (NotStrings label i))
      end
  | _ => Err (ValueError (NotAPair label i))
  end.

Fixpoint parse_rows (label : string) (i : nat) (rows : list json)
  : result (list (string * string)) :=
  match rows with
  | [] => Ok []
  | row :: rest =>
      pq <- check_level label i row ;;
      out <- parse_rows label (S i) rest ;;
      Ok (pq :: out)
  end.

Definition parse_levels (levels : json) (label : string)
  : result (list (string * string)) :=
  match levels with
  | JNull => Ok []
  | JList rows => parse_rows label 0 rows
  | _ => Err (ValueError (MustBeList label (type_name levels)))
  end.

(** [iter_snapshots] consumed by the loop of [main] that keeps the last
    object yielded: [None] when nothing is yielded. *)
Fixpoint last_of_snapshots (i : nat) (items : list json)
  (last : option (list (string * json)))
  : result (option (list (string * json))) :=
  match items with
  | [] => Ok last
  | JDict o :: rest => last_of_snapshots (S i) rest (Some o)
  | _ :: _ => Err (ValueError (SnapshotNotObject i))
  end.

Definition iter_snapshots_last (obj : json)
  : result (option (list (string * json))) :=
  match obj with
  | JDict o =>
      if dict_mem o "asks" || dict_mem o "bids" then Ok (Some o)
      else Err (ValueError SnapshotBadShape)
  | JList items => last_of_snapshots 0 items None
  | _ => Err (ValueError SnapshotBadShape)
  end.

Definition is_list (v : json) : bool :=
  match v with JList _ => true | _ => false end.

(** The body of the loop of [iter_depth_events] for the item at index
    [i]: the event it yields. *)
Definition depth_event (i : nat) (item : json)
  : result (list (string * json)) :=
  match item with
  | JDict o =>
      match get_default o "data" item with
      | JDict payload =>
          let a := get_default payload "a" (JList []) in
          let b := get_default payload "b" (JList []) in
          if negb (is_list a) || negb (is_list b)
          then Err (ValueError (MissingArrays i))
          else Ok [("a", a); ("b", b)]
      | _ => Err (ValueError (PayloadNotObject i))
      end
  | _ => Err (ValueError (UpdateNotObject i))
  end.

(* ------------------------------------------------------------------ *)
(** ** Book operations *)

Record book : Type := Book { ask : dict; bid : dict }.

Definition new_empty_book : book := Book [] [].

Definition set_all (d : dict) (levels : list (string * string)) : dict :=
  fold_left (fun acc pq => dict_set acc (fst pq) (snd pq)) levels d.

Definition book_from_snapshot (snap : list (string * json)) : result book :=
  asks <- parse_levels (get_default snap "asks" (JList [])) "asks" ;;
  bids <- parse_levels (get_default snap "bids" (JList [])) "bids" ;;
  Ok (Book (set_all [] asks) (set_all [] bids)).

(** [Decimal(q) == 0]: the conversion raises on a text that is no
    decimal and the comparison signals on a signalling NaN. *)
Definition qty_is_zero (q : string) : result bool :=
  match Dec.Decimal q with
  | None => Err InvalidOperation
  | Some (Dec.NaN true) => Err InvalidOperation
  | Some d => Ok (Dec.is_zero d)
  end.

(** One of the two loops of [apply_event] over parsed levels, on the
    dictionary of its side. The dictionary is mutated in place, so the
    state reached is returned also when an iteration raises. *)
Fixpoint apply_levels (side : dict) (levels : list (string * string))
  : dict * result unit :=
  match levels with
  | [] => (side, Ok tt)
  | (p, q) :: rest =>
      match qty_is_zero q with
      | Err e => (side, Err e)
      | Ok true => apply_levels (dict_pop side p) rest
      | Ok false => apply_levels (dict_set side p q) rest
      end
  end.

Definition apply_event (bk : book) (event : list (string * json))
  : book * result unit :=
  match parse_levels (get_or_none event "b") "bids" with
  | Err e => (bk, Err e)
  | Ok bl =>
      let '(bid', r) := apply_levels (bid bk) bl in
      match r with
      | Err e => (Book (ask bk) bid', Err e)
      | Ok _ =>
          match parse_levels (get_or_none event "a") "asks" with
          | Err e => (Book (ask bk) bid', Err e)
          | Ok al =>
              let '(ask', r') := apply_levels (ask bk) al in
              (Book ask' bid', r')
          end
      end
  end.

(** *** Sorting by the decimal value of a price text *)

(** The key function [lambda s: Decimal(s)]. *)
Definition sort_key (s : string) : result Dec.decimal :=
  match Dec.Decimal s with
  | Some d => Ok d
  | None => Err InvalidOperation
  end.

(** [a < b] on decimals: an ordering comparison with a NaN signals
    [InvalidOperation]. *)
Definition lt_r (a b : Dec.decimal) : result bool :=
  if Dec.is_nan a || Dec.is_nan b then Err InvalidOperation
  else Ok (Dec.ltb a b).

Section Sorting.
Variable A : Type.

(** A stable sort that, like [list.sort], compares keys with [<] only:
    insertion of the elements from the last to the first, each placed
    before the first element that is not smaller. Every element of a
    list of two or more is compared at least once, so the sort raises
    exactly when the list has two elements or more and a NaN key. *)
Fixpoint insert_r (x : Dec.decimal * A) (l : list (Dec.decimal * A))
  : result (list (Dec.decimal * A)) :=
  match l with
  | [] => Ok [x]
  | y :: ys =>
      b <- lt_r (fst y) (fst x) ;;
      if b then (r <- insert_r x ys ;; Ok (y :: r)) else Ok (x :: l)
  end.

Fixpoint sort_r (l : list (Dec.decimal * A))
  : result (list (Dec.decimal * A)) :=
  match l with
  | [] => Ok []
  | x :: xs => s <- sort_r xs ;; insert_r x s
  end.

Fixpoint with_keys (key : A -> string) (l : list A)
  : result (list (Dec.decimal * A)) :=
  match l with
  | [] => Ok []
  | x :: xs =>
      k <- sort_key (key x) ;;
      r <- with_keys key xs ;;
      Ok ((k, x) :: r)
  end.

(** [sorted(l, key=lambda x: Decimal(key x), reverse=reverse)]: the keys
    of all elements are computed first; a reverse sort reverses the
    list, sorts it and reverses the outcome, which keeps elements of
    equal keys in their original order. *)
Definition sorted (key : A -> string) (reverse : bool) (l : list A)
  : result (list A) :=
  keyed <- with_keys key l ;;
  s <- sort_r (if reverse then rev keyed else keyed) ;;
  Ok (map snd (if reverse then rev s else s)).
End Sorting.

(** The two sides as the source names them. *)
Inductive side : Type := AskSide | BidSide.

Definition side_of (bk : book) (s : side) : dict :=
  match s with AskSide => ask bk | BidSide => bid bk end.

Definition is_bid (s : side) : bool :=
  match s with BidSide => true | AskSide => false end.

Fixpoint lookup_all (d : dict) (prices : list string)
  : result (list (string * string)) :=
  match prices with
  | [] => Ok []
  | p :: r =>
      q <- dict_getitem d p ;;
      rest <- lookup_all d r ;;
      Ok ((p, q) :: rest)
  end.

Definition sorted_side (book_side : dict) (s : side)
  : result (list (string * string)) :=
  prices <- sorted (fun p => p) (is_bid s) (dict_keys book_side) ;;
  lookup_all book_side prices.

(** A list of [[price, qty]] rows as a JSON value. *)
Definition row_json (pq : string * string) : json :=
  JList [JStr (fst pq); JStr (snd pq)].

Definition rows_json (l : list (string * string)) : json :=
  JList (map row_json l).

Definition book_to_levels (bk : book) : result json :=
  asks <- sorted_side (ask bk) AskSide ;;
  bids <- sorted_side (bid bk) BidSide ;;
  Ok (JDict [("asks", rows_json asks); ("bids", rows_json bids)]).

(** *** The revert update *)

(** First loop of [side_diff]: removals and changes, in the order of
    [cur.items()]. *)
Fixpoint removals_and_changes (cur tgt : dict) (zero_fmt : string)
  : list (string * string) :=
  match cur with
  | [] => []
  | (p, q_cur) :: r =>
      match dict_get tgt p with
      | None => (p, zero_fmt) :: removals_and_changes r tgt zero_fmt
      | Some q_tgt =>
          if String.eqb q_tgt q_cur
          then removals_and_changes r tgt zero_fmt
          else (p, q_tgt) :: removals_and_changes r tgt zero_fmt
      end
  end.

(** Second loop of [side_diff]: additions, in the order of
    [tgt.items()]. *)
Fixpoint additions (cur tgt : dict) : list (string * string) :=
  match tgt with
  | [] => []
  | (p, q_tgt) :: r =>
      if dict_mem cur p then additions cur r
      else (p, q_tgt) :: additions cur r
  end.

Definition side_diff (current_book target_book : book) (zero_fmt : string)
  (s : side) : result (list (string * string)) :=
  let cur := side_of current_book s in
  let tgt := side_of target_book s in
  let out := removals_and_changes cur tgt zero_fmt ++ additions cur tgt in
  sorted (fun pq : string * string => fst pq) (is_bid s) out.

Definition default_zero_fmt : string := "0.00000000".

Definition generate_revert_update (current_book target_book : book)
  (zero_fmt : string) : result json :=
  b <- side_diff current_book target_book zero_fmt BidSide ;;
  a <- side_diff current_book target_book zero_fmt AskSide ;;
  Ok (JDict [("data",
              JDict [("e", JStr "depthUpdate");
                     ("b", rows_json b);
                     ("a", rows_json a)])]).

(* ------------------------------------------------------------------ *)
(** ** The sampling loop of [main] on book values *)

(** The loop of the [--final-only] branch, from the item of index [i]
    on. *)
Fixpoint apply_all (i : nat) (items : list json) (bk : book)
  : book * result unit :=
  match items with
  | [] => (bk, Ok tt)
  | item :: rest =>
      match depth_event i item with
      | Err e => (bk, Err e)
      | Ok ev =>
          let '(bk', r) := apply_event bk ev in
          match r with
          | Err e => (bk', Err e)
          | Ok _ => apply_all (S i) rest bk'
          end
      end
  end.

(** The loop of the other branch: [n] counts the events processed and a
    state is stored when [n % max(1, store_every) == 0]. [states] is the
    list built so far. *)
Fixpoint store_loop (store_every : Z) (i : nat) (n : Z) (items : list json)
  (bk : book) (states : list json) : book * result (list json) :=
  match items with
  | [] => (bk, Ok states)
  | item :: rest =>
      match depth_event i item with
      | Err e => (bk, Err e)
      | Ok ev =>
          let n' := n + 1 in
          let '(bk', r) := apply_event bk ev in
          match r with
          | Err e => (bk', Err e)
          | Ok _ =>
              if n' mod Z.max 1 store_every =? 0 then
                match book_to_levels bk' with
                | Err e => (bk', Err e)
                | Ok st => store_loop store_every (S i) n' rest bk'
                             (states ++ [st])
                end
              else store_loop store_every (S i) n' rest bk' states
          end
      end
  end.

(** The section "Apply updates" of [main]: the working book after the
    loop and the states stored. *)
Definition run (initial_book : book) (upd_payload : json)
  (final_only : bool) (store_every : Z) : book * result (list json) :=
  let bk := Book (ask initial_book) (bid initial_book) in
  match upd_payload with
  | JList items =>
      if final_only then
        let '(bk', r) := apply_all 0 items bk in
        match r with
        | Err e => (bk', Err e)
        | Ok _ =>
            match book_to_levels bk' with
            | Err e => (bk', Err e)
            | Ok st => (bk', Ok [st])
            end
        end
      else store_loop store_every 0 0 items bk []
  | _ => (bk, Err (ValueError UpdatesNotList))
  end.

(** The section "Build initial book" of [main]. *)
Definition initial_book_of (snapshot : option json) : result book :=
  match snapshot with
  | Some snap_payload =>
      last_snap <- iter_snapshots_last snap_payload ;;
      match last_snap with
      | None => Err (SystemExit "Snapshot file contains no usable objects.")
      | Some snap => book_from_snapshot snap
      end
  | None => Ok new_empty_book
  end.

(** What a run of [main] hands to its consumers: the stored states and,
    when asked for, the revert update from the final book to the initial
    one. *)
Record output : Type := Output { states : list json; revert : option json }.

Definition main (snapshot : option json) (upd_payload : json)
  (final_only : bool) (store_every : Z) (want_revert : bool)
  : result output :=
  initial_book <- initial_book_of snapshot ;;
  let '(bk, r) := run initial_book upd_payload final_only store_every in
  sts <- r ;;
  _ <- book_to_levels bk ;;
  if want_revert then
    rv <- generate_revert_update bk initial_book default_zero_fmt ;;
    Ok (Output sts (Some rv))
  else Ok (Output sts None).

(* ------------------------------------------------------------------ *)
(** ** The same run on a store of objects

    The book of the source is a dictionary of two dictionaries that
    [apply_event] mutates in place, and the stored states are objects
    appended to a list. To speak of what a run shares and what it leaves
    alone, the objects live in a [heap] and are named by their location:
    a side of a book is an [ODict]; a value built by [book_to_levels] or
    [generate_revert_update], which is made of new lists and dictionaries
    of (immutable) texts only, is one [OValue]. Allocation returns the
    next unused location. *)

Inductive object : Type :=
| ODict (d : dict)
| OValue (v : json).

Definition heap : Type := list object.
Definition loc : Type := nat.

Definition alloc (h : heap) (o : object) : heap * loc :=
  (h ++ [o], length h).

Definition read_dict (h : heap) (l : loc) : dict :=
  match nth_error h l with
  | Some (ODict d) => d
  | _ => []
  end.

Fixpoint write (h : heap) (l : loc) (o : object) : heap :=
  match h, l with
  | [], _ => []
  | _ :: r, O => o :: r
  | x :: r, S l' => x :: write r l' o
  end.

(** A book object: the locations of its two sides. *)
Record book_ref : Type := BookRef { ask_ref : loc; bid_ref : loc }.

Definition book_at (h : heap) (b : book_ref) : book :=
  Book (read_dict h (ask_ref b)) (read_dict h (bid_ref b)).

(** [{"ask": dict(b["ask"]), "bid": dict(b["bid"])}] *)
Definition h_copy_book (h : heap) (b : book_ref) : heap * book_ref :=
  let '(h1, la) := alloc h (ODict (read_dict h (ask_ref b))) in
  let '(h2, lb) := alloc h1 (ODict (read_dict h1 (bid_ref b))) in
  (h2, BookRef la lb).

Definition h_apply_event (h : heap) (b : book_ref)
  (event : list (string * json)) : heap * result unit :=
  match parse_levels (get_or_none event "b") "bids" with
  | Err e => (h, Err e)
  | Ok bl =>
      let '(bid', r) := apply_levels (read_dict h (bid_ref b)) bl in
      let h1 := write h (bid_ref b) (ODict bid') in
      match r with
      | Err e => (h1, Err e)
      | Ok _ =>
          match parse_levels (get_or_none event "a") "asks" with
          | Err e => (h1, Err e)
          | Ok al =>
              let '(ask', r') := apply_levels (read_dict h1 (ask_ref b)) al in
              (write h1 (ask_ref b) (ODict ask'), r')
          end
      end
  end.

Definition h_book_to_levels (h : heap) (b : book_ref) : heap * result loc :=
  match book_to_levels (book_at h b) with
  | Err e => (h, Err e)
  | Ok v => let '(h', l) := alloc h (OValue v) in (h', Ok l)
  end.

Fixpoint h_apply_all (i : nat) (items : list json) (h : heap) (b : book_ref)
  : heap * result unit :=
  match items with
  | [] => (h, Ok tt)
  | item :: rest =>
      match depth_event i item with
      | Err e => (h, Err e)
      | Ok ev =>
          let '(h', r) := h_apply_event h b ev in
          match r with
          | Err e => (h', Err e)
          | Ok _ => h_apply_all (S i) rest h' b
          end
      end
  end.

Fixpoint h_store_loop (store_every : Z) (i : nat) (n : Z)
  (items : list json) (h : heap) (b : book_ref) (states : list loc)
  : heap * result (list loc) :=
  match items with
  | [] => (h, Ok states)
  | item :: rest =>
      match depth_event i item with
      | Err e => (h, Err e)
      | Ok ev =>
          let n' := n + 1 in
          let '(h1, r) := h_apply_event h b ev in
          match r with
          | Err e => (h1, Err e)
          | Ok _ =>
              if n' mod Z.max 1 store_every =? 0 then
                let '(h2, r2) := h_book_to_levels h1 b in
                match r2 with
                | Err e => (h2, Err e)
                | Ok st => h_store_loop store_every (S i) n' rest h2 b
                             (states ++ [st])
                end
              else h_store_loop store_every (S i) n' rest h1 b states
          end
      end
  end.

(** The sections "Work copy" and "Apply updates" of [main]: the heap
    after them, the working book and the locations of the states
    stored. *)
Definition h_run (h : heap) (initial_book : book_ref) (upd_payload : json)
  (final_only : bool) (store_every : Z)
  : heap * book_ref * result (list loc) :=
  let '(h0, bk) := h_copy_book h initial_book in
  match upd_payload with
  | JList items =>
      if final_only then
        let '(h1, r) := h_apply_all 0 items h0 bk in
        match r with
        | Err e => (h1, bk, Err e)
        | Ok _ =>
            let '(h2, r2) := h_book_to_levels h1 bk in
            match r2 with
            | Err e => (h2, bk, Err e)
            | Ok st => (h2, bk, Ok [st])
            end
        end
      else
        let '(h1, r) := h_store_loop store_every 0 0 items h0 bk [] in
        (h1, bk, r)
  | _ => (h0, bk, Err (ValueError UpdatesNotList))
  end.

(** The section "Revert update generation" of [main]: both books are
    copied and the event is built from the copies. *)
Definition h_revert (h : heap) (bk initial_book : book_ref)
  : heap * result loc :=
  let '(h1, cur) := h_copy_book h bk in
  let '(h2, tgt) := h_copy_book h1 initial_book in
  match generate_revert_update (book_at h2 cur) (book_at h2 tgt)
          default_zero_fmt with
  | Err e => (h2, Err e)
  | Ok v => let '(h3, l) := alloc h2 (OValue v) in (h3, Ok l)
  end.

(** A run with a revert at the end, as [main] with [--emit-revert]: the
    projection of the final book is built for the summary, then the
    revert event. The final heap, the locations of the stored states and
    of the revert event. *)
Definition h_sampler (h : heap) (initial_book : book_ref) (upd_payload : json)
  (final_only : bool) (store_every : Z)
  : heap * result (list loc * loc) :=
  let '(h1, bk, r) := h_run h initial_book upd_payload final_only store_every in
  match r with
  | Err e => (h1, Err e)
  | Ok sts =>
      let '(h2, rf) := h_book_to_levels h1 bk in
      match rf with
      | Err e => (h2, Err e)
      | Ok _ =>
          let '(h3, r2) := h_revert h2 bk initial_book in
          match r2 with
          | Err e => (h3, Err e)
          | Ok rv => (h3, Ok (sts, rv))
          end
      end
  end.


(* ------------------------------------------------------------------ *)
(** ** Vocabulary of the statements *)

(** A price text that denotes a number (possibly infinite) and can be
    ordered against any other. *)
Definition price_okb (p : string) : bool :=
  match Dec.Decimal p with
  | Some d => negb (Dec.is_nan d)
  | None => false
  end.

(** A quantity text the codec accepts: a decimal, not NaN, not
    negative. *)
Definition qty_okb (q : string) : bool :=
  match Dec.Decimal q with
  | Some d => negb (Dec.is_nan d) && negb (Dec.is_negative d)
  | None => false
  end.

(** A quantity text whose value is zero. *)
Definition qty_zerob (q : string) : bool :=
  match Dec.Decimal q with
  | Some d => Dec.is_zero d
  | None => false
  end.

(** A quantity text whose value is strictly positive. *)
Definition qty_posb (q : string) : bool := qty_okb q && negb (qty_zerob q).

(** Two price texts of the same decimal value. *)
Definition same_price (p1 p2 : string) : bool :=
  match Dec.Decimal p1, Dec.Decimal p2 with
  | Some d1, Some d2 => Dec.eqb d1 d2
  | _, _ => false
  end.

(** The conditions under which a raw level is malformed, in the words of
    the specification of the codec. *)
Definition is_pair (row : json) : bool :=
  match row with JList [_; _] => true | _ => false end.

Definition is_text (v : json) : bool :=
  match v with JStr _ => true | _ => false end.

Definition fails_parsing (v : json) : bool :=
  match v with
  | JStr s => match Dec.Decimal s with None => true | Some _ => false end
  | _ => false
  end.

Definition parses_negative (v : json) : bool :=
  match v with
  | JStr s =>
      match Dec.Decimal s with Some d => Dec.is_negative d | None => false end
  | _ => false
  end.

Definition parses_nan (v : json) : bool :=
  match v with
  | JStr s =>
      match Dec.Decimal s with Some d => Dec.is_nan d | None => false end
  | _ => false
  end.

Definition malformed_level (row : json) : Prop :=
  is_pair row = false \/
  exists p q, row = JList [p; q] /\
    (is_text p = false \/ is_text q = false \/
     fails_parsing p = true \/ fails_parsing q = true \/
     parses_negative q = true).

(** A list of raw levels with an entry that the codec rejects. *)
Definition bad_entry (label : string) (levels : json) : Prop :=
  exists rows i row,
    levels = JList rows /\ nth_error rows i = Some row /\
    is_ok (check_level label i row) = false.

(** The last quantity a list of level changes gives to a price text. *)
Fixpoint last_update (levels : list (string * string)) (p : string)
  : option string :=
  match levels with
  | [] => None
  | (p', q) :: r =>
      match last_update r p with
      | Some q' => Some q'
      | None => if String.eqb p' p then Some q else None
      end
  end.

(** The level at a price text after a list of changes to a side. *)
Definition level_after (levels : list (string * string)) (d : dict)
  (p : string) : option string :=
  match last_update levels p with
  | Some q => if qty_zerob q then None else Some q
  | None => dict_get d p
  end.

(** The sort key of a price text that is a decimal. *)
Definition key_of (s : string) : Dec.decimal :=
  match Dec.Decimal s with
  | Some d => d
  | None => Dec.NaN false
  end.

(** The sort of [sort_r] when no comparison signals. *)
Section PureSort.
Variable A : Type.

Fixpoint insert (x : Dec.decimal * A) (l : list (Dec.decimal * A))
  : list (Dec.decimal * A) :=
  match l with
  | [] => [x]
  | y :: ys => if Dec.ltb (fst y) (fst x) then y :: insert x ys else x :: l
  end.

Fixpoint isort (l : list (Dec.decimal * A)) : list (Dec.decimal * A) :=
  match l with
  | [] => []
  | x :: xs => insert x (isort xs)
  end.

Definition no_nan (l : list (Dec.decimal * A)) : Prop :=
  Forall (fun kx => Dec.is_nan (fst kx) = false) l.

Definition key_le (x y : Dec.decimal * A) : Prop :=
  Dec.ltb (fst y) (fst x) = false.
End PureSort.

(** [sorted] when every key is a decimal that is not NaN. *)
Definition psorted (A : Type) (key : A -> string) (reverse : bool)
  (l : list A) : list A :=
  let keyed := map (fun x => (key_of (key x), x)) l in
  map snd (if reverse then rev (isort (rev keyed)) else isort keyed).

(** The levels of a side at a list of its prices, and [sorted_side] when
    every price of the side is a decimal that is not NaN. *)
Definition dict_value (d : dict) (p : string) : string :=
  match dict_get d p with Some q => q | None => "" end.

Definition items_of (d : dict) (prices : list string)
  : list (string * string) :=
  map (fun p => (p, dict_value d p)) prices.

Definition pside (d : dict) (s : side) : list (string * string) :=
  items_of d (psorted (fun p => p) (is_bid s) (dict_keys d)).

(** Price texts ordered by their decimal value. *)
Definition price_lt (p1 p2 : string) : Prop :=
  Dec.ltb (key_of p1) (key_of p2) = true.

Definition price_le (p1 p2 : string) : Prop :=
  Dec.ltb (key_of p2) (key_of p1) = false.

(** A side whose levels went through the codec and can be sorted: unique
    price texts, every price a decimal that is not NaN, every quantity
    accepted by the codec. *)
Record side_valid (d : dict) : Prop := {
  sv_wf : dict_wf d;
  sv_price : Forall (fun pq => price_okb (fst pq) = true) d;
  sv_qty : Forall (fun pq => qty_okb (snd pq) = true) d
}.

Definition book_valid (bk : book) : Prop :=
  side_valid (ask bk) /\ side_valid (bid bk).

(** No quantity of the side is zero. *)
Definition side_positive (d : dict) : Prop :=
  Forall (fun pq => qty_posb (snd pq) = true) d.

Definition book_positive (bk : book) : Prop :=
  side_positive (ask bk) /\ side_positive (bid bk).

(** Distinct price texts of the side have distinct decimal values. *)
Definition side_distinct (d : dict) : Prop :=
  forall p1 p2, In p1 (dict_keys d) -> In p2 (dict_keys d) -> p1 <> p2 ->
                same_price p1 p2 = false.

Definition book_distinct (bk : book) : Prop :=
  side_distinct (ask bk) /\ side_distinct (bid bk).

(** A list of raw levels that the codec accepts and whose prices are not
    NaN; an event and an item of the update stream made of such lists. *)
Definition valid_levels (levels : json) : bool :=
  match parse_levels levels "" with
  | Ok l => forallb (fun pq => price_okb (fst pq)) l
  | Err _ => false
  end.

Definition valid_event (ev : list (string * json)) : bool :=
  valid_levels (get_or_none ev "b") && valid_levels (get_or_none ev "a").

Definition valid_item (item : json) : bool :=
  match depth_event 0 item with
  | Ok ev => valid_event ev
  | Err _ => false
  end.

(** The key of an event under which the changes of a side are found, and
    the other side. *)
Definition side_key (s : side) : string :=
  match s with BidSide => "b" | AskSide => "a" end.

Definition other_side (s : side) : side :=
  match s with BidSide => AskSide | AskSide => BidSide end.

(** The order in which a side is displayed: asks ascending, bids
    descending by decimal value. *)
Definition display_order (s : side) (x y : string * string) : Prop :=
  if is_bid s then price_le (fst y) (fst x) else price_le (fst x) (fst y).

(** The book after the first [m] items of an update stream, and the
    counts of events at which a stride of [K] stores a state: the
    multiples of [K] up to the number [N] of events. *)
Definition book_after (bk : book) (items : list json) (m : nat) : book :=
  fst (apply_all 0 (firstn m items) bk).

Definition capture_points (K : Z) (N : nat) : list nat :=
  filter (fun m => Z.of_nat m mod K =? 0) (seq 1 N).

(** The object in which an item of the update stream carries its
    changes, and the items that do not have the shape of an update. *)
Definition selected_payload (o : list (string * json)) : json :=
  match dict_get o "data" with Some v => v | None => JDict o end.

Definition present_not_list (payload : list (string * json)) (k : string)
  : bool :=
  match dict_get payload k with
  | Some v => negb (is_list v)
  | None => false
  end.

Definition malformed_update (item : json) : Prop :=
  match item with
  | JDict o =>
      match selected_payload o with
      | JDict payload =>
          present_not_list payload "a" = true \/
          present_not_list payload "b" = true
      | _ => True
      end
  | _ => True
  end.

(** A book object whose two sides are distinct objects of the heap. *)
Definition book_in (h : heap) (b : book_ref) : Prop :=
  (ask_ref b < length h)%nat /\ (bid_ref b < length h)%nat /\
  ask_ref b <> bid_ref b.

(** The location holds the constructed value [v]. *)
Definition stored (h : heap) (l : loc) (v : json) : Prop :=
  nth_error h l = Some (OValue v).

(** A location that is not a side of the book. *)
Definition apart (b : book_ref) (l : loc) : Prop :=
  l <> ask_ref b /\ l <> bid_ref b.

(** The scenario of the specification. *)
Definition scenario_snapshot : list (string * json) :=
  [("asks", rows_json [("100.5", "2")]);
   ("bids", rows_json [("100.0", "3")])].

Definition scenario_event : json :=
  JDict [("b", rows_json [("100.0", "0")]);
         ("a", rows_json [("100.5", "5"); ("101.0", "1")])].

(** The book of the scenario, its two sides as objects of a heap, and an
    event with a malformed ask after a valid bid. *)
Definition scenario_book : book :=
  Book [("100.5", "2")] [("100.0", "3")].

Definition scenario_heap : heap :=
  [ODict [("100.5", "2")]; ODict [("100.0", "3")]].

Definition half_valid_event : list (string * json) :=
  [("b", rows_json [("100.0", "0")]); ("a", JList [JList [JStr "100.5"]])].

(** A text that the decimal constructor accepts. *)
Definition decimal_text (p : string) : bool :=
  match Dec.Decimal p with Some _ => true | None => false end.

(** The entry that the rules of [generate_revert_update] give to a price
    text: none when the two sides hold the same level there. *)
Definition revert_entry (cur tgt : dict) (zero_fmt : string) (p : string)
  : option string :=
  match dict_get cur p, dict_get tgt p with
  | Some _, None => Some zero_fmt
  | Some q_cur, Some q_tgt =>
      if String.eqb q_tgt q_cur then None else Some q_tgt
  | None, Some q_tgt => Some q_tgt
  | None, None => None
  end.

(** A JSON object. *)
Definition is_object (v : json) : bool :=
  match v with JDict _ => true | _ => false end.

(* ================================================================== *)
(** * Properties *)

(** ** Dictionaries *)

Section DictFacts.
Variable V : Type.
Implicit Types (d : list (string * V)) (k : string) (v : V).

Lemma dict_get_set_eq d k v : dict_get (dict_set d k v) k = Some v.
Proof.
  induction d as [|[k' v'] r IH]; simpl.
  - now rewrite String.eqb_refl.
  - destruct (String.eqb k' k) eqn:E; simpl; rewrite E; auto.
Qed.

Lemma dict_get_set_ne d k k' v :
  k <> k' -> dict_get (dict_set d k v) k' = dict_get d k'.
Proof.
  intros N. induction d as [|[k0 v0] r IH]; simpl.
  - destruct (String.eqb_spec k k'); congruence.
  - destruct (String.eqb_spec k0 k) as [->|]; simpl.
    + destruct (String.eqb_spec k k'); congruence.
    + destruct (String.eqb_spec k0 k'); auto.
Qed.

Lemma dict_get_pop_eq d k : dict_get (dict_pop d k) k = None.
Proof.
  induction d as [|[k' v'] r IH]; simpl; auto.
  destruct (String.eqb k' k) eqn:E; simpl; try rewrite E; auto.
Qed.

Lemma dict_get_pop_ne d k k' :
  k <> k' -> dict_get (dict_pop d k) k' = dict_get d k'.
Proof.
  intros N. induction d as [|[k0 v0] r IH]; simpl; auto.
  destruct (String.eqb_spec k0 k) as [->|]; simpl.
  - destruct (String.eqb_spec k k'); congruence.
  - destruct (String.eqb_spec k0 k'); auto.
Qed.

Lemma dict_get_none d k : dict_get d k = None <-> ~ In k (dict_keys d).
Proof.
  induction d as [|[k' v'] r IH]; simpl.
  - tauto.
  - destruct (String.eqb_spec k' k) as [E|E].
    + split; [discriminate | intros H; exfalso; apply H; auto].
    + rewrite IH. tauto.
Qed.

Lemma dict_get_in d k v : dict_get d k = Some v -> In (k, v) d.
Proof.
  induction d as [|[k' v'] r IH]; simpl; try discriminate.
  destruct (String.eqb_spec k' k) as [->|]; intros H.
  - injection H as ->; auto.
  - auto.
Qed.

Lemma dict_in_get d k v : dict_wf d -> In (k, v) d -> dict_get d k = Some v.
Proof.
  unfold dict_wf. induction d as [|[k' v'] r IH]; simpl; intros W H.
  - contradiction.
  - inversion W as [|? ? Hn Hr]; subst.
    destruct H as [H|H].
    + injection H as -> ->. now rewrite String.eqb_refl.
    + destruct (String.eqb_spec k' k) as [->|].
      * exfalso. apply Hn. apply (in_map fst) in H. exact H.
      * auto.
Qed.

Lemma dict_mem_keys d k : dict_mem d k = true <-> In k (dict_keys d).
Proof.
  unfold dict_mem. destruct (dict_get d k) eqn:E.
  - split; auto. intros _. apply dict_get_in in E.
    apply (in_map fst) in E. exact E.
  - split; try discriminate. intros H. apply dict_get_none in E. tauto.
Qed.

Lemma dict_keys_set d k v k' :
  In k' (dict_keys (dict_set d k v)) <-> k' = k \/ In k' (dict_keys d).
Proof.
  induction d as [|[k0 v0] r IH]; simpl.
  - intuition.
  - destruct (String.eqb_spec k0 k) as [->|]; simpl.
    + intuition.
    + rewrite IH. intuition.
Qed.

Lemma dict_keys_pop d k k' :
  In k' (dict_keys (dict_pop d k)) <-> k' <> k /\ In k' (dict_keys d).
Proof.
  induction d as [|[k0 v0] r IH]; simpl.
  - tauto.
  - destruct (String.eqb_spec k0 k) as [->|]; simpl.
    + rewrite IH. intuition congruence.
    + rewrite IH. intuition congruence.
Qed.

Lemma dict_wf_set d k v : dict_wf d -> dict_wf (dict_set d k v).
Proof.
  unfold dict_wf. induction d as [|[k0 v0] r IH]; simpl; intros W.
  - constructor; auto.
  - inversion W as [|? ? Hn Hr]; subst.
    destruct (String.eqb_spec k0 k) as [->|]; simpl.
    + constructor; auto.
    + constructor; auto. intros H.
      apply (dict_keys_set r k v k0) in H. destruct H; auto.
Qed.

Lemma dict_wf_pop d k : dict_wf d -> dict_wf (dict_pop d k).
Proof.
  unfold dict_wf. induction d as [|[k0 v0] r IH]; simpl; intros W.
  - constructor.
  - inversion W as [|? ? Hn Hr]; subst.
    destruct (String.eqb_spec k0 k) as [->|]; simpl; auto.
    constructor; auto. intros H.
    apply (dict_keys_pop r k k0) in H. tauto.
Qed.

(** What holds of every value of a dictionary holds after an update
    with such a value, and after a removal. *)
Lemma Forall_dict_set (P : string * V -> Prop) d k v :
  Forall P d -> (forall k0 v0, P (k0, v0) -> P (k0, v)) -> P (k, v) ->
  Forall P (dict_set d k v).
Proof.
  intros F Hrep Hk. induction d as [|[k0 v0] r IH]; simpl.
  - constructor; auto.
  - inversion F; subst. destruct (String.eqb_spec k0 k) as [->|].
    + constructor; auto.
    + constructor; auto.
Qed.

Lemma Forall_dict_pop (P : string * V -> Prop) d k :
  Forall P d -> Forall P (dict_pop d k).
Proof.
  intros F. induction d as [|[k0 v0] r IH]; simpl; auto.
  inversion F; subst. destruct (String.eqb k0 k); auto.
Qed.
End DictFacts.

(** ** The codec *)

Lemma check_level_ok label i row p q :
  check_level label i row = Ok (p, q) ->
  row = JList [JStr p; JStr q] /\ qty_okb q = true /\
  (exists d, Dec.Decimal p = Some d).
Proof.
  unfold check_level, qty_okb.
  destruct row as [| | | | |[|a [|b [|c r]]]|]; try discriminate.
  destruct a; try discriminate. destruct b; try discriminate.
  destruct (Dec.Decimal s) eqn:E1; try discriminate.
  destruct (Dec.Decimal s0) eqn:E2; try discriminate.
  destruct (Dec.is_nan d0) eqn:E3; try discriminate.
  destruct (Dec.is_negative d0) eqn:E4; try discriminate.
  intros H; injection H as <- <-. rewrite E2, E3, E4. eauto.
Qed.

(** The outcome of [check_level] does not depend on the label or the
    index, which only go into the message. *)
Lemma check_level_is_ok label i label' i' row :
  is_ok (check_level label i row) = is_ok (check_level label' i' row).
Proof.
  unfold check_level.
  destruct row as [| | | | |[|a [|b [|c r]]]|]; auto.
  destruct a; auto. destruct b; auto.
  destruct (Dec.Decimal s); auto. destruct (Dec.Decimal s0); auto.
  destruct (Dec.is_nan d0); auto. destruct (Dec.is_negative d0); auto.
Qed.

Lemma parse_rows_ok label rows : forall i out,
  parse_rows label i rows = Ok out ->
  Forall (fun pq => qty_okb (snd pq) = true) out /\
  Forall (fun pq => exists d, Dec.Decimal (fst pq) = Some d) out /\
  rows = map row_json out.
Proof.
  induction rows as [|row rest IH]; simpl; intros i out H.
  - injection H as <-. auto.
  - destruct (check_level label i row) as [[p q]|] eqn:E; try discriminate.
    simpl in H.
    destruct (parse_rows label (S i) rest) as [out'|] eqn:E'; try discriminate.
    simpl in H. injection H as <-.
    apply check_level_ok in E. destruct E as (-> & Hq & Hp).
    destruct (IH _ _ E') as (F1 & F2 & ->).
    repeat split; auto.
Qed.

(** A rejected row makes the whole list fail, with the error of the
    first rejected row. *)
Lemma parse_rows_err label rows : forall k e,
  parse_rows label k rows = Err e ->
  exists i row, nth_error rows i = Some row /\
                check_level label (k + i) row = Err e.
Proof.
  induction rows as [|row rest IH]; simpl; intros k e H; try discriminate.
  destruct (check_level label k row) as [pq|e0] eqn:E; simpl in H.
  - destruct (parse_rows label (S k) rest) as [out'|e1] eqn:E';
      simpl in H; try discriminate.
    injection H as <-. destruct (IH _ _ E') as (i & r & Hn & Hc).
    exists (S i), r. split; auto.
    now replace (k + S i)%nat with (S k + i)%nat by lia.
  - injection H as <-. exists 0%nat, row. split; auto.
    now rewrite Nat.add_0_r.
Qed.

Lemma parse_rows_bad label rows : forall k i row,
  nth_error rows i = Some row ->
  is_ok (check_level label (k + i) row) = false ->
  is_ok (parse_rows label k rows) = false.
Proof.
  induction rows as [|r0 rest IH]; intros k i row Hn Hc.
  - destruct i; discriminate.
  - simpl. destruct (check_level label k r0) as [pq|e0] eqn:E; auto.
    simpl. destruct i as [|i]; simpl in Hn.
    + injection Hn as ->. rewrite Nat.add_0_r, E in Hc. discriminate.
    + replace (k + S i)%nat with (S k + i)%nat in Hc by lia.
      specialize (IH _ _ _ Hn Hc).
      destruct (parse_rows label (S k) rest); auto; discriminate.
Qed.

Lemma bad_entry_parse label levels :
  bad_entry label levels -> exists e, parse_levels levels label = Err e.
Proof.
  intros (rows & i & row & -> & Hn & Hc). simpl.
  pose proof (parse_rows_bad label rows 0 i Hn Hc) as H.
  destruct (parse_rows label 0 rows); eauto; discriminate.
Qed.

Lemma parse_levels_ok levels label out :
  parse_levels levels label = Ok out ->
  Forall (fun pq => qty_okb (snd pq) = true) out /\
  Forall (fun pq => exists d, Dec.Decimal (fst pq) = Some d) out.
Proof.
  destruct levels; simpl; try discriminate.
  - intros H; injection H as <-; auto.
  - intros H. apply parse_rows_ok in H. tauto.
Qed.

Lemma parse_levels_err levels label e :
  parse_levels levels label = Err e ->
  (exists rows i row, levels = JList rows /\ nth_error rows i = Some row /\
                      check_level label i row = Err e) \/
  e = ValueError (MustBeList label (type_name levels)).
Proof.
  destruct levels; simpl; intros H; try discriminate;
    try (right; congruence).
  left. apply parse_rows_err in H. destruct H as (i & row & Hn & Hc).
  exists items, i, row. auto.
Qed.

(** ** Applying level changes *)

Lemma qty_okb_is_zero q :
  qty_okb q = true -> qty_is_zero q = Ok (qty_zerob q).
Proof.
  unfold qty_okb, qty_is_zero, qty_zerob.
  destruct (Dec.Decimal q) as [[| |[|]]|]; simpl; auto; discriminate.
Qed.

(** On levels that went through the codec the loop of [apply_event]
    does not raise, and it leaves at each price text the level given by
    its last change. *)
Lemma apply_levels_ok levels : forall d,
  Forall (fun pq => qty_okb (snd pq) = true) levels ->
  snd (apply_levels d levels) = Ok tt /\
  forall p, dict_get (fst (apply_levels d levels)) p = level_after levels d p.
Proof.
  unfold level_after.
  induction levels as [|[p0 q0] rest IH]; simpl; intros d F.
  - auto.
  - inversion F as [|? ? Hq Hr]; subst. simpl in Hq.
    rewrite (qty_okb_is_zero _ Hq).
    destruct (qty_zerob q0) eqn:Z.
    + destruct (IH (dict_pop d p0) Hr) as [S G]. split; auto.
      intros p. rewrite G. destruct (last_update rest p); auto.
      destruct (String.eqb_spec p0 p) as [->|N].
      * rewrite Z. apply dict_get_pop_eq.
      * now apply dict_get_pop_ne.
    + destruct (IH (dict_set d p0 q0) Hr) as [S G]. split; auto.
      intros p. rewrite G. destruct (last_update rest p); auto.
      destruct (String.eqb_spec p0 p) as [->|N].
      * rewrite Z. apply dict_get_set_eq.
      * now apply dict_get_set_ne.
Qed.

Lemma apply_levels_parsed levels label out d :
  parse_levels levels label = Ok out ->
  apply_levels d out = (fst (apply_levels d out), Ok tt).
Proof.
  intros H. apply parse_levels_ok in H. destruct H as [F _].
  destruct (apply_levels_ok d F) as [S _].
  destruct (apply_levels d out); simpl in *; congruence.
Qed.

(** ** The claims about the codec and the delta applier *)

Lemma check_level_texts label i ps qs :
  check_level label i (JList [JStr ps; JStr qs]) =
  match Dec.Decimal ps, Dec.Decimal qs with
  | Some _, Some qd =>
      if Dec.is_nan qd then Err InvalidOperation
      else if Dec.is_negative qd
           then Err (ValueError
                       (NegativeQuantity label i (JList [JStr ps; JStr qs])))
           else Ok (ps, qs)
  | _, _ => Err (ValueError (InvalidDecimal label i (JList [JStr ps; JStr qs])))
  end.
Proof. reflexivity. Qed.

Lemma check_level_not_texts label i row :
  (forall ps qs, row <> JList [JStr ps; JStr qs]) ->
  (is_pair row = false /\
   check_level label i row = Err (ValueError (NotAPair label i))) \/
  (exists p q, row = JList [p; q] /\
     (is_text p = false \/ is_text q = false) /\
     check_level label i row = Err (ValueError (NotStrings label i))).
Proof.
  intros Hne.
  destruct row as [| | | | |[|a [|b [|c r]]]|];
    try (left; split; reflexivity).
  right. exists a, b. split; auto.
  destruct a as [| | | |ps| |]; try (split; [left|]; reflexivity).
  destruct b as [| | | |qs| |]; try (split; [right|]; reflexivity).
  destruct (Hne ps qs eq_refl).
Qed.

Lemma row_texts_dec row :
  (exists ps qs, row = JList [JStr ps; JStr qs]) \/
  (forall ps qs, row <> JList [JStr ps; JStr qs]).
Proof.
  destruct row as [| | | | |[|a [|b [|c r]]]|]; try (right; discriminate).
  destruct a as [| | | |ps| |]; try (right; discriminate).
  destruct b as [| | | |qs| |]; try (right; discriminate).
  left; eauto.
Qed.

Lemma value_error_iff_malformed label i row :
  is_value_error (check_level label i row) = true <-> malformed_level row.
Proof.
  unfold malformed_level.
  destruct (row_texts_dec row) as [(ps & qs & ->)|Hne].
  - rewrite check_level_texts. simpl.
    split.
    + intros H. right. exists (JStr ps), (JStr qs). split; auto. simpl.
      destruct (Dec.Decimal ps); [|tauto].
      destruct (Dec.Decimal qs) as [dq|]; [|tauto].
      destruct (Dec.is_nan dq); try discriminate.
      destruct (Dec.is_negative dq); try discriminate. tauto.
    + intros [H|(p & q & E & H)]; try discriminate.
      injection E as <- <-. simpl in H.
      destruct (Dec.Decimal ps); auto.
      destruct (Dec.Decimal qs) as [dq|]; auto.
      destruct H as [H|[H|[H|[H|H]]]]; try discriminate.
      rewrite H. destruct dq; simpl in *; try discriminate; auto.
  - destruct (check_level_not_texts label i Hne)
      as [[Hp Hc]|(p & q & -> & Ht & Hc)]; rewrite Hc; simpl.
    + tauto.
    + split; auto. intros _. right. exists p, q. split; auto. tauto.
Qed.

Lemma value_error_payload label i row m :
  check_level label i row = Err (ValueError m) ->
  message_index m = Some i /\
  message_row m =
    match row with
    | JList [JStr _; JStr _] => Some row
    | _ => None
    end.
Proof.
  destruct (row_texts_dec row) as [(ps & qs & ->)|Hne].
  - rewrite check_level_texts.
    destruct (Dec.Decimal ps);
      [destruct (Dec.Decimal qs) as [dq|];
       [destruct (Dec.is_nan dq); [discriminate|];
        destruct (Dec.is_negative dq); [|discriminate]|]|];
      intros H; injection H as <-; auto.
  - destruct (check_level_not_texts label i Hne)
      as [[Hp Hc]|(p & q & -> & Ht & Hc)]; rewrite Hc;
      intros H; injection H as <-; split; auto; simpl.
    + destruct row as [| | | | |[|a [|b [|c r]]]|]; try reflexivity;
        try discriminate Hp; destruct a; try reflexivity;
        destruct b; reflexivity.
    + destruct p as [| | | |ps| |]; try reflexivity.
      destruct q as [| | | |qs| |]; try reflexivity.
      destruct Ht; discriminate.
Qed.

(** The comparison [qd < 0] is outside the [try]: on a quantity that
    parses as NaN it raises [decimal.InvalidOperation], which is no
    [ValueError]. *)
Lemma invalid_operation_iff_nan label i row :
  check_level label i row = Err InvalidOperation <->
  exists ps qs, row = JList [JStr ps; JStr qs] /\
    fails_parsing (JStr ps) = false /\ parses_nan (JStr qs) = true.
Proof.
  destruct (row_texts_dec row) as [(ps & qs & ->)|Hne].
  - rewrite check_level_texts. split.
    + intros H. exists ps, qs. simpl. split; auto.
      destruct (Dec.Decimal ps); try discriminate.
      destruct (Dec.Decimal qs) as [dq|]; try discriminate.
      destruct (Dec.is_nan dq); auto.
      destruct (Dec.is_negative dq); discriminate.
    + intros (ps' & qs' & E & Hp & Hq). injection E as <- <-.
      simpl in *. destruct (Dec.Decimal ps); try discriminate.
      destruct (Dec.Decimal qs) as [dq|]; try discriminate.
      now rewrite Hq.
  - split.
    + destruct (check_level_not_texts label i Hne)
        as [[Hp Hc]|(p & q & -> & Ht & Hc)]; rewrite Hc; discriminate.
    + intros (ps & qs & E & _). destruct (Hne _ _ E).
Qed.

(** C5, as stated, would have every [ValueError] of the codec carry the
    index and the raw row. It does not: the message for a row that is not
    a pair carries the index alone. *)
Lemma codec_error_payload_counterexample :
  ~ (forall label i row m,
       check_level label i row = Err (ValueError m) ->
       message_index m = Some i /\ message_row m = Some row).
Proof.
  intros H.
  destruct (H "bids" 0%nat (JList [JStr "100.5"]) (NotAPair "bids" 0)
              eq_refl) as [_ R].
  discriminate R.
Qed.

(** C5 (amended). The codec raises a [ValueError] on a raw level exactly
    when the level is not a pair of two elements, a field is not text, a
    field fails decimal parsing or the quantity parses negative. The error
    always carries the index of the level; it carries the raw row only
    when the failure is a decimal that does not parse or a negative
    quantity. A quantity that parses as zero is accepted. *)
Theorem check_level_raises_iff (label : string) (i : nat) (row : json) :
  (is_value_error (check_level label i row) = true <-> malformed_level row) /\
  (forall m, check_level label i row = Err (ValueError m) ->
     message_index m = Some i /\
     message_row m =
       match row with
       | JList [JStr _; JStr _] => Some row
       | _ => None
       end) /\
  (forall ps qs, row = JList [JStr ps; JStr qs] ->
     fails_parsing (JStr ps) = false -> qty_okb qs = true ->
     qty_zerob qs = true -> check_level label i row = Ok (ps, qs)).
Proof.
  split; [apply value_error_iff_malformed|].
  split; [intros m; apply value_error_payload|].
  intros ps qs -> Hp Hq _. rewrite check_level_texts.
  unfold qty_okb in Hq. simpl in Hp.
  destruct (Dec.Decimal ps); try discriminate.
  destruct (Dec.Decimal qs) as [dq|]; try discriminate.
  destruct (Dec.is_nan dq); try discriminate.
  destruct (Dec.is_negative dq); try discriminate. reflexivity.
Qed.

(** C7. The scenario of the specification: the final projection after the
    single event, and the revert event from the final book back to the
    snapshot, with its asks ascending by price. *)
Theorem scenario_projection_and_revert :
  main (Some (JDict scenario_snapshot)) (JList [scenario_event]) true 1 true
  = Ok {| states :=
            [JDict [("asks", JList [JList [JStr "100.5"; JStr "5"];
                                    JList [JStr "101.0"; JStr "1"]]);
                    ("bids", JList [])]];
          revert :=
            Some (JDict
              [("data",
                JDict [("e", JStr "depthUpdate");
                       ("b", JList [JList [JStr "100.0"; JStr "3"]]);
                       ("a", JList [JList [JStr "100.5"; JStr "2"];
                                    JList [JStr "101.0";
                                           JStr "0.00000000"]])])]) |}.
Proof. vm_compute. reflexivity. Qed.

(** C10. [apply_event] validates the whole list of bids before it applies
    any bid and the whole list of asks before it applies any ask: with a
    rejected entry anywhere among the bids the call fails and leaves the
    book as it was; with valid bids and a rejected entry anywhere among
    the asks the call fails, the ask side is as it was and every bid
    change has been applied: each price text holds on the bid side the
    level of the last bid of the event that names it (absent when that
    bid has a zero quantity), and the level it had when none does. *)
Theorem apply_event_side_atomic (bk : book) (ev : list (string * json)) :
  (bad_entry "bids" (get_or_none ev "b") ->
   fst (apply_event bk ev) = bk /\ is_ok (snd (apply_event bk ev)) = false) /\
  (forall bl,
     parse_levels (get_or_none ev "b") "bids" = Ok bl ->
     bad_entry "asks" (get_or_none ev "a") ->
     is_ok (snd (apply_event bk ev)) = false /\
     ask (fst (apply_event bk ev)) = ask bk /\
     forall p, dict_get (bid (fst (apply_event bk ev))) p
               = level_after bl (bid bk) p).
Proof.
  split.
  - intros B. apply bad_entry_parse in B. destruct B as [e E].
    unfold apply_event. rewrite E. auto.
  - intros bl Hb B. apply bad_entry_parse in B. destruct B as [e E].
    unfold apply_event. rewrite Hb, E.
    rewrite (apply_levels_parsed _ _ (bid bk) Hb). simpl.
    split; auto. split; auto.
    apply (apply_levels_ok (bid bk) (proj1 (parse_levels_ok _ _ Hb))).
Qed.

(** When an entry of the event is rejected by the codec, [apply_event]
    fails with the error the codec raised (for a level, or for a side
    that is not a list), and nothing is rolled back: either the rejected
    entry is a bid and no change had been made, or it is an ask and the
    book holds every bid change of the event. The error is a
    [ValueError] except for a quantity that is a NaN. *)
Lemma apply_event_not_rolled_back (bk : book) (ev : list (string * json)) :
  bad_entry "bids" (get_or_none ev "b") \/
  bad_entry "asks" (get_or_none ev "a") ->
  exists e,
    snd (apply_event bk ev) = Err e /\
    ((exists label i row, check_level label i row = Err e) \/
     (exists label got, e = ValueError (MustBeList label got))) /\
    ((parse_levels (get_or_none ev "b") "bids" = Err e /\
      fst (apply_event bk ev) = bk) \/
     (exists bl,
        parse_levels (get_or_none ev "b") "bids" = Ok bl /\
        parse_levels (get_or_none ev "a") "asks" = Err e /\
        ask (fst (apply_event bk ev)) = ask bk /\
        forall p, dict_get (bid (fst (apply_event bk ev))) p
                  = level_after bl (bid bk) p)).
Proof.
  intros H.
  assert (Hrow : forall label levels e,
             parse_levels levels label = Err e ->
             (exists label i row, check_level label i row = Err e) \/
             (exists label got, e = ValueError (MustBeList label got))).
  { intros label levels e P. apply parse_levels_err in P.
    destruct P as [(rows' & i & row & _ & _ & C)|P]; eauto. }
  destruct (parse_levels (get_or_none ev "b") "bids") as [bl|e] eqn:Eb.
  - destruct H as [H|H].
    { apply bad_entry_parse in H. destruct H as [e E]. congruence. }
    apply bad_entry_parse in H. destruct H as [e Ea].
    exists e. unfold apply_event. rewrite Eb, Ea.
    rewrite (apply_levels_parsed _ _ (bid bk) Eb). simpl.
    split; auto. split; [eapply Hrow; eauto|].
    right. exists bl. repeat split; auto.
    apply parse_levels_ok in Eb. destruct Eb as [F _].
    apply (apply_levels_ok (bid bk) F).
  - exists e. unfold apply_event. rewrite Eb. simpl.
    split; auto. split; [eapply Hrow; eauto|]. auto.
Qed.

(** C4. The error of a failed [apply_event] is not always the
    [ValueError] of the codec. [parse_levels] turns the
    [InvalidOperation] of a text that is no decimal into a [ValueError]
    inside its [try], but compares the quantity with zero after it: for
    a quantity that is a NaN the comparison signals, and
    [decimal.InvalidOperation] leaves [parse_levels] and [apply_event]
    as it is. Here the bids hold such a row before a row that is not a
    pair: the event has a malformed entry, the call fails, and the
    error is no [ValueError]. With a quantity that is no decimal at all
    in the same place, the error is the [ValueError] of the codec. *)
Theorem nan_quantity_escapes_codec :
  malformed_level (JList [JStr "100.5"]) /\
  apply_event scenario_book
    [("b", JList [JList [JStr "1"; JStr "NaN"]; JList [JStr "100.5"]])]
  = (scenario_book, Err InvalidOperation) /\
  is_value_error
    (snd (apply_event scenario_book
            [("b", JList [JList [JStr "1"; JStr "NaN"];
                          JList [JStr "100.5"]])])) = false /\
  apply_event scenario_book
    [("b", JList [JList [JStr "1"; JStr "abc"]; JList [JStr "100.5"]])]
  = (scenario_book,
     Err (ValueError (InvalidDecimal "bids" 0
                        (JList [JStr "1"; JStr "abc"])))).
Proof.
  split; [left; reflexivity|].
  split; [reflexivity|]. split; reflexivity.
Qed.

(** ** The order of decimals *)

Lemma Qltb_lt x y : Dec.Qltb x y = true <-> (x < y)%Q.
Proof.
  unfold Dec.Qltb. rewrite Qlt_alt.
  destruct (x ?= y)%Q; split; congruence.
Qed.

Lemma Qltb_ge x y : Dec.Qltb x y = false <-> (y <= x)%Q.
Proof.
  split; intros H.
  - apply Qnot_lt_le. intros L. apply Qltb_lt in L. congruence.
  - destruct (Dec.Qltb x y) eqn:E; auto.
    apply Qltb_lt in E. exfalso. eapply Qle_not_lt; eauto.
Qed.

Lemma ltb_irrefl a : Dec.ltb a a = false.
Proof.
  destruct a as [n c e|[|]|s]; simpl; auto.
  apply Qltb_ge. apply Qle_refl.
Qed.

Lemma ltb_trans a b c :
  Dec.ltb a b = true -> Dec.ltb b c = true -> Dec.ltb a c = true.
Proof.
  destruct a as [na ca ea|[|]|sa], b as [nb cb eb|[|]|sb],
    c as [nc cc ec|[|]|sc]; simpl; auto; try discriminate.
  rewrite !Qltb_lt. apply Qlt_trans.
Qed.

Lemma ltb_asym a b : Dec.ltb a b = true -> Dec.ltb b a = false.
Proof.
  intros H. destruct (Dec.ltb b a) eqn:E; auto.
  pose proof (ltb_trans _ _ _ H E) as T. rewrite ltb_irrefl in T.
  discriminate.
Qed.

(** [<=] is transitive through an operand that is not NaN. *)
Lemma leb_trans a b c :
  Dec.is_nan b = false ->
  Dec.ltb b a = false -> Dec.ltb c b = false -> Dec.ltb c a = false.
Proof.
  destruct a as [na ca ea|[|]|sa], b as [nb cb eb|[|]|sb],
    c as [nc cc ec|[|]|sc]; simpl; auto; try discriminate.
  rewrite !Qltb_ge. intros _ H1 H2. eapply Qle_trans; eauto.
Qed.

(** Two decimals that are not NaN and not equal are ordered one way or
    the other. *)
Lemma ltb_total a b :
  Dec.is_nan a = false -> Dec.is_nan b = false -> Dec.eqb a b = false ->
  Dec.ltb a b = true \/ Dec.ltb b a = true.
Proof.
  unfold Dec.eqb. intros -> ->. simpl.
  destruct (Dec.ltb a b), (Dec.ltb b a); simpl; auto; discriminate.
Qed.

Lemma price_okb_key p :
  price_okb p = true ->
  Dec.Decimal p = Some (key_of p) /\ Dec.is_nan (key_of p) = false.
Proof.
  unfold price_okb, key_of. destruct (Dec.Decimal p); try discriminate.
  intros H. split; auto. now destruct (Dec.is_nan d).
Qed.

Lemma same_price_false p1 p2 :
  price_okb p1 = true -> price_okb p2 = true -> same_price p1 p2 = false ->
  price_lt p1 p2 \/ price_lt p2 p1.
Proof.
  intros H1 H2. unfold same_price, price_lt.
  destruct (price_okb_key _ H1) as [-> N1].
  destruct (price_okb_key _ H2) as [-> N2].
  now apply ltb_total.
Qed.

(** ** Sorting *)

Section SortFacts.
Variable A : Type.
Implicit Types (x : Dec.decimal * A) (l : list (Dec.decimal * A)).

Lemma insert_perm x l : Permutation (insert x l) (x :: l).
Proof.
  induction l as [|y ys IH]; simpl; auto.
  destruct (Dec.ltb (fst y) (fst x)); auto.
  rewrite IH. apply perm_swap.
Qed.

Lemma isort_perm l : Permutation (isort l) l.
Proof.
  induction l as [|x xs IH]; simpl; auto.
  rewrite insert_perm. auto.
Qed.

Lemma no_nan_perm l l' : Permutation l l' -> no_nan l -> no_nan l'.
Proof. intros P F. eapply Permutation_Forall; eauto. Qed.

Lemma insert_r_pure x l :
  no_nan (x :: l) -> insert_r x l = Ok (insert x l).
Proof.
  intros F. inversion F as [|? ? Hx Hl]; subst.
  induction l as [|y ys IH]; simpl; auto.
  inversion Hl as [|? ? Hy Hys]; subst.
  unfold lt_r. rewrite Hx, Hy. simpl.
  destruct (Dec.ltb (fst y) (fst x)); auto.
  rewrite IH; auto. constructor; auto.
Qed.

Lemma sort_r_pure l : no_nan l -> sort_r l = Ok (isort l).
Proof.
  induction l as [|x xs IH]; simpl; auto.
  intros F. inversion F as [|? ? Hx Hl]; subst.
  rewrite IH by auto. simpl. apply insert_r_pure.
  constructor; auto. eapply no_nan_perm; [|exact Hl].
  symmetry. apply isort_perm.
Qed.

Lemma insert_sorted x l :
  no_nan (x :: l) -> StronglySorted (@key_le A) l ->
  StronglySorted (@key_le A) (insert x l).
Proof.
  intros F S. inversion F as [|? ? Hx Hl]; subst. clear F.
  induction l as [|y ys IH]; simpl.
  - constructor; constructor.
  - inversion S as [|? ? Sys Hys]; subst.
    inversion Hl as [|? ? Hy Hl']; subst.
    destruct (Dec.ltb (fst y) (fst x)) eqn:E.
    + constructor; auto.
      eapply Permutation_Forall; [symmetry; apply insert_perm|].
      constructor; auto. unfold key_le. now apply ltb_asym.
    + constructor; auto. constructor; auto.
      rewrite Forall_forall in Hys |- *. intros z Hz.
      unfold key_le in *. eapply leb_trans; eauto.
Qed.

Lemma isort_sorted l : no_nan l -> StronglySorted (@key_le A) (isort l).
Proof.
  induction l as [|x xs IH]; simpl; intros F.
  - constructor.
  - inversion F; subst. apply insert_sorted; auto.
    constructor; auto. eapply no_nan_perm; [|eassumption].
    symmetry. apply isort_perm.
Qed.
End SortFacts.

(** A strictly sorted list is determined by its elements. *)
Section StrictSorted.
Variable A : Type.
Variable R : A -> A -> Prop.
Hypothesis R_irrefl : forall x, ~ R x x.
Hypothesis R_trans : forall x y z, R x y -> R y z -> R x z.

Lemma strict_sorted_unique (l1 l2 : list A) :
  StronglySorted R l1 -> StronglySorted R l2 ->
  (forall x, In x l1 <-> In x l2) -> l1 = l2.
Proof.
  revert l2. induction l1 as [|x xs IH]; intros l2 S1 S2 H.
  - destruct l2 as [|y ys]; auto.
    destruct (proj2 (H y) (or_introl eq_refl)).
  - destruct l2 as [|y ys].
    + destruct (proj1 (H x) (or_introl eq_refl)).
    + inversion S1 as [|? ? Sx Fx]; subst.
      inversion S2 as [|? ? Sy Fy]; subst.
      rewrite Forall_forall in Fx, Fy.
      assert (E : x = y).
      { destruct (proj1 (H x) (or_introl eq_refl)) as [E|I]; auto.
        destruct (proj2 (H y) (or_introl eq_refl)) as [E|I']; auto.
        destruct (R_irrefl (R_trans (Fx _ I') (Fy _ I))). }
      subst y. f_equal. apply IH; auto.
      intros z. split; intros I.
      * destruct (proj1 (H z) (or_intror I)) as [E|I']; auto.
        subst z. destruct (R_irrefl (Fx _ I)).
      * destruct (proj2 (H z) (or_intror I)) as [E|I']; auto.
        subst z. destruct (R_irrefl (Fy _ I)).
Qed.

End StrictSorted.

Lemma StronglySorted_snoc (A : Type) (R : A -> A -> Prop) (l : list A) x :
  StronglySorted R l -> Forall (fun y => R y x) l ->
  StronglySorted R (l ++ [x]).
Proof.
  induction 1 as [|y ys S IH F]; simpl; intros G.
  - constructor; constructor.
  - inversion G; subst. constructor; auto.
    apply Forall_app. split; auto.
Qed.

Lemma StronglySorted_rev (A : Type) (R : A -> A -> Prop) (l : list A) :
  StronglySorted R l -> StronglySorted (fun x y => R y x) (rev l).
Proof.
  induction 1 as [|x xs S IH F]; simpl.
  - constructor.
  - apply StronglySorted_snoc; auto. now apply Forall_rev.
Qed.

(** Sorted by [<=] without two elements of equal rank is sorted by
    [<]. *)
Lemma StronglySorted_strict (A : Type) (le lt : A -> A -> Prop) (l : list A) :
  (forall x y, In x l -> In y l -> le x y -> x <> y -> lt x y) ->
  NoDup l -> StronglySorted le l -> StronglySorted lt l.
Proof.
  intros H N S. induction S as [|x xs S IH F].
  - constructor.
  - inversion N as [|? ? Nx Nxs]; subst. constructor.
    + apply IH; auto. intros; apply H; simpl; auto.
    + rewrite Forall_forall in F |- *. intros y Hy.
      apply H; simpl; auto. intros ->. contradiction.
Qed.

Lemma StronglySorted_map (A B : Type) (R : A -> A -> Prop)
  (R' : B -> B -> Prop) (f : A -> B) (l : list A) :
  (forall x y, In x l -> In y l -> R x y -> R' (f x) (f y)) ->
  StronglySorted R l -> StronglySorted R' (map f l).
Proof.
  intros H S. induction S as [|x xs S IH F]; simpl.
  - constructor.
  - constructor.
    + apply IH. intros; apply H; simpl; auto.
    + rewrite Forall_forall in F. apply Forall_forall. intros b Hb.
      apply in_map_iff in Hb. destruct Hb as (y & <- & Hy).
      apply H; simpl; auto.
Qed.

Section SortedFacts.
Variable A : Type.
Variable key : A -> string.

Let keyed (l : list A) := map (fun x => (key_of (key x), x)) l.
Let keys_ok (l : list A) := Forall (fun x => price_okb (key x) = true) l.

Lemma with_keys_pure l : keys_ok l -> with_keys key l = Ok (keyed l).
Proof.
  induction l as [|x xs IH]; simpl; auto.
  intros F. inversion F as [|? ? Hx Hxs]; subst.
  unfold sort_key. destruct (price_okb_key _ Hx) as [-> _]. simpl.
  now rewrite IH.
Qed.

Lemma keyed_no_nan l : keys_ok l -> no_nan (keyed l).
Proof.
  induction 1 as [|x xs Hx Hxs IH]; simpl; constructor; auto.
  simpl. apply (price_okb_key _ Hx).
Qed.

Lemma keyed_snd l : map snd (keyed l) = l.
Proof.
  unfold keyed. rewrite map_map. simpl. apply map_id.
Qed.

Lemma sorted_pure reverse l :
  keys_ok l -> sorted key reverse l = Ok (psorted key reverse l).
Proof.
  intros F. unfold sorted, psorted. rewrite (with_keys_pure F). simpl.
  fold (keyed l). rewrite sort_r_pure.
  - simpl. destruct reverse; reflexivity.
  - destruct reverse; [|now apply keyed_no_nan].
    eapply no_nan_perm; [apply Permutation_rev|]. now apply keyed_no_nan.
Qed.

Lemma psorted_perm reverse l : Permutation (psorted key reverse l) l.
Proof.
  unfold psorted. fold (keyed l).
  apply Permutation_trans with (map snd (keyed l));
    [|rewrite keyed_snd; apply Permutation_refl].
  apply Permutation_map. destruct reverse.
  - rewrite <- Permutation_rev, isort_perm. symmetry.
    apply Permutation_rev.
  - apply isort_perm.
Qed.

Lemma psorted_in reverse l x : In x (psorted key reverse l) <-> In x l.
Proof.
  split; apply Permutation_in; [|symmetry]; apply psorted_perm.
Qed.

Lemma keyed_fst l kx : In kx (keyed l) -> fst kx = key_of (key (snd kx)).
Proof.
  unfold keyed. rewrite in_map_iff. intros (x & <- & _). reflexivity.
Qed.

(** Ascending by decimal value; descending for a reverse sort. *)
Lemma psorted_sorted (reverse : bool) (l : list A) :
  keys_ok l ->
  StronglySorted
    (fun x y : A => if reverse then price_le (key y) (key x)
                else price_le (key x) (key y))
    (psorted key reverse l).
Proof.
  intros F. unfold psorted. fold (keyed l). destruct reverse.
  - apply StronglySorted_map with
      (R := fun x y : Dec.decimal * A => key_le y x).
    + intros x y Hx Hy. apply in_rev in Hx, Hy.
      eapply Permutation_in in Hx; [|apply isort_perm].
      eapply Permutation_in in Hy; [|apply isort_perm].
      apply in_rev in Hx, Hy. apply keyed_fst in Hx, Hy.
      unfold key_le, price_le. now rewrite Hx, Hy.
    + apply StronglySorted_rev. apply isort_sorted.
      eapply no_nan_perm; [apply Permutation_rev|].
      now apply keyed_no_nan.
  - apply StronglySorted_map with (R := @key_le A).
    + intros x y Hx Hy.
      eapply Permutation_in in Hx; [|apply isort_perm].
      eapply Permutation_in in Hy; [|apply isort_perm].
      apply keyed_fst in Hx, Hy.
      unfold key_le, price_le. now rewrite Hx, Hy.
    + apply isort_sorted. now apply keyed_no_nan.
Qed.
End SortedFacts.

(** ** Projections *)

Lemma keys_price_ok (d : dict) :
  Forall (fun pq => price_okb (fst pq) = true) d ->
  Forall (fun p => price_okb ((fun p => p) p) = true) (dict_keys d).
Proof.
  unfold dict_keys. intros F. apply Forall_map. exact F.
Qed.

Lemma lookup_all_ok (d : dict) prices :
  (forall p, In p prices -> In p (dict_keys d)) ->
  lookup_all d prices = Ok (items_of d prices).
Proof.
  induction prices as [|p r IH]; simpl; intros H; auto.
  unfold dict_getitem, dict_value.
  destruct (dict_get d p) eqn:E.
  - simpl. rewrite IH; auto.
  - apply dict_get_none in E. destruct E. auto.
Qed.

Lemma sorted_side_pure (d : dict) (s : side) :
  Forall (fun pq => price_okb (fst pq) = true) d ->
  sorted_side d s = Ok (pside d s).
Proof.
  intros F. unfold sorted_side, pside.
  rewrite (sorted_pure _ (is_bid s) (keys_price_ok F)). simpl.
  apply lookup_all_ok. intros p. apply psorted_in.
Qed.

Lemma book_to_levels_pure (bk : book) :
  Forall (fun pq => price_okb (fst pq) = true) (ask bk) ->
  Forall (fun pq => price_okb (fst pq) = true) (bid bk) ->
  book_to_levels bk =
  Ok (JDict [("asks", rows_json (pside (ask bk) AskSide));
             ("bids", rows_json (pside (bid bk) BidSide))]).
Proof.
  intros Fa Fb. unfold book_to_levels.
  now rewrite (sorted_side_pure AskSide Fa), (sorted_side_pure BidSide Fb).
Qed.

Lemma dict_keys_same (d1 d2 : dict) :
  (forall p, dict_get d1 p = dict_get d2 p) ->
  forall p, In p (dict_keys d1) <-> In p (dict_keys d2).
Proof.
  intros H p.
  pose proof (dict_get_none d1 p) as N1. pose proof (dict_get_none d2 p) as N2.
  rewrite H in N1.
  destruct (dict_get d2 p) eqn:E.
  - split; intros _.
    + apply dict_get_in in E. apply (in_map fst) in E. exact E.
    + rewrite <- H in E. apply dict_get_in in E.
      apply (in_map fst) in E. exact E.
  - split; intros I; exfalso.
    + apply (proj1 N1); auto.
    + apply (proj1 N2); auto.
Qed.

(** The sorted prices of a side whose distinct price texts have distinct
    values are strictly sorted. *)
Lemma psorted_keys_strict (d : dict) (reverse : bool) :
  dict_wf d -> Forall (fun pq => price_okb (fst pq) = true) d ->
  side_distinct d ->
  StronglySorted
    (fun x y : string => if reverse then price_lt y x else price_lt x y)
    (psorted (fun p => p) reverse (dict_keys d)).
Proof.
  intros W F D.
  pose proof (keys_price_ok F) as K.
  eapply StronglySorted_strict; [| |apply (psorted_sorted _ reverse K)].
  - intros x y Hx Hy L N.
    apply psorted_in in Hx, Hy.
    assert (Ox : price_okb x = true)
      by (rewrite Forall_forall in K; now apply K).
    assert (Oy : price_okb y = true)
      by (rewrite Forall_forall in K; now apply K).
    destruct (same_price_false _ _ Ox Oy (D _ _ Hx Hy N)) as [T|T];
      destruct reverse; auto; unfold price_le, price_lt in *; congruence.
  - eapply Permutation_NoDup; [symmetry; apply psorted_perm|]. exact W.
Qed.

(** Two sides with the same level at every price text have the same
    sorted view when distinct texts have distinct values. *)
Lemma pside_eq (d1 d2 : dict) (s : side) :
  dict_wf d1 -> dict_wf d2 ->
  Forall (fun pq => price_okb (fst pq) = true) d1 ->
  side_distinct d1 ->
  (forall p, dict_get d1 p = dict_get d2 p) ->
  pside d1 s = pside d2 s.
Proof.
  intros W1 W2 F1 D1 G.
  pose proof (dict_keys_same _ _ G) as KS.
  assert (F2 : Forall (fun pq => price_okb (fst pq) = true) d2).
  { apply Forall_forall. intros [p q] I. simpl.
    apply (in_map fst) in I. apply KS in I.
    apply in_map_iff in I. destruct I as ([p' q'] & E & I). simpl in E.
    subst p'. rewrite Forall_forall in F1. apply (F1 _ I). }
  assert (D2 : side_distinct d2).
  { intros p1 p2 I1 I2. apply KS in I1, I2. now apply D1. }
  unfold pside.
  assert (E : psorted (fun p => p) (is_bid s) (dict_keys d1)
              = psorted (fun p => p) (is_bid s) (dict_keys d2)).
  { apply strict_sorted_unique with
      (R := fun x y : string =>
              if is_bid s then price_lt y x else price_lt x y).
    - intros x. unfold price_lt. destruct (is_bid s);
        rewrite ltb_irrefl; discriminate.
    - intros x y z. unfold price_lt. destruct (is_bid s); intros;
        eapply ltb_trans; eauto.
    - now apply psorted_keys_strict.
    - now apply psorted_keys_strict.
    - intros x. rewrite !psorted_in. apply KS. }
  rewrite E. unfold items_of. apply map_ext. intros p.
  unfold dict_value. now rewrite G.
Qed.

(** ** Valid levels, events and items *)

Lemma parse_rows_json label out : forall i,
  Forall (fun pq => qty_okb (snd pq) = true) out ->
  Forall (fun pq => exists d, Dec.Decimal (fst pq) = Some d) out ->
  parse_rows label i (map row_json out) = Ok out.
Proof.
  induction out as [|[p q] r IH]; simpl; intros i Fq Fp; auto.
  inversion Fq as [|? ? Hq Hr]; subst. inversion Fp as [|? ? Hp Hr']; subst.
  simpl in *. destruct Hp as [dp Hp]. unfold row_json. simpl.
  unfold qty_okb in Hq. rewrite Hp.
  destruct (Dec.Decimal q) as [dq|]; try discriminate.
  destruct (Dec.is_nan dq); try discriminate.
  destruct (Dec.is_negative dq); try discriminate.
  simpl. now rewrite IH.
Qed.

(** The label only goes into the messages. *)
Lemma parse_levels_label levels l1 l2 out :
  parse_levels levels l1 = Ok out -> parse_levels levels l2 = Ok out.
Proof.
  destruct levels; simpl; try discriminate; auto.
  intros H. destruct (parse_rows_ok _ _ _ H) as (Fq & Fp & ->).
  now apply parse_rows_json.
Qed.

Lemma parse_levels_rows_json label out :
  Forall (fun pq => qty_okb (snd pq) = true) out ->
  Forall (fun pq => price_okb (fst pq) = true) out ->
  parse_levels (rows_json out) label = Ok out.
Proof.
  intros Fq Fp. simpl. apply parse_rows_json; auto.
  eapply Forall_impl; [|exact Fp]. intros [p q] H. simpl in *.
  destruct (price_okb_key _ H) as [E _]. eauto.
Qed.

Lemma valid_levels_parse levels label :
  valid_levels levels = true ->
  exists out, parse_levels levels label = Ok out /\
              Forall (fun pq => qty_okb (snd pq) = true) out /\
              Forall (fun pq => price_okb (fst pq) = true) out.
Proof.
  unfold valid_levels.
  destruct (parse_levels levels "") as [out|] eqn:E; try discriminate.
  intros F. exists out. split; [eapply parse_levels_label; eauto|].
  split; [apply (parse_levels_ok _ _ E)|].
  apply Forall_forall. rewrite forallb_forall in F. auto.
Qed.

(** The index only goes into the messages. *)
Lemma depth_event_index i j item ev :
  depth_event i item = Ok ev -> depth_event j item = Ok ev.
Proof.
  unfold depth_event. destruct item; try discriminate.
  destruct (get_default fields "data" (JDict fields)); try discriminate.
  destruct (negb (is_list (get_default fields0 "a" (JList [])))
            || negb (is_list (get_default fields0 "b" (JList []))));
    try discriminate; auto.
Qed.

Lemma valid_item_event i item :
  valid_item item = true ->
  exists ev, depth_event i item = Ok ev /\ valid_event ev = true.
Proof.
  unfold valid_item. destruct (depth_event 0 item) as [ev|] eqn:E;
    try discriminate.
  intros V. exists ev. split; auto. eapply depth_event_index; eauto.
Qed.

(** ** Invariants of a side under level changes *)

Lemma apply_levels_wf levels : forall d,
  dict_wf d -> dict_wf (fst (apply_levels d levels)).
Proof.
  induction levels as [|[p q] r IH]; simpl; intros d W; auto.
  destruct (qty_is_zero q) as [[|]|]; simpl; auto.
  - apply IH. now apply dict_wf_pop.
  - apply IH. now apply dict_wf_set.
Qed.

(** A property of the levels of a side that every change of a list
    establishes is kept by the loop. *)
Lemma apply_levels_Forall (P : string * string -> Prop) levels : forall d,
  Forall P d ->
  Forall (fun pq => qty_is_zero (snd pq) = Ok false -> P pq) levels ->
  Forall P (fst (apply_levels d levels)).
Proof.
  induction levels as [|[p q] r IH]; simpl; intros d F L; auto.
  inversion L as [|? ? Hpq Hr]; subst. simpl in Hpq.
  destruct (qty_is_zero q) as [[|]|] eqn:E; simpl; auto.
  - apply IH; auto. now apply Forall_dict_pop.
  - apply IH; auto.
    clear IH Hr L. induction d as [|[k0 v0] d' IHd]; simpl.
    + constructor; auto.
    + inversion F; subst.
      destruct (String.eqb_spec k0 p) as [->|]; constructor; auto.
Qed.

Lemma apply_levels_valid levels d :
  Forall (fun pq => qty_okb (snd pq) = true) levels ->
  Forall (fun pq => price_okb (fst pq) = true) levels ->
  side_valid d -> side_valid (fst (apply_levels d levels)).
Proof.
  intros Fq Fp [W P Q]. split.
  - now apply apply_levels_wf.
  - apply apply_levels_Forall; auto.
    eapply Forall_impl; [|exact Fp]. auto.
  - apply apply_levels_Forall; auto.
    eapply Forall_impl; [|exact Fq]. auto.
Qed.

Lemma apply_levels_positive levels d :
  Forall (fun pq => qty_okb (snd pq) = true) levels ->
  side_positive d -> side_positive (fst (apply_levels d levels)).
Proof.
  intros Fq P. apply apply_levels_Forall; auto.
  eapply Forall_impl; [|exact Fq]. intros [p q] H Z. simpl in *.
  unfold qty_posb. rewrite H. rewrite (qty_okb_is_zero _ H) in Z.
  injection Z as ->. reflexivity.
Qed.

(** The book that [apply_event] leaves, whatever its outcome: the bids
    parsed are applied to the bid side, then the asks parsed to the ask
    side. *)
Lemma apply_event_cases bk ev :
  (exists e, parse_levels (get_or_none ev "b") "bids" = Err e /\
             apply_event bk ev = (bk, Err e)) \/
  (exists bl e, parse_levels (get_or_none ev "b") "bids" = Ok bl /\
                parse_levels (get_or_none ev "a") "asks" = Err e /\
                apply_event bk ev
                = (Book (ask bk) (fst (apply_levels (bid bk) bl)), Err e)) \/
  (exists bl al, parse_levels (get_or_none ev "b") "bids" = Ok bl /\
                 parse_levels (get_or_none ev "a") "asks" = Ok al /\
                 apply_event bk ev
                 = (Book (fst (apply_levels (ask bk) al))
                         (fst (apply_levels (bid bk) bl)), Ok tt)).
Proof.
  unfold apply_event.
  destruct (parse_levels (get_or_none ev "b") "bids") as [bl|e] eqn:Eb.
  - right. rewrite (apply_levels_parsed _ _ (bid bk) Eb).
    destruct (parse_levels (get_or_none ev "a") "asks") as [al|e] eqn:Ea.
    + right. exists bl, al. rewrite (apply_levels_parsed _ _ (ask bk) Ea).
      auto.
    + left. exists bl, e. auto.
  - left. eauto.
Qed.

Lemma apply_event_ok bk ev bl al :
  parse_levels (get_or_none ev "b") "bids" = Ok bl ->
  parse_levels (get_or_none ev "a") "asks" = Ok al ->
  apply_event bk ev
  = (Book (fst (apply_levels (ask bk) al))
          (fst (apply_levels (bid bk) bl)), Ok tt).
Proof.
  intros Pb Pa. unfold apply_event. rewrite Pb, Pa.
  rewrite (apply_levels_parsed _ _ (bid bk) Pb).
  now rewrite (apply_levels_parsed _ _ (ask bk) Pa).
Qed.

Lemma apply_event_valid bk ev :
  valid_event ev = true -> book_valid bk ->
  exists bl al,
    parse_levels (get_or_none ev "b") "bids" = Ok bl /\
    parse_levels (get_or_none ev "a") "asks" = Ok al /\
    apply_event bk ev
    = (Book (fst (apply_levels (ask bk) al))
            (fst (apply_levels (bid bk) bl)), Ok tt) /\
    book_valid (fst (apply_event bk ev)).
Proof.
  unfold valid_event. intros V [Va Vb].
  apply andb_true_iff in V. destruct V as [Hb Ha].
  destruct (valid_levels_parse _ "bids" Hb) as (bl & Pb & Qb & Kb).
  destruct (valid_levels_parse _ "asks" Ha) as (al & Pa & Qa & Ka).
  exists bl, al. split; auto. split; auto.
  assert (E : apply_event bk ev
              = (Book (fst (apply_levels (ask bk) al))
                      (fst (apply_levels (bid bk) bl)), Ok tt)).
  { unfold apply_event. rewrite Pb, Pa.
    rewrite (apply_levels_parsed _ _ (bid bk) Pb).
    now rewrite (apply_levels_parsed _ _ (ask bk) Pa). }
  split; auto. rewrite E. simpl.
  split; simpl; now apply apply_levels_valid.
Qed.

Lemma set_all_Forall (P : string * string -> Prop) levels : forall d,
  Forall P d -> Forall P levels -> Forall P (set_all d levels).
Proof.
  unfold set_all.
  induction levels as [|[p q] r IH]; simpl; intros d F L; auto.
  inversion L; subst. apply IH; auto.
  clear IH. induction d as [|[k0 v0] d' IHd]; simpl.
  - constructor; auto.
  - inversion F; subst.
    destruct (String.eqb_spec k0 p) as [->|]; constructor; auto.
Qed.

Lemma set_all_wf levels : forall d, dict_wf d -> dict_wf (set_all d levels).
Proof.
  unfold set_all.
  induction levels as [|[p q] r IH]; simpl; intros d W; auto.
  apply IH. now apply dict_wf_set.
Qed.

Lemma set_all_get levels : forall d p,
  dict_get (set_all d levels) p =
  match last_update levels p with
  | Some q => Some q
  | None => dict_get d p
  end.
Proof.
  unfold set_all.
  induction levels as [|[p0 q0] r IH]; simpl; intros d p; auto.
  rewrite IH. destruct (last_update r p); auto.
  destruct (String.eqb_spec p0 p) as [->|N].
  - apply dict_get_set_eq.
  - now apply dict_get_set_ne.
Qed.

(** ** The claims about the book *)

(** C3, as stated, fails for [book_from_snapshot]: a level of the
    snapshot whose quantity is zero is stored as it is. *)
Lemma snapshot_zero_quantity_counterexample :
  ~ (forall snap bk, book_from_snapshot snap = Ok bk -> book_positive bk).
Proof.
  intros H.
  destruct (H [("asks", rows_json [("1", "0")])] (Book [("1", "0")] [])
              eq_refl) as [Ha _].
  inversion Ha as [|? ? Hq _]; subst. vm_compute in Hq. discriminate.
Qed.

(** C3 (amended). The empty book has no level. A book made from a
    snapshot holds no negative quantity, and no quantity that is zero
    when no level of the snapshot has a zero quantity; a zero-quantity
    level of the snapshot is stored as it is. A book without a zero
    quantity is left without one by every call of [apply_event], failed
    or not, and after a successful call a price text whose last change
    in the event has quantity zero is absent from its side. *)
Theorem book_quantities_positive :
  book_positive new_empty_book /\
  (forall snap bk,
     book_from_snapshot snap = Ok bk ->
     Forall (fun pq => qty_okb (snd pq) = true) (ask bk ++ bid bk) /\
     (forall asks bids,
        parse_levels (get_default snap "asks" (JList [])) "asks" = Ok asks ->
        parse_levels (get_default snap "bids" (JList [])) "bids" = Ok bids ->
        Forall (fun pq => qty_zerob (snd pq) = false) (asks ++ bids) ->
        book_positive bk)) /\
  (forall bk ev,
     book_positive bk -> book_positive (fst (apply_event bk ev))) /\
  (forall bk ev bk' bl al,
     apply_event bk ev = (bk', Ok tt) ->
     parse_levels (get_or_none ev "b") "bids" = Ok bl ->
     parse_levels (get_or_none ev "a") "asks" = Ok al ->
     forall p q,
       qty_zerob q = true ->
       (last_update bl p = Some q -> dict_get (bid bk') p = None) /\
       (last_update al p = Some q -> dict_get (ask bk') p = None)).
Proof.
  split; [split; constructor|].
  split; [|split].
  - intros snap bk H. unfold book_from_snapshot in H.
    destruct (parse_levels (get_default snap "asks" (JList [])) "asks")
      as [asks|] eqn:Ea; try discriminate.
    destruct (parse_levels (get_default snap "bids" (JList [])) "bids")
      as [bids|] eqn:Eb; try discriminate.
    simpl in H. injection H as <-. simpl.
    destruct (parse_levels_ok _ _ Ea) as [Qa _].
    destruct (parse_levels_ok _ _ Eb) as [Qb _].
    split.
    + apply Forall_app. split; apply set_all_Forall; auto.
    + intros asks' bids' E1 E2 Z. injection E1 as <-. injection E2 as <-.
      apply Forall_app in Z. destruct Z as [Za Zb].
      assert (P : forall l,
                 Forall (fun pq => qty_okb (snd pq) = true) l ->
                 Forall (fun pq => qty_zerob (snd pq) = false) l ->
                 Forall (fun pq : string * string =>
                           qty_posb (snd pq) = true) l).
      { intros l F1 F2. rewrite Forall_forall in *. intros x Hx.
        unfold qty_posb. now rewrite (F1 _ Hx), (F2 _ Hx). }
      split; apply set_all_Forall; try constructor; auto.
  - intros bk ev [Pa Pb].
    destruct (apply_event_cases bk ev)
      as [(e & _ & ->)|[(bl & e & Eb & _ & ->)|(bl & al & Eb & Ea & ->)]];
      simpl.
    + split; auto.
    + split; simpl; auto. apply apply_levels_positive; auto.
      apply (parse_levels_ok _ _ Eb).
    + split; simpl; apply apply_levels_positive; auto.
      * apply (parse_levels_ok _ _ Ea).
      * apply (parse_levels_ok _ _ Eb).
  - intros bk ev bk' bl al E Eb Ea p q Z.
    destruct (apply_event_cases bk ev)
      as [(e & _ & E')|[(bl' & e & _ & _ & E')|(bl' & al' & Eb' & Ea' & E')]];
      rewrite E' in E; try discriminate.
    injection E as <-. rewrite Eb in Eb'. rewrite Ea in Ea'.
    injection Eb' as <-. injection Ea' as <-. simpl.
    destruct (parse_levels_ok _ _ Eb) as [Qb _].
    destruct (parse_levels_ok _ _ Ea) as [Qa _].
    split; intros L.
    + rewrite (proj2 (apply_levels_ok (bid bk) Qb)).
      unfold level_after. now rewrite L, Z.
    + rewrite (proj2 (apply_levels_ok (ask bk) Qa)).
      unfold level_after. now rewrite L, Z.
Qed.

(** C2, as stated, fails: a zero-quantity update at ["0.000001"] does not
    remove the level stored under ["0.00000100"], a text of the same
    decimal value. *)
Lemma price_text_identity_counterexample :
  ~ (forall bk p1 p2 z,
       dict_mem (bid bk) p1 = true -> same_price p1 p2 = true ->
       qty_okb z = true -> qty_zerob z = true ->
       dict_mem (bid (fst (apply_event bk [("b", rows_json [(p2, z)])]))) p1
       = false).
Proof.
  intros H.
  specialize (H (Book [] [("0.00000100", "1")]) "0.00000100" "0.000001" "0"
                eq_refl eq_refl eq_refl eq_refl).
  vm_compute in H. discriminate.
Qed.

Lemma sorted_side_display_order (d : dict) (s : side) :
  Forall (fun pq => price_okb (fst pq) = true) d ->
  exists out, sorted_side d s = Ok out /\
              StronglySorted (display_order s) out /\
              map fst out = psorted (fun p => p) (is_bid s) (dict_keys d).
Proof.
  intros F. exists (pside d s). split; [now apply sorted_side_pure|].
  unfold pside, items_of. split.
  - pose proof (psorted_sorted _ (is_bid s) (keys_price_ok F)) as S.
    eapply StronglySorted_map; [|exact S].
    unfold display_order. simpl. auto.
  - rewrite map_map. simpl. apply map_id.
Qed.

(** C2 (amended). A level is identified by its price text, not by the
    decimal value of the text: a change at a price text removes (zero
    quantity) or replaces (other quantity) the level stored under the
    same text and leaves the level under every other text as it is, a
    text of equal decimal value included, so that a non-zero change at a
    new text of a value already present makes a second level. Only the
    order of a projection follows the decimal value of the prices. *)
Theorem levels_keyed_by_price_text (bk : book) (s : side) (p q : string) :
  fails_parsing (JStr p) = false -> qty_okb q = true ->
  let r := apply_event bk [(side_key s, rows_json [(p, q)])] in
  snd r = Ok tt /\
  dict_get (side_of (fst r) s) p = (if qty_zerob q then None else Some q) /\
  (forall p', p' <> p ->
     dict_get (side_of (fst r) s) p' = dict_get (side_of bk s) p') /\
  side_of (fst r) (other_side s) = side_of bk (other_side s) /\
  (dict_wf (side_of bk s) -> dict_wf (side_of (fst r) s)) /\
  (forall d, Forall (fun pq => price_okb (fst pq) = true) d ->
     exists out, sorted_side d s = Ok out /\
                 StronglySorted (display_order s) out).
Proof.
  intros Hp Hq r.
  assert (P : forall label, parse_levels (rows_json [(p, q)]) label
                            = Ok [(p, q)]).
  { intros label. simpl. unfold row_json. simpl. simpl in Hp.
    unfold qty_okb in Hq.
    destruct (Dec.Decimal p); try discriminate.
    destruct (Dec.Decimal q) as [dq|]; try discriminate.
    destruct (Dec.is_nan dq); try discriminate.
    destruct (Dec.is_negative dq); try discriminate. reflexivity. }
  assert (L : forall d,
             apply_levels d [(p, q)]
             = ((if qty_zerob q then dict_pop d p else dict_set d p q),
                Ok tt)).
  { intros d. simpl. rewrite (qty_okb_is_zero _ Hq).
    destruct (qty_zerob q); reflexivity. }
  assert (R : r = match s with
                  | BidSide =>
                      (Book (ask bk)
                            (if qty_zerob q then dict_pop (bid bk) p
                             else dict_set (bid bk) p q), Ok tt)
                  | AskSide =>
                      (Book (if qty_zerob q then dict_pop (ask bk) p
                             else dict_set (ask bk) p q) (bid bk), Ok tt)
                  end).
  { unfold r. destruct s.
    - rewrite (apply_event_ok bk [(side_key AskSide, rows_json [(p, q)])]
                 (bl := []) (al := [(p, q)])); auto.
      now rewrite L.
    - rewrite (apply_event_ok bk [(side_key BidSide, rows_json [(p, q)])]
                 (bl := [(p, q)]) (al := [])); auto.
      now rewrite L. }
  rewrite R. clear R r.
  split; [destruct s; reflexivity|].
  split; [|split; [|split; [|split]]].
  - destruct s; simpl; destruct (qty_zerob q);
      auto using dict_get_pop_eq, dict_get_set_eq.
  - intros p' N. destruct s; simpl; destruct (qty_zerob q);
      auto using dict_get_pop_ne, dict_get_set_ne.
  - destruct s; reflexivity.
  - destruct s; simpl; destruct (qty_zerob q);
      auto using dict_wf_pop, dict_wf_set.
  - intros d F. destruct (sorted_side_display_order s F) as (out & E & S & _).
    eauto.
Qed.

(** ** The sampling loop *)

Lemma div_succ (K n : Z) :
  1 <= K -> 0 <= n ->
  (n + 1) / K = n / K + (if (n + 1) mod K =? 0 then 1 else 0).
Proof.
  intros HK Hn.
  pose proof (Z.div_mod n K ltac:(lia)) as D1.
  pose proof (Z.mod_pos_bound n K ltac:(lia)) as B1.
  pose proof (Z.div_mod (n + 1) K ltac:(lia)) as D2.
  pose proof (Z.mod_pos_bound (n + 1) K ltac:(lia)) as B2.
  destruct ((n + 1) mod K =? 0) eqn:E.
  - apply Z.eqb_eq in E. nia.
  - apply Z.eqb_neq in E. nia.
Qed.

Lemma book_valid_projection bk :
  book_valid bk ->
  book_to_levels bk =
  Ok (JDict [("asks", rows_json (pside (ask bk) AskSide));
             ("bids", rows_json (pside (bid bk) BidSide))]).
Proof.
  intros [[_ Pa _] [_ Pb _]]. now apply book_to_levels_pure.
Qed.

Lemma apply_all_valid items : forall i bk,
  Forall (fun item => valid_item item = true) items -> book_valid bk ->
  exists bk', apply_all i items bk = (bk', Ok tt) /\ book_valid bk'.
Proof.
  induction items as [|item rest IH]; simpl; intros i bk F V.
  - eauto.
  - inversion F as [|? ? Hi Hr]; subst.
    destruct (valid_item_event i _ Hi) as (ev & -> & Hev).
    destruct (@apply_event_valid bk ev Hev V) as (bl & al & _ & _ & E & V').
    rewrite E in V' |- *. simpl in V'. now apply IH.
Qed.

Lemma store_loop_valid (k : Z) items : forall i n bk sts,
  0 <= n ->
  Forall (fun item => valid_item item = true) items -> book_valid bk ->
  exists bk' sts',
    store_loop k i n items bk sts = (bk', Ok sts') /\ book_valid bk' /\
    Z.of_nat (length sts') =
    Z.of_nat (length sts)
    + (n + Z.of_nat (length items)) / Z.max 1 k - n / Z.max 1 k.
Proof.
  induction items as [|item rest IH]; intros i n bk sts Hn F V.
  - exists bk, sts. cbn [store_loop length]. rewrite Z.add_0_r.
    split; [reflexivity|]. split; [assumption|].
    generalize (n / Z.max 1 k). intros; lia.
  - inversion F as [|? ? Hi Hr]; subst.
    cbn [store_loop].
    destruct (valid_item_event i _ Hi) as (ev & -> & Hev).
    destruct (@apply_event_valid bk ev Hev V) as (bl & al & _ & _ & E & V').
    rewrite E in V' |- *. cbn [fst] in V'.
    pose proof (@div_succ (Z.max 1 k) n ltac:(lia) Hn) as DS.
    replace (n + Z.of_nat (length (item :: rest)))
      with ((n + 1) + Z.of_nat (length rest))
      by (cbn [length]; lia).
    destruct ((n + 1) mod Z.max 1 k =? 0).
    + rewrite (book_valid_projection V').
      edestruct (IH (S i) (n + 1)) as (bk' & sts' & -> & V'' & L);
        [lia|exact Hr|exact V'|].
      exists bk', sts'. split; [reflexivity|]. split; [assumption|].
      rewrite L, length_app. cbn [length]. lia.
    + edestruct (IH (S i) (n + 1)) as (bk' & sts' & -> & V'' & L);
        [lia|exact Hr|exact V'|].
      exists bk', sts'. split; [reflexivity|]. split; [assumption|].
      rewrite L. lia.
Qed.

Lemma filter_map_comm (A B : Type) (f : B -> bool) (g : A -> B) (l : list A) :
  filter f (map g l) = map g (filter (fun x => f (g x)) l).
Proof.
  induction l as [|x xs IH]; simpl; auto.
  destruct (f (g x)); simpl; now rewrite IH.
Qed.

Lemma apply_all_index items : forall i j bk,
  snd (apply_all i items bk) = Ok tt ->
  apply_all j items bk = apply_all i items bk.
Proof.
  induction items as [|item rest IH]; simpl; intros i j bk H; auto.
  destruct (depth_event i item) as [ev|] eqn:E; try discriminate.
  rewrite (@depth_event_index i j item ev E).
  destruct (apply_event bk ev) as [bk' [[]|e]]; try discriminate; auto.
Qed.

(** The states stored by the loop are the projections of the book after
    each count of events that the stride divides. *)
Lemma store_loop_content (k : Z) items : forall i n bk sts,
  Forall (fun item => valid_item item = true) items -> book_valid bk ->
  exists bk' new,
    store_loop k i n items bk sts = (bk', Ok (sts ++ new)) /\
    map Ok new =
    map (fun m => book_to_levels (fst (apply_all i (firstn m items) bk)))
        (filter (fun m => (n + Z.of_nat m) mod Z.max 1 k =? 0)
                (seq 1 (length items))).
Proof.
  induction items as [|item rest IH]; intros i n bk sts F V.
  - exists bk, []. simpl. now rewrite app_nil_r.
  - inversion F as [|? ? Hi Hr]; subst.
    cbn [store_loop].
    destruct (valid_item_event i _ Hi) as (ev & Ed & Hev).
    destruct (@apply_event_valid bk ev Hev V) as (bl & al & _ & _ & E & V').
    rewrite Ed, E. rewrite E in V'. cbn [fst] in V'.
    set (bk1 := Book (fst (apply_levels (ask bk) al))
                     (fst (apply_levels (bid bk) bl))) in *.
    assert (Shift :
      map (fun m => book_to_levels
                      (fst (apply_all i (firstn m (item :: rest)) bk)))
          (filter (fun m => (n + Z.of_nat m) mod Z.max 1 k =? 0)
                  (seq 2 (length rest)))
      = map (fun m => book_to_levels
                        (fst (apply_all (S i) (firstn m rest) bk1)))
            (filter (fun m => (n + 1 + Z.of_nat m) mod Z.max 1 k =? 0)
                    (seq 1 (length rest)))).
    { rewrite <- seq_shift, filter_map_comm, map_map.
      erewrite filter_ext; [apply map_ext|].
      - intros m. cbn [firstn apply_all]. now rewrite Ed, E.
      - intros m. simpl. do 2 f_equal. lia. }
    cbn [length seq filter].
    replace (n + Z.of_nat 1) with (n + 1) by lia.
    destruct ((n + 1) mod Z.max 1 k =? 0).
    + rewrite (book_valid_projection V').
      destruct (IH (S i) (n + 1) bk1
                   (sts ++ [JDict [("asks", rows_json (pside (ask bk1) AskSide));
                                   ("bids", rows_json (pside (bid bk1) BidSide))]])
                   Hr V') as (bk' & new & -> & C).
      exists bk', (JDict [("asks", rows_json (pside (ask bk1) AskSide));
                         ("bids", rows_json (pside (bid bk1) BidSide))] :: new).
      split; [now rewrite <- app_assoc|].
      cbn [map]. rewrite Shift, <- C. f_equal.
      cbn [firstn apply_all]. rewrite Ed, E. cbn [fst].
      symmetry. apply (book_valid_projection V').
    + destruct (IH (S i) (n + 1) bk1 sts Hr V') as (bk' & new & -> & C).
      exists bk', new. split; auto. now rewrite Shift.
Qed.

Lemma store_loop_stride (k k' : Z) items : forall i n bk sts,
  Z.max 1 k = Z.max 1 k' ->
  store_loop k i n items bk sts = store_loop k' i n items bk sts.
Proof.
  induction items as [|item rest IH]; intros i n bk sts M; auto.
  cbn [store_loop]. rewrite M.
  destruct (depth_event i item) as [ev|]; auto.
  destruct (apply_event bk ev) as [bk' [[]|e]]; auto.
  destruct ((n + 1) mod Z.max 1 k' =? 0); auto.
  destruct (book_to_levels bk'); auto.
Qed.

Lemma book_eta (bk : book) : Book (ask bk) (bid bk) = bk.
Proof. now destruct bk. Qed.

(** C6, as stated for every initial book, fails: a book loaded from a
    snapshot can hold a price text that is a NaN, which the codec
    accepts, next to another level of the same side. Such a book cannot
    be sorted, and a final-only run over no event at all raises
    [decimal.InvalidOperation] instead of storing the projection of the
    initial book. *)
Lemma sampler_nan_price_counterexample :
  ~ (forall snap initial_book,
       book_from_snapshot snap = Ok initial_book ->
       exists st,
         run initial_book (JList []) true 1 = (initial_book, Ok [st]) /\
         book_to_levels initial_book = Ok st).
Proof.
  intros H.
  destruct (H [("asks", rows_json [("NaN", "1"); ("1", "1")])]
              (Book [("NaN", "1"); ("1", "1")] []) eq_refl)
    as (st & _ & P).
  vm_compute in P. discriminate P.
Qed.

(** C6 (amended). Over [N] valid events without a NaN price, on an
    initial book whose levels went through the codec and whose prices
    are not NaN, a run with a
    stride stores [floor(N / max(1, stride))] projections, those of the
    book after each number of events that the stride divides: [N]
    projections for a stride of 1, and a stride that is zero or negative
    runs as a stride of 1. A final-only run stores one projection, that
    of the book after the last event, which for no event at all is the
    projection of the initial book. *)
Theorem sampler_capture_counts (initial_book : book) (items : list json)
  (store_every : Z) :
  book_valid initial_book ->
  Forall (fun item => valid_item item = true) items ->
  (exists bk sts,
     run initial_book (JList items) false store_every = (bk, Ok sts) /\
     Z.of_nat (length sts)
     = Z.of_nat (length items) / Z.max 1 store_every /\
     map Ok sts
     = map (fun m => book_to_levels (book_after initial_book items m))
           (capture_points (Z.max 1 store_every) (length items)) /\
     (1 <= store_every ->
      Z.of_nat (length sts) = Z.of_nat (length items) / store_every) /\
     (store_every <= 1 -> length sts = length items)) /\
  (store_every <= 0 ->
   run initial_book (JList items) false store_every
   = run initial_book (JList items) false 1) /\
  (exists st,
     run initial_book (JList items) true store_every
     = (book_after initial_book items (length items), Ok [st]) /\
     book_to_levels (book_after initial_book items (length items)) = Ok st) /\
  (items = [] ->
   exists st,
     run initial_book (JList items) true store_every
     = (initial_book, Ok [st]) /\
     book_to_levels initial_book = Ok st).
Proof.
  intros V F. unfold run. rewrite book_eta.
  split; [|split; [|split]].
  - destruct (@store_loop_valid store_every items 0%nat 0 initial_book []
                ltac:(lia) F V) as (bk & sts & E & _ & L).
    destruct (@store_loop_content store_every items 0%nat 0 initial_book []
                F V) as (bk' & new & E' & C).
    rewrite E in E'. injection E' as <- ->.
    exists bk, new. split; auto. cbn [length] in L.
    rewrite Z.add_0_l, Zdiv_0_l in L.
    assert (L' : Z.of_nat (length new)
                 = Z.of_nat (length items) / Z.max 1 store_every).
    { rewrite L. now rewrite Z.sub_0_r, Z.add_0_l. }
    split; [exact L'|]. split; [|split].
    + rewrite C. unfold capture_points, book_after. reflexivity.
    + intros K1. now replace (Z.max 1 store_every) with store_every in L'
        by lia.
    + intros K1. replace (Z.max 1 store_every) with 1 in L' by lia.
      rewrite Z.div_1_r in L'. lia.
  - intros K0. apply store_loop_stride. lia.
  - destruct (@apply_all_valid items 0%nat initial_book F V)
      as (bk & E & V').
    unfold book_after. rewrite firstn_all, E. cbn [fst].
    rewrite (book_valid_projection V'). eauto.
  - intros ->. cbn [apply_all].
    rewrite (book_valid_projection V). eauto.
Qed.

(** ** The shape of the update payload *)

Lemma apply_all_fail pre : forall i item post bk bk' e,
  apply_all i pre bk = (bk', Ok tt) ->
  depth_event (i + length pre) item = Err e ->
  apply_all i (pre ++ item :: post) bk = (bk', Err e).
Proof.
  induction pre as [|x xs IH]; simpl; intros i item post bk bk' e H D.
  - injection H as <-. rewrite Nat.add_0_r in D. now rewrite D.
  - destruct (depth_event i x) as [ev|]; try (now inversion H).
    destruct (apply_event bk ev) as [bk1 [[]|e1]]; try (now inversion H).
    apply IH; auto. now replace (S i + length xs)%nat
      with (i + S (length xs))%nat by lia.
Qed.

Lemma store_loop_fail (k : Z) pre : forall i n item post bk sts bk' sts' e,
  store_loop k i n pre bk sts = (bk', Ok sts') ->
  depth_event (i + length pre) item = Err e ->
  store_loop k i n (pre ++ item :: post) bk sts = (bk', Err e).
Proof.
  induction pre as [|x xs IH]; intros i n item post bk sts bk' sts' e H D.
  - simpl in H. injection H as <- <-. simpl.
    rewrite Nat.add_0_r in D. now rewrite D.
  - cbn [store_loop app] in *.
    destruct (depth_event i x) as [ev|]; try (now inversion H).
    destruct (apply_event bk ev) as [bk1 [[]|e1]]; try (now inversion H).
    assert (D' : depth_event (S i + length xs) item = Err e)
      by (now replace (S i + length xs)%nat
            with (i + S (length xs))%nat by lia).
    destruct ((n + 1) mod Z.max 1 k =? 0).
    + destruct (book_to_levels bk1); try (now inversion H).
      eapply IH; eauto.
    + eapply IH; eauto.
Qed.

Lemma depth_event_malformed i item :
  is_ok (depth_event i item) = false <-> malformed_update item.
Proof.
  unfold depth_event, malformed_update, selected_payload, get_default,
    present_not_list.
  destruct item as [| | | | | |o]; simpl; try tauto.
  destruct (dict_get o "data") as [[| | | | | |payload]|]; simpl; try tauto.
  - destruct (dict_get payload "a") as [a|], (dict_get payload "b") as [b|];
      simpl; try destruct (is_list a); try destruct (is_list b); simpl;
      intuition discriminate.
  - destruct (dict_get o "a") as [a|], (dict_get o "b") as [b|];
      simpl; try destruct (is_list a); try destruct (is_list b); simpl;
      intuition discriminate.
Qed.

Lemma depth_event_error i item e :
  depth_event i item = Err e ->
  exists m, e = ValueError m /\ message_index m = Some i.
Proof.
  unfold depth_event.
  destruct item as [| | | | | |o];
    try (intros H; injection H as <-; eexists; split; reflexivity).
  destruct (get_default o "data" (JDict o)) as [| | | | | |payload];
    try (intros H; injection H as <-; eexists; split; reflexivity).
  destruct (negb (is_list (get_default payload "a" (JList [])))
            || negb (is_list (get_default payload "b" (JList []))));
    try discriminate.
  intros H; injection H as <-; eexists; split; reflexivity.
Qed.

(** C8, as stated, would have an update without the [a] and [b] keys
    rejected. It is accepted as an update that changes nothing. *)
Lemma missing_keys_counterexample :
  ~ (forall i o,
       dict_get o "a" = None \/ dict_get o "b" = None ->
       is_ok (depth_event i (JDict o)) = false).
Proof.
  intros H. specialize (H 0%nat [] (or_introl eq_refl)). discriminate H.
Qed.

(** C8 (amended). The changes of an item of the update stream are read
    from the object under its [data] key when it has one and from the
    item itself otherwise, and both shapes give the same event. A key [a]
    or [b] that is missing stands for an empty list. An item is rejected,
    with a [ValueError] naming its index, exactly when it is not an
    object, the object selected is not an object, or a key [a] or [b]
    that is present does not hold a list. Such an error ends the run:
    [main] raises it and hands out no state and no revert event. *)
Theorem update_payload_shape :
  (forall i o payload,
     dict_get o "data" = Some (JDict payload) ->
     dict_get payload "data" = None ->
     depth_event i (JDict o) = depth_event i (JDict payload)) /\
  (forall i o payload ev,
     selected_payload o = JDict payload ->
     depth_event i (JDict o) = Ok ev ->
     ev = [("a", get_default payload "a" (JList []));
           ("b", get_default payload "b" (JList []))]) /\
  (forall i o,
     dict_get o "data" = None -> dict_get o "a" = None ->
     dict_get o "b" = None ->
     depth_event i (JDict o) = Ok [("a", JList []); ("b", JList [])]) /\
  (forall i item,
     (is_ok (depth_event i item) = false <-> malformed_update item) /\
     (forall e, depth_event i item = Err e ->
                exists m, e = ValueError m /\ message_index m = Some i)) /\
  (forall snapshot ib pre item post final_only store_every want_revert e,
     initial_book_of snapshot = Ok ib ->
     is_ok (snd (run ib (JList pre) final_only store_every)) = true ->
     depth_event (length pre) item = Err e ->
     main snapshot (JList (pre ++ item :: post)) final_only store_every
          want_revert = Err e).
Proof.
  split; [|split; [|split; [|split]]].
  - intros i o payload Hd Hn. unfold depth_event, get_default.
    now rewrite Hd, Hn.
  - intros i o payload ev Hs. unfold depth_event, get_default.
    unfold selected_payload in Hs. rewrite Hs.
    fold (get_default payload "a" (JList [])).
    fold (get_default payload "b" (JList [])).
    destruct (negb (is_list (get_default payload "a" (JList [])))
              || negb (is_list (get_default payload "b" (JList []))));
      try discriminate.
    intros H; now injection H as <-.
  - intros i o Hd Ha Hb. unfold depth_event, get_default.
    now rewrite Hd, Ha, Hb.
  - intros i item. split; [apply depth_event_malformed|].
    intros e. apply depth_event_error.
  - intros snapshot ib pre item post final_only store_every want_revert e
      Hib Hrun Hd.
    unfold main. rewrite Hib. cbn [bind].
    unfold run in *. rewrite book_eta in *.
    destruct final_only.
    + destruct (apply_all 0 pre ib) as [bk [[]|e0]] eqn:E;
        try discriminate Hrun.
      now rewrite (@apply_all_fail pre 0%nat item post ib bk e E Hd).
    + destruct (store_loop store_every 0 0 pre ib []) as [bk [sts|e0]] eqn:E;
        try discriminate Hrun.
      now rewrite (@store_loop_fail store_every pre 0%nat 0 item post ib []
                     bk sts e E Hd).
Qed.

(** ** The store *)

Lemma write_length h : forall l o, length (write h l o) = length h.
Proof.
  induction h as [|x r IH]; intros [|l] o; simpl; auto.
Qed.

Lemma nth_error_write_eq h : forall l o,
  (l < length h)%nat -> nth_error (write h l o) l = Some o.
Proof.
  induction h as [|x r IH]; intros [|l] o; simpl; intros L; try lia; auto.
  apply IH. lia.
Qed.

Lemma nth_error_write_ne h : forall l l' o,
  l <> l' -> nth_error (write h l o) l' = nth_error h l'.
Proof.
  induction h as [|x r IH]; intros [|l] [|l'] o N; simpl; auto;
    try congruence.
Qed.

Lemma nth_error_alloc_old (h : heap) o l :
  (l < length h)%nat -> nth_error (h ++ [o]) l = nth_error h l.
Proof. intros L. now apply nth_error_app1. Qed.

Lemma nth_error_alloc_new (h : heap) o :
  nth_error (h ++ [o]) (length h) = Some o.
Proof.
  rewrite nth_error_app2 by lia. now rewrite Nat.sub_diag.
Qed.

Lemma read_dict_write_eq h l d :
  (l < length h)%nat -> read_dict (write h l (ODict d)) l = d.
Proof. intros L. unfold read_dict. now rewrite nth_error_write_eq. Qed.

Lemma read_dict_write_ne h l l' o :
  l <> l' -> read_dict (write h l o) l' = read_dict h l'.
Proof. intros N. unfold read_dict. now rewrite nth_error_write_ne. Qed.

(** [h_apply_event] is [apply_event] on the book at the reference, and it
    touches no other object. *)
Lemma h_apply_event_refines h b ev :
  book_in h b ->
  book_at (fst (h_apply_event h b ev)) b = fst (apply_event (book_at h b) ev)
  /\ snd (h_apply_event h b ev) = snd (apply_event (book_at h b) ev)
  /\ length (fst (h_apply_event h b ev)) = length h
  /\ forall l, apart b l ->
       nth_error (fst (h_apply_event h b ev)) l = nth_error h l.
Proof.
  intros (La & Lb & N). unfold h_apply_event, apply_event, book_at, apart.
  cbn [ask bid].
  destruct (parse_levels (get_or_none ev "b") "bids") as [bl|e]; cbn [fst snd].
  2:{ repeat split; auto. }
  destruct (apply_levels (read_dict h (bid_ref b)) bl) as [bid' r] eqn:Eb.
  assert (Ra : read_dict (write h (bid_ref b) (ODict bid')) (ask_ref b)
               = read_dict h (ask_ref b))
    by (apply read_dict_write_ne; congruence).
  assert (Rb : read_dict (write h (bid_ref b) (ODict bid')) (bid_ref b) = bid')
    by (now apply read_dict_write_eq).
  destruct r as [[]|e]; cbn [fst snd].
  2:{ rewrite Ra, Rb, write_length. repeat split; auto.
      intros l [_ Hl]. apply nth_error_write_ne. congruence. }
  destruct (parse_levels (get_or_none ev "a") "asks") as [al|e];
    cbn [fst snd].
  2:{ rewrite Ra, Rb, write_length. repeat split; auto.
      intros l [_ Hl]. apply nth_error_write_ne. congruence. }
  rewrite Ra.
  destruct (apply_levels (read_dict h (ask_ref b)) al) as [ask' r'] eqn:Ea.
  cbn [fst snd]. rewrite !write_length.
  rewrite read_dict_write_eq by (now rewrite write_length).
  rewrite read_dict_write_ne by congruence. rewrite Rb.
  repeat split; auto.
  intros l [Hl1 Hl2]. rewrite !nth_error_write_ne by congruence. auto.
Qed.

Lemma book_at_frame h h' b :
  book_in h b ->
  (forall l, (l < length h)%nat -> nth_error h' l = nth_error h l) ->
  book_at h' b = book_at h b.
Proof.
  intros (La & Lb & _) F. unfold book_at, read_dict.
  now rewrite (F _ La), (F _ Lb).
Qed.

Lemma stored_in_range h l v : stored h l v -> (l < length h)%nat.
Proof.
  unfold stored. intros H. apply nth_error_Some. congruence.
Qed.

Lemma Forall2_stored_frame h h' b locs sts :
  Forall2 (stored h) locs sts -> Forall (apart b) locs ->
  (forall l, (l < length h)%nat -> apart b l ->
             nth_error h' l = nth_error h l) ->
  Forall2 (stored h') locs sts.
Proof.
  intros S A F. induction S as [|l v ls vs Hl Hr IH]; constructor.
  - inversion A; subst. unfold stored in *. rewrite F; auto.
    now apply stored_in_range with v.
  - inversion A; subst. auto.
Qed.

(** The loop on the store stores what the loop on book values stores, at
    locations that did not exist before; it changes the two sides of the
    working book and nothing else. *)
Lemma h_store_loop_refines (k : Z) items : forall i n h b locs sts h' r,
  book_in h b -> Forall2 (stored h) locs sts -> Forall (apart b) locs ->
  h_store_loop k i n items h b locs = (h', r) ->
  book_at h' b = fst (store_loop k i n items (book_at h b) sts) /\
  (length h <= length h')%nat /\
  (forall l, (l < length h)%nat -> apart b l ->
             nth_error h' l = nth_error h l) /\
  match r with
  | Ok locs' =>
      exists sts' new,
        snd (store_loop k i n items (book_at h b) sts) = Ok sts' /\
        Forall2 (stored h') locs' sts' /\ locs' = locs ++ new /\
        Forall (fun l => (length h <= l)%nat) new /\ NoDup new
  | Err e => snd (store_loop k i n items (book_at h b) sts) = Err e
  end.
Proof.
  induction items as [|item rest IH]; intros i n h b locs sts h' r B HS A H.
  - simpl in H. injection H as <- <-. simpl.
    repeat split; auto.
    exists sts, []. rewrite app_nil_r. repeat split; auto; constructor.
  - cbn [h_store_loop store_loop] in *.
    destruct (depth_event i item) as [ev|e].
    2:{ injection H as <- <-. simpl. auto. }
    destruct (@h_apply_event_refines h b ev B) as (R1 & R2 & R3 & R4).
    destruct (h_apply_event h b ev) as [h1 r1]. cbn [fst snd] in *.
    destruct (apply_event (book_at h b) ev) as [bk1 rr]. cbn [fst snd] in *.
    subst r1.
    assert (B1 : book_in h1 b)
      by (unfold book_in in *; rewrite R3; exact B).
    assert (F1 : forall l, (l < length h)%nat -> apart b l ->
                           nth_error h1 l = nth_error h l) by auto.
    destruct rr as [[]|e].
    2:{ injection H as <- <-. simpl. repeat split; auto. lia. }
    pose proof (@Forall2_stored_frame h h1 b locs sts HS A F1) as S1.
    destruct ((n + 1) mod Z.max 1 k =? 0).
    + unfold h_book_to_levels in H. rewrite R1 in H.
      destruct (book_to_levels bk1) as [v|e].
      2:{ injection H as <- <-. simpl. repeat split; auto. lia. }
      cbn [alloc] in H.
      assert (B2 : book_in (h1 ++ [OValue v]) b).
      { unfold book_in in *. rewrite length_app. simpl. lia. }
      assert (E2 : book_at (h1 ++ [OValue v]) b = bk1).
      { rewrite <- R1. apply book_at_frame; auto.
        intros l L. now apply nth_error_alloc_old. }
      assert (A2 : Forall (apart b) (locs ++ [length h1])).
      { apply Forall_app. split; auto. constructor; auto.
        unfold apart, book_in in *. lia. }
      assert (S2 : Forall2 (stored (h1 ++ [OValue v]))
                     (locs ++ [length h1]) (sts ++ [v])).
      { apply Forall2_app.
        - eapply Forall2_impl; [|exact S1]. intros l w Hl. unfold stored in *.
          rewrite nth_error_alloc_old; auto.
          apply nth_error_Some. congruence.
        - constructor; auto. apply nth_error_alloc_new. }
      destruct (IH _ _ _ _ _ _ _ _ B2 S2 A2 H) as (I1 & I2 & I3 & I4).
      rewrite E2 in I1, I4. rewrite length_app in I2. simpl in I2.
      split; auto. split; [lia|]. split.
      * intros l L Al. rewrite I3; auto.
        -- rewrite nth_error_alloc_old by lia. auto.
        -- rewrite length_app. simpl. lia.
      * destruct r as [locs'|e]; auto.
        destruct I4 as (sts' & new & E & S' & -> & G & ND).
        exists sts', (length h1 :: new). split; auto. split; auto.
        split; [now rewrite <- app_assoc|].
        rewrite length_app in G. simpl in G.
        split.
        -- constructor; [lia|]. eapply Forall_impl; [|exact G].
           simpl. intros; lia.
        -- constructor; auto. intros I. rewrite Forall_forall in G.
           specialize (G _ I). lia.
    + destruct (IH _ _ _ _ _ _ _ _ B1 S1 A H) as (I1 & I2 & I3 & I4).
      rewrite R1 in I1, I4.
      split; auto. split; [lia|]. split.
      * intros l L Al. rewrite I3; auto. lia.
      * destruct r as [locs'|e]; auto.
        destruct I4 as (sts' & new & E & S' & -> & G & ND).
        exists sts', new. repeat split; auto.
        eapply Forall_impl; [|exact G]. simpl. intros; lia.
Qed.

Lemma h_apply_all_refines items : forall i h b h' r,
  book_in h b ->
  h_apply_all i items h b = (h', r) ->
  book_at h' b = fst (apply_all i items (book_at h b)) /\
  r = snd (apply_all i items (book_at h b)) /\
  length h' = length h /\
  forall l, apart b l -> nth_error h' l = nth_error h l.
Proof.
  induction items as [|item rest IH]; intros i h b h' r B H.
  - simpl in H. injection H as <- <-. simpl. auto.
  - cbn [h_apply_all apply_all] in *.
    destruct (depth_event i item) as [ev|e].
    2:{ injection H as <- <-. simpl. auto. }
    destruct (@h_apply_event_refines h b ev B) as (R1 & R2 & R3 & R4).
    destruct (h_apply_event h b ev) as [h1 r1]. cbn [fst snd] in *.
    destruct (apply_event (book_at h b) ev) as [bk1 rr]. cbn [fst snd] in *.
    subst r1. destruct rr as [[]|e].
    2:{ injection H as <- <-. simpl. auto. }
    assert (B1 : book_in h1 b)
      by (unfold book_in in *; rewrite R3; exact B).
    destruct (IH _ _ _ _ _ B1 H) as (I1 & I2 & I3 & I4).
    rewrite R1 in I1, I2. repeat split; auto; try congruence.
    intros l Al. rewrite I4; auto.
Qed.

(** The working copy of [main]: two new dictionaries with the levels of
    the initial book. *)
Lemma h_copy_book_spec h b :
  book_in h b ->
  exists h2,
    h_copy_book h b = (h2, BookRef (length h) (S (length h))) /\
    length h2 = (length h + 2)%nat /\
    (forall l, (l < length h)%nat -> nth_error h2 l = nth_error h l) /\
    book_at h2 (BookRef (length h) (S (length h))) = book_at h b /\
    book_in h2 (BookRef (length h) (S (length h))).
Proof.
  intros (La & Lb & N). unfold h_copy_book, alloc.
  set (h1 := h ++ [ODict (read_dict h (ask_ref b))]).
  assert (L1 : length h1 = S (length h))
    by (unfold h1; rewrite length_app; simpl; lia).
  rewrite L1.
  exists (h1 ++ [ODict (read_dict h1 (bid_ref b))]).
  split; auto.
  assert (Rb : read_dict h1 (bid_ref b) = read_dict h (bid_ref b)).
  { unfold read_dict, h1. now rewrite nth_error_alloc_old. }
  split; [rewrite length_app, L1; simpl; lia|].
  split; [|split].
  - intros l L. rewrite nth_error_alloc_old by lia.
    unfold h1. now apply nth_error_alloc_old.
  - assert (N1 : nth_error (h1 ++ [ODict (read_dict h1 (bid_ref b))])
                   (length h) = Some (ODict (read_dict h (ask_ref b)))).
    { rewrite nth_error_alloc_old by lia. apply nth_error_alloc_new. }
    assert (N2 : nth_error (h1 ++ [ODict (read_dict h1 (bid_ref b))])
                   (S (length h)) = Some (ODict (read_dict h1 (bid_ref b)))).
    { rewrite <- L1. apply nth_error_alloc_new. }
    unfold book_at. cbn [ask_ref bid_ref].
    assert (RD : forall (g : heap) l d,
               nth_error g l = Some (ODict d) -> read_dict g l = d)
      by (intros g l d G; unfold read_dict; now rewrite G).
    now rewrite (RD _ _ _ N1), (RD _ _ _ N2), Rb.
  - unfold book_in. cbn [ask_ref bid_ref]. rewrite length_app, L1. simpl.
    lia.
Qed.

(** A run on the store stores the states of the run on book values, at
    new locations, and changes no object that existed before it. *)
Lemma h_run_refines h ib upd final_only store_every :
  book_in h ib ->
  exists h' r,
    h_run h ib upd final_only store_every
    = (h', BookRef (length h) (S (length h)), r) /\
    (length h + 2 <= length h')%nat /\
    (forall l, (l < length h)%nat -> nth_error h' l = nth_error h l) /\
    book_at h' (BookRef (length h) (S (length h)))
    = fst (run (book_at h ib) upd final_only store_every) /\
    match r with
    | Ok locs =>
        exists sts,
          snd (run (book_at h ib) upd final_only store_every) = Ok sts /\
          Forall2 (stored h') locs sts /\
          Forall (fun l => (length h + 2 <= l)%nat) locs /\ NoDup locs
    | Err e => snd (run (book_at h ib) upd final_only store_every) = Err e
    end.
Proof.
  intros B. unfold h_run, run. rewrite book_eta.
  destruct (h_copy_book_spec B) as (h0 & -> & L0 & F0 & E0 & B0).
  set (bk := BookRef (length h) (S (length h))) in *.
  destruct upd as [| | | | |items|];
    try (exists h0, (Err (ValueError UpdatesNotList)); cbn [fst snd];
         repeat split; auto; lia).
  destruct final_only.
  - destruct (h_apply_all 0 items h0 bk) as [h1 r1] eqn:E1.
    destruct (h_apply_all_refines _ _ B0 E1) as (I1 & I2 & I3 & I4).
    rewrite E0 in I1, I2.
    destruct (apply_all 0 items (book_at h ib)) as [bk1 rr].
    cbn [fst snd] in *. subst r1.
    assert (F1 : forall l, (l < length h)%nat ->
                           nth_error h1 l = nth_error h l).
    { intros l L. rewrite I4; auto. unfold apart, bk. simpl. lia. }
    destruct rr as [[]|e].
    2:{ exists h1, (Err e). cbn [fst snd]. repeat split; auto. lia. }
    unfold h_book_to_levels. rewrite I1.
    destruct (book_to_levels bk1) as [v|e].
    2:{ exists h1, (Err e). cbn [fst snd]. repeat split; auto. lia. }
    cbn [alloc]. exists (h1 ++ [OValue v]), (Ok [length h1]).
    cbn [fst snd]. split; auto.
    split; [rewrite length_app; simpl; lia|].
    split; [|split].
    + intros l L. rewrite nth_error_alloc_old by lia. auto.
    + rewrite <- I1. apply book_at_frame.
      * unfold book_in in *. rewrite I3. exact B0.
      * intros l L. now apply nth_error_alloc_old.
    + exists [v]. split; auto. split; [|split].
      * constructor; auto. apply nth_error_alloc_new.
      * constructor; auto. lia.
      * constructor; auto. constructor.
  - destruct (h_store_loop store_every 0 0 items h0 bk []) as [h1 r1] eqn:E1.
    destruct (@h_store_loop_refines store_every items 0%nat 0 h0 bk [] []
                h1 r1 B0 (Forall2_nil _) (Forall_nil _) E1)
      as (I1 & I2 & I3 & I4).
    rewrite E0 in I1, I4.
    exists h1, r1. split; auto. split; [lia|].
    split; [|split; auto].
    + intros l L. rewrite I3; auto; try lia.
      unfold apart, bk. simpl. lia.
    + destruct r1 as [locs|e]; auto.
      destruct I4 as (sts' & new & E & S' & -> & G & ND).
      exists sts'. simpl. repeat split; auto.
      eapply Forall_impl; [|exact G]. simpl. intros; lia.
Qed.

Lemma book_in_grow h h' b :
  book_in h b -> (length h <= length h')%nat -> book_in h' b.
Proof. unfold book_in. intros (A & B & N) L. repeat split; auto; lia. Qed.

(** The revert event of [main] is built from copies of the two books and
    stored at a new location; no object that existed is changed. *)
Lemma h_revert_spec h bk ib :
  book_in h bk -> book_in h ib ->
  exists h' r,
    h_revert h bk ib = (h', r) /\
    (forall l, (l < length h)%nat -> nth_error h' l = nth_error h l) /\
    match r with
    | Ok rv =>
        exists v,
          generate_revert_update (book_at h bk) (book_at h ib)
            default_zero_fmt = Ok v /\
          stored h' rv v /\ rv = (length h + 4)%nat
    | Err e =>
        generate_revert_update (book_at h bk) (book_at h ib)
          default_zero_fmt = Err e
    end.
Proof.
  intros Bk Bi. unfold h_revert.
  destruct (h_copy_book_spec Bk) as (h1 & -> & L1 & F1 & E1 & B1).
  assert (Bi1 : book_in h1 ib) by (apply (@book_in_grow h h1 ib Bi); lia).
  destruct (h_copy_book_spec Bi1) as (h2 & -> & L2 & F2 & E2 & B2).
  rewrite E2.
  rewrite (@book_at_frame _ _ _ B1 F2), E1.
  rewrite (@book_at_frame _ _ _ Bi F1).
  destruct (generate_revert_update (book_at h bk) (book_at h ib)
              default_zero_fmt) as [v|e].
  - cbn [alloc]. exists (h2 ++ [OValue v]), (Ok (length h2)).
    split; auto. split.
    + intros l L. rewrite nth_error_alloc_old by lia.
      rewrite F2 by lia. auto.
    + exists v. split; auto. split; [apply nth_error_alloc_new|lia].
  - exists h2, (Err e). split; auto. split; auto.
    intros l L. rewrite F2 by lia. auto.
Qed.

(** ** The frame of a run *)

(** C9. A run on the store, with the revert event at its end, changes no
    object that existed before it: the two sides of the initial book hold
    the same levels after the run as before. The states it stores and the
    revert event are the values of the run on book values, each at a
    location of its own that is neither an object from before the run nor
    a side of the working book, so that what the run did to the working
    book after it stored a state is not seen in that state. *)
Theorem sampler_frame (h : heap) (initial_book : book_ref) (upd : json)
  (final_only : bool) (store_every : Z) :
  book_in h initial_book ->
  exists h' r,
    h_sampler h initial_book upd final_only store_every = (h', r) /\
    (forall l, (l < length h)%nat -> nth_error h' l = nth_error h l) /\
    book_at h' initial_book = book_at h initial_book /\
    match r with
    | Ok (locs, rv) =>
        exists bk sts v,
          run (book_at h initial_book) upd final_only store_every
          = (bk, Ok sts) /\
          generate_revert_update bk (book_at h initial_book)
            default_zero_fmt = Ok v /\
          Forall2 (stored h') locs sts /\ stored h' rv v /\
          Forall (fun l => (length h + 2 <= l)%nat) (rv :: locs) /\
          NoDup (rv :: locs)
    | Err e =>
        snd (run (book_at h initial_book) upd final_only store_every)
        = Err e \/
        exists bk sts,
          run (book_at h initial_book) upd final_only store_every
          = (bk, Ok sts) /\
          (book_to_levels bk = Err e \/
           generate_revert_update bk (book_at h initial_book)
             default_zero_fmt = Err e)
    end.
Proof.
  intros B. unfold h_sampler.
  destruct (h_run_refines upd final_only store_every B)
    as (h1 & r1 & -> & L1 & F1 & E1 & M1).
  set (bk := BookRef (length h) (S (length h))) in *.
  destruct (run (book_at h initial_book) upd final_only store_every)
    as [bkv rv] eqn:Erun. cbn [fst snd] in *.
  destruct r1 as [locs|e].
  2:{ exists h1, (Err e). repeat split; auto.
      now apply book_at_frame. }
  destruct M1 as (sts & -> & S1 & G1 & N1).
  assert (Bk1 : book_in h1 bk).
  { unfold book_in, bk. cbn [ask_ref bid_ref]. lia. }
  unfold h_book_to_levels. rewrite E1.
  destruct (book_to_levels bkv) as [fin|e] eqn:Efin.
  2:{ exists h1, (Err e). split; auto. split; auto.
      split; [now apply book_at_frame|]. right. eauto. }
  cbn [alloc].
  set (h2 := h1 ++ [OValue fin]).
  assert (L2 : length h2 = S (length h1))
    by (unfold h2; rewrite length_app; simpl; lia).
  assert (F12 : forall l, (l < length h1)%nat ->
                          nth_error h2 l = nth_error h1 l)
    by (intros l L; unfold h2; now apply nth_error_alloc_old).
  assert (Bk2 : book_in h2 bk)
    by (apply (@book_in_grow h1 h2 bk Bk1); lia).
  assert (Bi2 : book_in h2 initial_book)
    by (apply (@book_in_grow h h2 initial_book B); lia).
  destruct (h_revert_spec Bk2 Bi2) as (h3 & r3 & -> & F3 & M3).
  assert (F : forall l, (l < length h)%nat -> nth_error h3 l = nth_error h l).
  { intros l L. rewrite F3 by lia. rewrite F12 by lia. auto. }
  assert (E2 : book_at h2 bk = bkv)
    by (rewrite <- E1; now apply book_at_frame).
  assert (Ei : book_at h2 initial_book = book_at h initial_book).
  { apply book_at_frame; auto. intros l L. rewrite F12 by lia. auto. }
  rewrite E2, Ei in M3.
  destruct r3 as [l3|e].
  2:{ exists h3, (Err e). split; auto. split; auto.
      split; [now apply book_at_frame|]. right. eauto. }
  destruct M3 as (v & Ev & Sv & ->).
  exists h3, (Ok (locs, (length h2 + 4)%nat)). split; auto. split; auto.
  split; [now apply book_at_frame|].
  exists bkv, sts, v. split; auto. split; auto.
  assert (R : Forall (fun l => (l < length h1)%nat) locs).
  { clear - S1. induction S1; constructor; auto.
    eapply stored_in_range; eauto. }
  split; [|split; [|split]]; auto.
  - eapply Forall2_impl; [|exact S1]. intros l w Hl. unfold stored in *.
    assert (l < length h1)%nat by (eapply stored_in_range; eauto).
    rewrite F3 by lia. rewrite F12 by lia. auto.
  - constructor; auto. lia.
  - constructor; auto. intros I. rewrite Forall_forall in R.
    specialize (R _ I). lia.
Qed.

(** ** The revert update *)

Lemma last_update_in l p q : last_update l p = Some q -> In (p, q) l.
Proof.
  induction l as [|[p0 q0] r IH]; simpl; try discriminate.
  destruct (last_update r p) as [q'|].
  - intros H; injection H as ->. auto.
  - destruct (String.eqb_spec p0 p) as [->|]; try discriminate.
    intros H; injection H as ->. auto.
Qed.

Lemma last_update_none l p :
  last_update l p = None <-> ~ In p (map fst l).
Proof.
  induction l as [|[p0 q0] r IH]; simpl.
  - tauto.
  - destruct (last_update r p) as [q'|] eqn:E.
    + split; [discriminate|]. intros H. exfalso. apply H. right.
      apply last_update_in in E. apply (in_map fst) in E. exact E.
    + destruct (String.eqb_spec p0 p) as [->|N].
      * split; [discriminate|]. intros H. exfalso. apply H. auto.
      * split; auto. intros _ [H|H]; [congruence|]. now apply IH.
Qed.

Lemma in_last_update l p q :
  NoDup (map fst l) -> In (p, q) l -> last_update l p = Some q.
Proof.
  induction l as [|[p0 q0] r IH]; simpl; intros N H; [contradiction|].
  inversion N as [|? ? Hn Hr]; subst. destruct H as [H|H].
  - injection H as -> ->.
    assert (E : last_update r p = None) by (now apply last_update_none).
    rewrite E. now rewrite String.eqb_refl.
  - now rewrite (IH Hr H).
Qed.

Lemma last_update_perm l l' p :
  NoDup (map fst l) -> Permutation l l' ->
  last_update l' p = last_update l p.
Proof.
  intros N P.
  assert (N' : NoDup (map fst l')).
  { eapply Permutation_NoDup; [|exact N]. now apply Permutation_map. }
  destruct (last_update l p) as [q|] eqn:E.
  - apply in_last_update; auto. eapply Permutation_in; eauto.
    now apply last_update_in.
  - destruct (last_update l' p) as [q'|] eqn:E'; auto.
    apply last_update_in in E'.
    eapply Permutation_in in E'; [|symmetry; exact P].
    rewrite (@in_last_update l p q' N E') in E. discriminate.
Qed.

Lemma last_update_app l1 l2 p :
  last_update (l1 ++ l2) p =
  match last_update l2 p with
  | Some q => Some q
  | None => last_update l1 p
  end.
Proof.
  induction l1 as [|[p0 q0] r IH]; simpl.
  - now destruct (last_update l2 p).
  - rewrite IH. destruct (last_update l2 p); auto.
Qed.

Lemma removals_and_changes_keys cur tgt z p :
  In p (map fst (removals_and_changes cur tgt z)) -> In p (dict_keys cur).
Proof.
  induction cur as [|[p0 q0] r IH]; simpl; auto.
  destruct (dict_get tgt p0) as [qt|].
  - destruct (String.eqb qt q0); simpl; tauto.
  - simpl. tauto.
Qed.

Lemma removals_and_changes_wf cur tgt z :
  dict_wf cur -> NoDup (map fst (removals_and_changes cur tgt z)).
Proof.
  unfold dict_wf. induction cur as [|[p0 q0] r IH]; simpl; intros W.
  - constructor.
  - inversion W as [|? ? Hn Hr]; subst.
    assert (Hn' : ~ In p0 (map fst (removals_and_changes r tgt z)))
      by (intros I; apply Hn; eapply removals_and_changes_keys; eauto).
    destruct (dict_get tgt p0) as [qt|].
    + destruct (String.eqb qt q0); simpl; auto. constructor; auto.
    + simpl. constructor; auto.
Qed.

Lemma removals_and_changes_update cur tgt z p :
  dict_wf cur ->
  last_update (removals_and_changes cur tgt z) p =
  match dict_get cur p with
  | None => None
  | Some qc =>
      match dict_get tgt p with
      | None => Some z
      | Some qt => if String.eqb qt qc then None else Some qt
      end
  end.
Proof.
  unfold dict_wf. induction cur as [|[p0 q0] r IH]; simpl; intros W; auto.
  inversion W as [|? ? Hn Hr]; subst. specialize (IH Hr).
  destruct (String.eqb_spec p0 p) as [->|N].
  - assert (E : last_update (removals_and_changes r tgt z) p = None).
    { apply last_update_none. intros I. apply Hn.
      eapply removals_and_changes_keys; eauto. }
    destruct (dict_get tgt p) as [qt|].
    + destruct (String.eqb qt q0); simpl; auto.
      rewrite E. now rewrite String.eqb_refl.
    + simpl. rewrite E. now rewrite String.eqb_refl.
  - destruct (dict_get tgt p0) as [qt|].
    + destruct (String.eqb qt q0); simpl; auto.
      rewrite IH. destruct (dict_get r p); auto.
      * destruct (dict_get tgt p) as [qt'|]; auto.
        destruct (String.eqb qt' s); auto.
        destruct (String.eqb_spec p0 p); congruence.
      * destruct (String.eqb_spec p0 p); congruence.
    + simpl. rewrite IH. destruct (dict_get r p); auto.
      * destruct (dict_get tgt p) as [qt'|]; auto.
        destruct (String.eqb qt' s); auto.
        destruct (String.eqb_spec p0 p); congruence.
      * destruct (String.eqb_spec p0 p); congruence.
Qed.

Lemma additions_keys cur tgt p :
  In p (map fst (additions cur tgt)) ->
  In p (dict_keys tgt) /\ ~ In p (dict_keys cur).
Proof.
  induction tgt as [|[p0 q0] r IH]; simpl; [tauto|].
  destruct (dict_mem cur p0) eqn:M.
  - intros I. destruct (IH I). auto.
  - simpl. intros [<-|I].
    + split; auto. intros I. apply dict_mem_keys in I. congruence.
    + destruct (IH I). auto.
Qed.

Lemma additions_wf cur tgt :
  dict_wf tgt -> NoDup (map fst (additions cur tgt)).
Proof.
  unfold dict_wf. induction tgt as [|[p0 q0] r IH]; simpl; intros W.
  - constructor.
  - inversion W as [|? ? Hn Hr]; subst.
    destruct (dict_mem cur p0); auto. simpl. constructor; auto.
    intros I. apply additions_keys in I. tauto.
Qed.

Lemma additions_update cur tgt p :
  dict_wf tgt ->
  last_update (additions cur tgt) p =
  if dict_mem cur p then None else dict_get tgt p.
Proof.
  unfold dict_wf. induction tgt as [|[p0 q0] r IH]; simpl; intros W.
  - now destruct (dict_mem cur p).
  - inversion W as [|? ? Hn Hr]; subst. specialize (IH Hr).
    destruct (String.eqb_spec p0 p) as [->|N].
    + assert (E : last_update (additions cur r) p = None).
      { apply last_update_none. intros I. apply additions_keys in I. tauto. }
      destruct (dict_mem cur p) eqn:M; auto.
      simpl. rewrite E. now rewrite String.eqb_refl.
    + destruct (dict_mem cur p0); auto.
      simpl. rewrite IH. destruct (dict_mem cur p); auto.
      * destruct (String.eqb_spec p0 p); congruence.
      * destruct (dict_get r p); auto.
        destruct (String.eqb_spec p0 p); congruence.
Qed.

Lemma removals_and_changes_Forall cur tgt z :
  side_valid cur -> side_valid tgt -> qty_okb z = true ->
  Forall (fun pq => price_okb (fst pq) = true)
         (removals_and_changes cur tgt z) /\
  Forall (fun pq => qty_okb (snd pq) = true)
         (removals_and_changes cur tgt z).
Proof.
  intros [_ Pc _] [_ _ Qt] Hz.
  induction cur as [|[p0 q0] r IH]; simpl.
  - split; constructor.
  - inversion Pc as [|? ? Hp Hr]; subst. destruct (IH Hr) as [I1 I2].
    destruct (dict_get tgt p0) as [qt|] eqn:E.
    + destruct (String.eqb qt q0); auto.
      split; constructor; auto. simpl.
      apply dict_get_in in E. rewrite Forall_forall in Qt.
      apply (Qt _ E).
    + split; constructor; auto.
Qed.

Lemma additions_Forall (P : string * string -> Prop) cur tgt :
  Forall P tgt -> Forall P (additions cur tgt).
Proof.
  induction 1 as [|[p0 q0] r Hx Hr IH]; simpl; auto.
  destruct (dict_mem cur p0); auto.
Qed.

Lemma diff_rows_wf cur tgt z :
  dict_wf cur -> dict_wf tgt ->
  NoDup (map fst (removals_and_changes cur tgt z ++ additions cur tgt)).
Proof.
  intros Wc Wt. rewrite map_app. apply NoDup_app.
  - now apply removals_and_changes_wf.
  - now apply additions_wf.
  - intros p I J. apply removals_and_changes_keys in I.
    apply additions_keys in J. tauto.
Qed.

(** One side of the revert update: it is made of levels the codec
    accepts, and applied to the current side it leaves at every price
    text the level of the target side. *)
Lemma side_diff_spec (cur_bk tgt_bk : book) (z : string) (s : side) :
  side_valid (side_of cur_bk s) -> side_valid (side_of tgt_bk s) ->
  qty_okb z = true ->
  exists out,
    side_diff cur_bk tgt_bk z s = Ok out /\
    Forall (fun pq => qty_okb (snd pq) = true) out /\
    Forall (fun pq => price_okb (fst pq) = true) out /\
    (qty_zerob z = true -> side_positive (side_of tgt_bk s) ->
     forall p, level_after out (side_of cur_bk s) p
               = dict_get (side_of tgt_bk s) p).
Proof.
  intros Vc Vt Hz. unfold side_diff.
  set (cur := side_of cur_bk s) in *. set (tgt := side_of tgt_bk s) in *.
  set (raw := removals_and_changes cur tgt z ++ additions cur tgt).
  destruct (@removals_and_changes_Forall cur tgt z Vc Vt Hz) as [Rp Rq].
  assert (Fp : Forall (fun pq => price_okb (fst pq) = true) raw).
  { apply Forall_app. split; auto. apply additions_Forall. apply Vt. }
  assert (Fq : Forall (fun pq => qty_okb (snd pq) = true) raw).
  { apply Forall_app. split; auto. apply additions_Forall. apply Vt. }
  rewrite (sorted_pure (fun pq : string * string => fst pq) (is_bid s) Fp).
  set (out := psorted (fun pq : string * string => fst pq) (is_bid s) raw).
  pose proof (psorted_perm (fun pq : string * string => fst pq)
                (is_bid s) raw) as P.
  fold out in P.
  exists out. split; auto.
  split; [eapply Permutation_Forall; [symmetry; exact P|exact Fq]|].
  split; [eapply Permutation_Forall; [symmetry; exact P|exact Fp]|].
  intros Zz Pos p. unfold level_after.
  assert (W : NoDup (map fst raw))
    by (apply diff_rows_wf; [apply Vc|apply Vt]).
  rewrite (@last_update_perm raw out p W (Permutation_sym P)).
  unfold raw. rewrite last_update_app.
  rewrite additions_update by apply Vt.
  rewrite removals_and_changes_update by apply Vc.
  assert (Nz : forall q, dict_get tgt p = Some q -> qty_zerob q = false).
  { intros q G. apply dict_get_in in G. unfold side_positive in Pos.
    rewrite Forall_forall in Pos. specialize (Pos _ G). simpl in Pos.
    unfold qty_posb in Pos. apply andb_true_iff in Pos.
    destruct Pos as [_ Pos]. now destruct (qty_zerob q). }
  unfold dict_mem.
  destruct (dict_get cur p) as [qc|] eqn:Gc.
  - destruct (dict_get tgt p) as [qt|] eqn:Gt.
    + destruct (String.eqb_spec qt qc) as [->|N]; auto.
      now rewrite (Nz _ eq_refl).
    + now rewrite Zz.
  - destruct (dict_get tgt p) as [qt|] eqn:Gt; auto.
    now rewrite (Nz _ eq_refl).
Qed.

Lemma book_from_snapshot_valid snap bk :
  book_from_snapshot snap = Ok bk ->
  Forall (fun pq => price_okb (fst pq) = true) (ask bk ++ bid bk) ->
  book_valid bk.
Proof.
  unfold book_from_snapshot.
  destruct (parse_levels (get_default snap "asks" (JList [])) "asks")
    as [asks|] eqn:Ea; try discriminate.
  destruct (parse_levels (get_default snap "bids" (JList [])) "bids")
    as [bids|] eqn:Eb; try discriminate.
  simpl. intros H; injection H as <-. simpl. intros F.
  apply Forall_app in F. destruct F as [Fa Fb].
  destruct (parse_levels_ok _ _ Ea) as [Qa _].
  destruct (parse_levels_ok _ _ Eb) as [Qb _].
  split; split; simpl; auto.
  - apply set_all_wf. constructor.
  - apply set_all_Forall; auto.
  - apply set_all_wf. constructor.
  - apply set_all_Forall; auto.
Qed.

(** C1, as stated, fails on two kinds of initial book. With two price
    texts of one decimal value on a side, the revert update puts back
    the level that was removed behind the other one, and the projection
    lists the two in the other order. With a level of quantity zero in
    the snapshot, the revert update to that level is read as a removal. *)
Lemma round_trip_counterexample :
  (exists snap items B0 Bf rv ev B1,
     book_from_snapshot snap = Ok B0 /\ book_positive B0 /\
     Forall (fun item => valid_item item = true) items /\
     apply_all 0 items B0 = (Bf, Ok tt) /\
     generate_revert_update Bf B0 default_zero_fmt = Ok rv /\
     depth_event 0 rv = Ok ev /\
     apply_event Bf ev = (B1, Ok tt) /\
     book_to_levels B1 <> book_to_levels B0) /\
  (exists snap items B0 Bf rv ev B1,
     book_from_snapshot snap = Ok B0 /\ book_distinct B0 /\
     Forall (fun item => valid_item item = true) items /\
     apply_all 0 items B0 = (Bf, Ok tt) /\
     generate_revert_update Bf B0 default_zero_fmt = Ok rv /\
     depth_event 0 rv = Ok ev /\
     apply_event Bf ev = (B1, Ok tt) /\
     book_to_levels B1 <> book_to_levels B0).
Proof.
  split.
  - exists [("asks", rows_json [("1.0", "1"); ("1.00", "2")])],
           [JDict [("a", rows_json [("1.0", "0")])]],
           (Book [("1.0", "1"); ("1.00", "2")] []),
           (Book [("1.00", "2")] []),
           (JDict [("data", JDict [("e", JStr "depthUpdate");
                                   ("b", rows_json []);
                                   ("a", rows_json [("1.0", "1")])])]),
           [("a", rows_json [("1.0", "1")]); ("b", rows_json [])],
           (Book [("1.00", "2"); ("1.0", "1")] []).
    split; [vm_compute; reflexivity|].
    split; [split; repeat constructor|].
    split; [repeat constructor|].
    repeat (split; [vm_compute; reflexivity|]).
    vm_compute. discriminate.
  - exists [("asks", rows_json [("1", "0")])],
           [JDict [("a", rows_json [("1", "5")])]],
           (Book [("1", "0")] []),
           (Book [("1", "5")] []),
           (JDict [("data", JDict [("e", JStr "depthUpdate");
                                   ("b", rows_json []);
                                   ("a", rows_json [("1", "0")])])]),
           [("a", rows_json [("1", "0")]); ("b", rows_json [])],
           (Book [] []).
    split; [vm_compute; reflexivity|].
    split.
    { split; intros p1 p2 I1 I2 N; simpl in *; try contradiction.
      destruct I1 as [<-|[]], I2 as [<-|[]]. congruence. }
    split; [repeat constructor|].
    repeat (split; [vm_compute; reflexivity|]).
    vm_compute. discriminate.
Qed.

(** C1 (amended). For an initial book whose levels went through the
    codec, with no quantity that is zero, no price that is NaN and no
    two price texts of one decimal value on a side, and for every
    sequence of valid events: the events apply, the revert update from
    the book they lead to back to the initial book is built, it is
    accepted as an event, and applied to that book it restores the level
    of the initial book at every price text of both sides and the
    projection of the initial book. *)
Theorem revert_round_trip (B0 : book) (items : list json) :
  book_valid B0 -> book_positive B0 -> book_distinct B0 ->
  Forall (fun item => valid_item item = true) items ->
  exists Bf rv ev B1 proj,
    apply_all 0 items B0 = (Bf, Ok tt) /\
    generate_revert_update Bf B0 default_zero_fmt = Ok rv /\
    depth_event 0 rv = Ok ev /\
    apply_event Bf ev = (B1, Ok tt) /\
    (forall p, dict_get (ask B1) p = dict_get (ask B0) p) /\
    (forall p, dict_get (bid B1) p = dict_get (bid B0) p) /\
    book_to_levels B0 = Ok proj /\ book_to_levels B1 = Ok proj.
Proof.
  intros V0 P0 D0 F.
  destruct (@apply_all_valid items 0%nat B0 F V0) as (Bf & EA & Vf).
  assert (Hz : qty_okb default_zero_fmt = true) by reflexivity.
  assert (Zz : qty_zerob default_zero_fmt = true) by reflexivity.
  destruct V0 as [V0a V0b]. destruct Vf as [Vfa Vfb].
  destruct P0 as [P0a P0b]. destruct D0 as [D0a D0b].
  destruct (@side_diff_spec Bf B0 default_zero_fmt BidSide Vfb V0b Hz)
    as (ob & Eb & Qb & Kb & Lb).
  destruct (@side_diff_spec Bf B0 default_zero_fmt AskSide Vfa V0a Hz)
    as (oa & Ea & Qa & Ka & La).
  specialize (Lb Zz P0b). specialize (La Zz P0a). simpl in La, Lb.
  set (ev := [("a", rows_json oa); ("b", rows_json ob)]).
  set (B1 := Book (fst (apply_levels (ask Bf) oa))
                  (fst (apply_levels (bid Bf) ob))).
  assert (E1 : apply_event Bf ev = (B1, Ok tt)).
  { apply apply_event_ok.
    - change (get_or_none ev "b") with (rows_json ob).
      now apply parse_levels_rows_json.
    - change (get_or_none ev "a") with (rows_json oa).
      now apply parse_levels_rows_json. }
  assert (Ga : forall p, dict_get (ask B1) p = dict_get (ask B0) p).
  { intros p. simpl. rewrite (proj2 (apply_levels_ok (ask Bf) Qa)).
    apply La. }
  assert (Gb : forall p, dict_get (bid B1) p = dict_get (bid B0) p).
  { intros p. simpl. rewrite (proj2 (apply_levels_ok (bid Bf) Qb)).
    apply Lb. }
  assert (V1a : side_valid (ask B1))
    by (simpl; now apply apply_levels_valid).
  assert (V1b : side_valid (bid B1))
    by (simpl; now apply apply_levels_valid).
  exists Bf,
    (JDict [("data", JDict [("e", JStr "depthUpdate");
                            ("b", rows_json ob); ("a", rows_json oa)])]),
    ev, B1,
    (JDict [("asks", rows_json (pside (ask B0) AskSide));
            ("bids", rows_json (pside (bid B0) BidSide))]).
  split; auto.
  split; [unfold generate_revert_update; now rewrite Eb, Ea|].
  split; [reflexivity|].
  split; auto. split; auto. split; auto.
  split.
  - apply book_to_levels_pure; [apply V0a|apply V0b].
  - rewrite book_to_levels_pure; [|apply V1a|apply V1b].
    rewrite (@pside_eq (ask B0) (ask B1) AskSide);
      [|apply V0a|apply V1a|apply V0a|exact D0a|now intros; rewrite Ga].
    rewrite (@pside_eq (bid B0) (bid B1) BidSide);
      [|apply V0b|apply V1b|apply V0b|exact D0b|now intros; rewrite Gb].
    reflexivity.
Qed.

(** ** The theorems at the scenario of the specification *)

Lemma scenario_book_valid : book_valid scenario_book.
Proof.
  split; split; simpl; repeat constructor; auto; intros [].
Defined.

Lemma scenario_book_positive : book_positive scenario_book.
Proof. split; repeat constructor. Defined.

Lemma scenario_book_distinct : book_distinct scenario_book.
Proof.
  split; intros p1 p2 I1 I2 N; simpl in *;
    destruct I1 as [<-|[]], I2 as [<-|[]]; congruence.
Defined.

Lemma scenario_items_valid :
  Forall (fun item => valid_item item = true) [scenario_event].
Proof. repeat constructor. Defined.

Lemma revert_round_trip_witness :
  book_valid scenario_book /\ book_positive scenario_book /\
  book_distinct scenario_book /\
  Forall (fun item => valid_item item = true) [scenario_event] /\
  exists Bf rv ev B1 proj,
    apply_all 0 [scenario_event] scenario_book = (Bf, Ok tt) /\
    generate_revert_update Bf scenario_book default_zero_fmt = Ok rv /\
    depth_event 0 rv = Ok ev /\
    apply_event Bf ev = (B1, Ok tt) /\
    (forall p, dict_get (ask B1) p = dict_get (ask scenario_book) p) /\
    (forall p, dict_get (bid B1) p = dict_get (bid scenario_book) p) /\
    book_to_levels scenario_book = Ok proj /\ book_to_levels B1 = Ok proj.
Proof.
  split; [exact scenario_book_valid|].
  split; [exact scenario_book_positive|].
  split; [exact scenario_book_distinct|].
  split; [exact scenario_items_valid|].
  exact (revert_round_trip scenario_book_valid scenario_book_positive
           scenario_book_distinct scenario_items_valid).
Defined.

Lemma levels_keyed_by_price_text_witness :
  fails_parsing (JStr "0.000001") = false /\ qty_okb "0" = true /\
  let r := apply_event (Book [] [("0.00000100", "1")])
             [(side_key BidSide, rows_json [("0.000001", "0")])] in
  snd r = Ok tt /\
  dict_get (side_of (fst r) BidSide) "0.000001"
  = (if qty_zerob "0" then None else Some "0") /\
  (forall p', p' <> "0.000001" ->
     dict_get (side_of (fst r) BidSide) p'
     = dict_get (side_of (Book [] [("0.00000100", "1")]) BidSide) p') /\
  side_of (fst r) (other_side BidSide)
  = side_of (Book [] [("0.00000100", "1")]) (other_side BidSide) /\
  (dict_wf (side_of (Book [] [("0.00000100", "1")]) BidSide) ->
   dict_wf (side_of (fst r) BidSide)) /\
  (forall d, Forall (fun pq => price_okb (fst pq) = true) d ->
     exists out, sorted_side d BidSide = Ok out /\
                 StronglySorted (display_order BidSide) out).
Proof.
  split; [reflexivity|]. split; [reflexivity|].
  exact (@levels_keyed_by_price_text (Book [] [("0.00000100", "1")]) BidSide
           "0.000001" "0" eq_refl eq_refl).
Defined.

Lemma half_valid_event_bad_ask :
  bad_entry "asks" (get_or_none half_valid_event "a").
Proof.
  exists [JList [JStr "100.5"]], 0%nat, (JList [JStr "100.5"]).
  repeat split.
Defined.

Lemma apply_event_not_rolled_back_witness :
  (bad_entry "bids" (get_or_none half_valid_event "b") \/
   bad_entry "asks" (get_or_none half_valid_event "a")) /\
  exists e,
    snd (apply_event scenario_book half_valid_event) = Err e /\
    ((exists label i row, check_level label i row = Err e) \/
     (exists label got, e = ValueError (MustBeList label got))) /\
    ((parse_levels (get_or_none half_valid_event "b") "bids" = Err e /\
      fst (apply_event scenario_book half_valid_event) = scenario_book) \/
     (exists bl,
        parse_levels (get_or_none half_valid_event "b") "bids" = Ok bl /\
        parse_levels (get_or_none half_valid_event "a") "asks" = Err e /\
        ask (fst (apply_event scenario_book half_valid_event))
        = ask scenario_book /\
        forall p,
          dict_get (bid (fst (apply_event scenario_book half_valid_event))) p
          = level_after bl (bid scenario_book) p)).
Proof.
  split; [right; exact half_valid_event_bad_ask|].
  exact (@apply_event_not_rolled_back scenario_book half_valid_event
           (or_intror half_valid_event_bad_ask)).
Defined.

Lemma sampler_capture_counts_witness :
  book_valid scenario_book /\
  Forall (fun item => valid_item item = true) [scenario_event] /\
  (exists bk sts,
     run scenario_book (JList [scenario_event]) false 1 = (bk, Ok sts) /\
     Z.of_nat (length sts)
     = Z.of_nat (length [scenario_event]) / Z.max 1 1 /\
     map Ok sts
     = map (fun m => book_to_levels
                       (book_after scenario_book [scenario_event] m))
           (capture_points (Z.max 1 1) (length [scenario_event])) /\
     (1 <= 1 ->
      Z.of_nat (length sts) = Z.of_nat (length [scenario_event]) / 1) /\
     (1 <= 1 -> length sts = length [scenario_event])) /\
  (1 <= 0 ->
   run scenario_book (JList [scenario_event]) false 1
   = run scenario_book (JList [scenario_event]) false 1) /\
  (exists st,
     run scenario_book (JList [scenario_event]) true 1
     = (book_after scenario_book [scenario_event]
          (length [scenario_event]), Ok [st]) /\
     book_to_levels (book_after scenario_book [scenario_event]
                       (length [scenario_event])) = Ok st) /\
  ([scenario_event] = [] ->
   exists st,
     run scenario_book (JList [scenario_event]) true 1
     = (scenario_book, Ok [st]) /\
     book_to_levels scenario_book = Ok st).
Proof.
  split; [exact scenario_book_valid|].
  split; [exact scenario_items_valid|].
  exact (@sampler_capture_counts scenario_book [scenario_event] 1
           scenario_book_valid scenario_items_valid).
Defined.

Lemma scenario_heap_book : book_in scenario_heap (BookRef 0%nat 1%nat).
Proof. unfold book_in. simpl. repeat split; auto. Defined.

Lemma sampler_frame_witness :
  book_in scenario_heap (BookRef 0%nat 1%nat) /\
  exists h' r,
    h_sampler scenario_heap (BookRef 0%nat 1%nat) (JList [scenario_event]) false 1
    = (h', r) /\
    (forall l, (l < length scenario_heap)%nat ->
               nth_error h' l = nth_error scenario_heap l) /\
    book_at h' (BookRef 0%nat 1%nat) = book_at scenario_heap (BookRef 0%nat 1%nat) /\
    match r with
    | Ok (locs, rv) =>
        exists bk sts v,
          run (book_at scenario_heap (BookRef 0%nat 1%nat)) (JList [scenario_event])
              false 1 = (bk, Ok sts) /\
          generate_revert_update bk (book_at scenario_heap (BookRef 0%nat 1%nat))
            default_zero_fmt = Ok v /\
          Forall2 (stored h') locs sts /\ stored h' rv v /\
          Forall (fun l => (length scenario_heap + 2 <= l)%nat) (rv :: locs) /\
          NoDup (rv :: locs)
    | Err e =>
        snd (run (book_at scenario_heap (BookRef 0%nat 1%nat))
               (JList [scenario_event]) false 1) = Err e \/
        exists bk sts,
          run (book_at scenario_heap (BookRef 0%nat 1%nat)) (JList [scenario_event])
              false 1 = (bk, Ok sts) /\
          (book_to_levels bk = Err e \/
           generate_revert_update bk
             (book_at scenario_heap (BookRef 0%nat 1%nat))
             default_zero_fmt = Err e)
    end.
Proof.
  split; [exact scenario_heap_book|].
  exact (@sampler_frame scenario_heap (BookRef 0%nat 1%nat) (JList [scenario_event])
           false 1 scenario_heap_book).
Defined.

Lemma apply_event_side_atomic_witness :
  parse_levels (get_or_none half_valid_event "b") "bids"
  = Ok [("100.0", "0")] /\
  bad_entry "asks" (get_or_none half_valid_event "a") /\
  is_ok (snd (apply_event scenario_book half_valid_event)) = false /\
  ask (fst (apply_event scenario_book half_valid_event)) = ask scenario_book /\
  forall p,
    dict_get (bid (fst (apply_event scenario_book half_valid_event))) p
    = level_after [("100.0", "0")] (bid scenario_book) p.
Proof.
  split; [reflexivity|]. split; [exact half_valid_event_bad_ask|].
  exact (proj2 (apply_event_side_atomic scenario_book half_valid_event)
           [("100.0", "0")] eq_refl half_valid_event_bad_ask).
Defined.

Lemma book_quantities_positive_witness :
  book_positive scenario_book /\
  book_positive (fst (apply_event scenario_book half_valid_event)).
Proof.
  split; [exact scenario_book_positive|].
  exact (proj1 (proj2 (proj2 book_quantities_positive))
           scenario_book half_valid_event scenario_book_positive).
Defined.

Lemma check_level_raises_iff_witness :
  fails_parsing (JStr "100.0") = false /\ qty_okb "0" = true /\
  qty_zerob "0" = true /\
  check_level "bids" 0 (JList [JStr "100.0"; JStr "0"]) = Ok ("100.0", "0").
Proof.
  split; [reflexivity|]. split; [reflexivity|]. split; [reflexivity|].
  exact (proj2 (proj2 (check_level_raises_iff "bids" 0
                         (JList [JStr "100.0"; JStr "0"])))
           "100.0" "0" eq_refl eq_refl eq_refl eq_refl).
Defined.

Lemma update_payload_shape_witness :
  dict_get [("data", JDict [("b", rows_json [("100.0", "0")])])] "data"
  = Some (JDict [("b", rows_json [("100.0", "0")])]) /\
  dict_get [("b", rows_json [("100.0", "0")])] "data" = None /\
  depth_event 0 (JDict [("data", JDict [("b", rows_json [("100.0", "0")])])])
  = depth_event 0 (JDict [("b", rows_json [("100.0", "0")])]).
Proof.
  split; [reflexivity|]. split; [reflexivity|].
  exact (proj1 update_payload_shape 0%nat
           [("data", JDict [("b", rows_json [("100.0", "0")])])]
           [("b", rows_json [("100.0", "0")])] eq_refl eq_refl).
Defined.

(* ================================================================== *)
(** * Further properties of the module *)

(** ** The codec: round trip and first error *)

Lemma parse_rows_first_error label rows : forall k e,
  parse_rows label k rows = Err e ->
  exists i row,
    nth_error rows i = Some row /\
    check_level label (k + i) row = Err e /\
    forall j r, (j < i)%nat -> nth_error rows j = Some r ->
                is_ok (check_level label (k + j) r) = true.
Proof.
  induction rows as [|row rest IH]; simpl; intros k e H; try discriminate.
  destruct (check_level label k row) as [pq|e0] eqn:E; simpl in H.
  - destruct (parse_rows label (S k) rest) as [out'|e1] eqn:E';
      simpl in H; try discriminate.
    injection H as <-. destruct (IH _ _ E') as (i & r & Hn & Hc & Hb).
    exists (S i), r. split; auto. split.
    + now replace (k + S i)%nat with (S k + i)%nat by lia.
    + intros [|j] r' Hj Hr; simpl in Hr.
      * injection Hr as <-. now rewrite Nat.add_0_r, E.
      * replace (k + S j)%nat with (S k + j)%nat by lia.
        apply (Hb j r'); auto. lia.
  - injection H as <-. exists 0%nat, row. split; auto. split.
    + now rewrite Nat.add_0_r.
    + intros j r Hj. lia.
Qed.

(** X1. When [parse_levels] rejects a list of levels, the error is the one
    of the first rejected row: every row before it is accepted, and the
    rows after it are not looked at. *)
Theorem parse_levels_first_error (rows : list json) (label : string)
  (e : error) :
  parse_levels (JList rows) label = Err e ->
  exists i row,
    nth_error rows i = Some row /\
    check_level label i row = Err e /\
    forall j r, (j < i)%nat -> nth_error rows j = Some r ->
                is_ok (check_level label j r) = true.
Proof.
  simpl. intros H. apply parse_rows_first_error in H.
  destruct H as (i & row & Hn & Hc & Hb). exists i, row. auto.
Qed.

(** X2. [parse_levels] keeps the texts: what it returns for a list of
    levels is the list of its [price, qty] pairs, text for text and in
    the same order ([None] gives no level), and a list of pairs of texts
    whose prices are decimals and whose quantities are decimals that are
    neither NaN nor negative is returned as it is. *)
Theorem parse_levels_round_trip :
  (forall levels label out,
     parse_levels levels label = Ok out ->
     (levels = JNull /\ out = []) \/ levels = rows_json out) /\
  (forall out label,
     Forall (fun pq => fails_parsing (JStr (fst pq)) = false /\
                       qty_okb (snd pq) = true) out ->
     parse_levels (rows_json out) label = Ok out).
Proof.
  split.
  - intros levels label out H. destruct levels; simpl in H; try discriminate.
    + injection H as <-. auto.
    + right. destruct (parse_rows_ok _ _ _ H) as (_ & _ & ->). reflexivity.
  - intros out label F. simpl. apply parse_rows_json.
    + eapply Forall_impl; [|exact F]. simpl. tauto.
    + eapply Forall_impl; [|exact F]. intros [p q] [Hp _]. simpl in *.
      destruct (Dec.Decimal p) as [d|]; [eauto|discriminate].
Qed.

(** ** Applying events: no-op, frame and idempotence *)

Lemma dict_pop_absent (d : dict) k : dict_get d k = None -> dict_pop d k = d.
Proof.
  induction d as [|[k0 v0] r IH]; simpl; auto.
  destruct (String.eqb k0 k); try discriminate.
  intros H. now rewrite IH.
Qed.

Lemma apply_levels_zero_absent levels : forall d,
  Forall (fun pq => qty_okb (snd pq) = true /\ qty_zerob (snd pq) = true /\
                    dict_get d (fst pq) = None) levels ->
  apply_levels d levels = (d, Ok tt).
Proof.
  induction levels as [|[p q] r IH]; simpl; intros d F; auto.
  inversion F as [|? ? (Hq & Hz & Hd) Hr]; subst. simpl in *.
  rewrite (qty_okb_is_zero _ Hq), Hz, (dict_pop_absent _ _ Hd). auto.
Qed.

(** X3. An event all of whose changes have quantity zero and name price
    texts that the book does not hold on that side leaves the book
    exactly as it was (the removal of an absent level is a no-op); so
    does an event without changes. *)
Theorem zero_update_absent_noop (bk : book) (ev : list (string * json))
  (bl al : list (string * string)) :
  parse_levels (get_or_none ev "b") "bids" = Ok bl ->
  parse_levels (get_or_none ev "a") "asks" = Ok al ->
  Forall (fun pq => qty_zerob (snd pq) = true /\
                    dict_get (bid bk) (fst pq) = None) bl ->
  Forall (fun pq => qty_zerob (snd pq) = true /\
                    dict_get (ask bk) (fst pq) = None) al ->
  apply_event bk ev = (bk, Ok tt).
Proof.
  intros Pb Pa Fb Fa.
  rewrite (apply_event_ok bk ev Pb Pa).
  destruct (parse_levels_ok _ _ Pb) as [Qb _].
  destruct (parse_levels_ok _ _ Pa) as [Qa _].
  assert (Gb : apply_levels (bid bk) bl = (bid bk, Ok tt)).
  { apply apply_levels_zero_absent. rewrite Forall_forall in *.
    intros x Hx. destruct (Fb x Hx). auto. }
  assert (Ga : apply_levels (ask bk) al = (ask bk, Ok tt)).
  { apply apply_levels_zero_absent. rewrite Forall_forall in *.
    intros x Hx. destruct (Fa x Hx). auto. }
  rewrite Gb, Ga. simpl. now destruct bk.
Qed.

(** X4. [apply_event] touches only the price texts it is given: whether
    it succeeds or fails, the level at a price text that no bid of the
    event names is the same on the bid side after the call, and likewise
    for the asks. *)
Theorem apply_event_untouched (bk : book) (ev : list (string * json))
  (p : string) :
  ((forall bl, parse_levels (get_or_none ev "b") "bids" = Ok bl ->
               ~ In p (map fst bl)) ->
   dict_get (bid (fst (apply_event bk ev))) p = dict_get (bid bk) p) /\
  ((forall al, parse_levels (get_or_none ev "a") "asks" = Ok al ->
               ~ In p (map fst al)) ->
   dict_get (ask (fst (apply_event bk ev))) p = dict_get (ask bk) p).
Proof.
  destruct (apply_event_cases bk ev)
    as [(e & _ & ->)|[(bl & e & Eb & _ & ->)|(bl & al & Eb & Ea & ->)]];
    simpl.
  - auto.
  - split; auto. intros H.
    rewrite (proj2 (apply_levels_ok (bid bk) (proj1 (parse_levels_ok _ _ Eb)))).
    unfold level_after.
    now rewrite (proj2 (last_update_none bl p) (H _ Eb)).
  - split; intros H.
    + rewrite (proj2 (apply_levels_ok (bid bk)
                        (proj1 (parse_levels_ok _ _ Eb)))).
      unfold level_after.
      now rewrite (proj2 (last_update_none bl p) (H _ Eb)).
    + rewrite (proj2 (apply_levels_ok (ask bk)
                        (proj1 (parse_levels_ok _ _ Ea)))).
      unfold level_after.
      now rewrite (proj2 (last_update_none al p) (H _ Ea)).
Qed.

(** X5. Applying an event a second time changes no level: after a
    successful [apply_event], the same event applies again and leaves at
    every price text of both sides the level the first call left. *)
Theorem apply_event_idempotent (bk bk1 : book) (ev : list (string * json)) :
  apply_event bk ev = (bk1, Ok tt) ->
  exists bk2,
    apply_event bk1 ev = (bk2, Ok tt) /\
    forall p, dict_get (ask bk2) p = dict_get (ask bk1) p /\
              dict_get (bid bk2) p = dict_get (bid bk1) p.
Proof.
  intros H.
  destruct (apply_event_cases bk ev)
    as [(e & _ & E)|[(bl & e & _ & _ & E)|(bl & al & Eb & Ea & E)]];
    rewrite E in H; try discriminate.
  injection H as <-.
  rewrite (apply_event_ok _ ev Eb Ea). eexists. split; [reflexivity|].
  destruct (parse_levels_ok _ _ Eb) as [Qb _].
  destruct (parse_levels_ok _ _ Ea) as [Qa _].
  intros p. simpl.
  rewrite (proj2 (apply_levels_ok (fst (apply_levels (ask bk) al)) Qa)).
  rewrite (proj2 (apply_levels_ok (fst (apply_levels (bid bk) bl)) Qb)).
  unfold level_after.
  rewrite (proj2 (apply_levels_ok (ask bk) Qa)).
  rewrite (proj2 (apply_levels_ok (bid bk) Qb)).
  unfold level_after.
  destruct (last_update al p) as [qa|], (last_update bl p) as [qb|];
    try destruct (qty_zerob qa); try destruct (qty_zerob qb); auto.
Qed.

(** ** Snapshots *)

(** X6. In a book made from a snapshot every price text is a key of its
    side once, and its level is the one of the last row of the snapshot
    that names the text: a later row of the same side overwrites an
    earlier one. A price text that no row names is absent. *)
Theorem snapshot_last_write_wins (snap : list (string * json)) (bk : book)
  (asks bids : list (string * string)) :
  book_from_snapshot snap = Ok bk ->
  parse_levels (get_default snap "asks" (JList [])) "asks" = Ok asks ->
  parse_levels (get_default snap "bids" (JList [])) "bids" = Ok bids ->
  dict_wf (ask bk) /\ dict_wf (bid bk) /\
  forall p, dict_get (ask bk) p = last_update asks p /\
            dict_get (bid bk) p = last_update bids p.
Proof.
  unfold book_from_snapshot. intros H Ea Eb. rewrite Ea, Eb in H.
  simpl in H. injection H as <-. simpl.
  split; [apply set_all_wf; constructor|].
  split; [apply set_all_wf; constructor|].
  intros p. rewrite !set_all_get. simpl.
  now destruct (last_update asks p), (last_update bids p).
Qed.

(** ** Sorting: what the outcome of a sort tells *)

Section SortResults.
Variable A : Type.
Implicit Types (x : Dec.decimal * A) (l s : list (Dec.decimal * A)).

Lemma insert_r_perm x l : forall r,
  insert_r x l = Ok r -> Permutation r (x :: l).
Proof.
  induction l as [|y ys IH]; simpl; intros r H.
  - injection H as <-. auto.
  - destruct (lt_r (fst y) (fst x)) as [[|]|e]; simpl in H; try discriminate.
    + destruct (insert_r x ys) as [r'|e]; simpl in H; try discriminate.
      injection H as <-. rewrite (IH _ eq_refl). apply perm_swap.
    + injection H as <-. auto.
Qed.

Lemma sort_r_perm l : forall s, sort_r l = Ok s -> Permutation s l.
Proof.
  induction l as [|x xs IH]; simpl; intros s H.
  - injection H as <-. auto.
  - destruct (sort_r xs) as [s'|e]; simpl in H; try discriminate.
    rewrite (insert_r_perm _ _ H). constructor. auto.
Qed.

Lemma insert_r_err x l : forall e, insert_r x l = Err e -> e = InvalidOperation.
Proof.
  induction l as [|y ys IH]; simpl; intros e H; try discriminate.
  unfold lt_r in H.
  destruct (Dec.is_nan (fst y) || Dec.is_nan (fst x)); simpl in H.
  - now injection H.
  - destruct (Dec.ltb (fst y) (fst x)); try discriminate.
    destruct (insert_r x ys) as [r|e'] eqn:E; simpl in H; try discriminate.
    injection H as <-. now apply IH.
Qed.

Lemma sort_r_err l : forall e, sort_r l = Err e -> e = InvalidOperation.
Proof.
  induction l as [|x xs IH]; simpl; intros e H; try discriminate.
  destruct (sort_r xs) as [s|e'] eqn:E; simpl in H.
  - eapply insert_r_err; eauto.
  - injection H as <-. now apply IH.
Qed.

Lemma insert_r_compared x y ys r :
  insert_r x (y :: ys) = Ok r ->
  Dec.is_nan (fst x) = false /\ Dec.is_nan (fst y) = false.
Proof.
  simpl. unfold lt_r.
  destruct (Dec.is_nan (fst y)), (Dec.is_nan (fst x)); simpl;
    try discriminate; auto.
Qed.

(** Every element of a list of two or more is compared: a sort that
    returns had no NaN among its keys. *)
Lemma sort_r_no_nan l : forall s,
  sort_r l = Ok s -> (2 <= length l)%nat -> no_nan l.
Proof.
  induction l as [|x xs IH]; simpl; intros s H L; [lia|].
  destruct (sort_r xs) as [s'|e] eqn:E; simpl in H; try discriminate.
  pose proof (sort_r_perm _ E) as P.
  destruct s' as [|y ys].
  - apply Permutation_nil in P. subst xs. simpl in L. lia.
  - destruct (@insert_r_compared x y ys s H) as [Nx Ny].
    constructor; auto.
    destruct xs as [|x1 [|x2 xs']].
    + symmetry in P. apply Permutation_nil in P. discriminate.
    + symmetry in P. apply Permutation_length_1_inv in P.
      injection P as -> ->. constructor; auto.
    + eapply IH; eauto. simpl. lia.
Qed.

Lemma sort_r_ok_iff l :
  is_ok (sort_r l) = true <-> (length l <= 1)%nat \/ no_nan l.
Proof.
  split.
  - destruct (sort_r l) as [s|e] eqn:E; simpl; try discriminate. intros _.
    destruct (le_lt_dec (length l) 1) as [L|L]; auto.
    right. eapply sort_r_no_nan; eauto.
  - intros [L|N].
    + destruct l as [|x [|y r]]; simpl in *; auto. lia.
    + now rewrite sort_r_pure.
Qed.
End SortResults.

Section SortedResults.
Variable A : Type.
Variable key : A -> string.

Lemma with_keys_ok (l : list A) : forall keyed,
  with_keys key l = Ok keyed ->
  keyed = map (fun x => (key_of (key x), x)) l /\
  Forall (fun x => decimal_text (key x) = true) l.
Proof.
  induction l as [|x xs IH]; simpl; intros keyed H.
  - injection H as <-. auto.
  - unfold sort_key, key_of, decimal_text in *.
    destruct (Dec.Decimal (key x)) as [k|] eqn:K; simpl in H;
      try discriminate.
    destruct (with_keys key xs) as [r|e]; simpl in H; try discriminate.
    injection H as <-. destruct (IH _ eq_refl) as [-> F].
    split; auto. constructor; auto. now rewrite K.
Qed.

Lemma with_keys_texts (l : list A) :
  Forall (fun x => decimal_text (key x) = true) l ->
  with_keys key l = Ok (map (fun x => (key_of (key x), x)) l).
Proof.
  induction 1 as [|x xs Hx Hxs IH]; simpl; auto.
  unfold sort_key, key_of, decimal_text in *.
  destruct (Dec.Decimal (key x)); try discriminate. simpl.
  now rewrite IH.
Qed.

Lemma with_keys_err (l : list A) : forall e,
  with_keys key l = Err e -> e = InvalidOperation.
Proof.
  induction l as [|x xs IH]; simpl; intros e H; try discriminate.
  unfold sort_key in H.
  destruct (Dec.Decimal (key x)); simpl in H; [|now injection H].
  destruct (with_keys key xs) as [r|e']; simpl in H; try discriminate.
  injection H as <-. now apply IH.
Qed.

Lemma keyed_no_nan_iff (l : list A) :
  Forall (fun x => decimal_text (key x) = true) l ->
  no_nan (map (fun x => (key_of (key x), x)) l) <->
  Forall (fun x => price_okb (key x) = true) l.
Proof.
  unfold no_nan. intros F. rewrite Forall_map. simpl.
  rewrite !Forall_forall in *. split; intros H x Hx.
  - specialize (H x Hx). specialize (F x Hx).
    unfold key_of, price_okb, decimal_text in *.
    destruct (Dec.Decimal (key x)); try discriminate. now rewrite H.
  - apply (price_okb_key _ (H x Hx)).
Qed.

Lemma sorted_ok_perm (reverse : bool) (l out : list A) :
  sorted key reverse l = Ok out -> Permutation out l.
Proof.
  unfold sorted. intros H.
  destruct (with_keys key l) as [keyed|e] eqn:K; simpl in H;
    try discriminate.
  destruct (with_keys_ok _ K) as [-> _].
  set (kl := map (fun x => (key_of (key x), x)) l) in *.
  assert (M : map snd kl = l).
  { unfold kl. rewrite map_map. simpl. apply map_id. }
  destruct (sort_r (if reverse then rev kl else kl)) as [s|e] eqn:S;
    simpl in H; try discriminate.
  injection H as <-. apply sort_r_perm in S.
  apply Permutation_trans with (map snd kl);
    [|rewrite M; apply Permutation_refl].
  apply Permutation_map. destruct reverse.
  - rewrite <- Permutation_rev, S. symmetry. apply Permutation_rev.
  - exact S.
Qed.

Lemma sorted_err (reverse : bool) (l : list A) (e : error) :
  sorted key reverse l = Err e -> e = InvalidOperation.
Proof.
  unfold sorted. intros H.
  destruct (with_keys key l) as [keyed|e'] eqn:K; simpl in H.
  - destruct (sort_r (if reverse then rev keyed else keyed)) as [s|e'] eqn:S;
      simpl in H; try discriminate.
    injection H as <-. eapply sort_r_err; eauto.
  - injection H as <-. eapply with_keys_err; eauto.
Qed.

Lemma sorted_ok_iff (reverse : bool) (l : list A) :
  is_ok (sorted key reverse l) = true <->
  Forall (fun x => decimal_text (key x) = true) l /\
  ((length l <= 1)%nat \/ Forall (fun x => price_okb (key x) = true) l).
Proof.
  unfold sorted. split.
  - destruct (with_keys key l) as [keyed|e] eqn:K; simpl; try discriminate.
    destruct (with_keys_ok _ K) as [-> F].
    set (kl := map (fun x => (key_of (key x), x)) l) in *.
    destruct (sort_r (if reverse then rev kl else kl)) as [s|e] eqn:S;
      simpl; try discriminate.
    intros _. split; auto.
    assert (O : is_ok (sort_r (if reverse then rev kl else kl)) = true)
      by now rewrite S.
    apply sort_r_ok_iff in O.
    assert (L : length (if reverse then rev kl else kl) = length l).
    { unfold kl. destruct reverse; [rewrite length_rev|];
        now rewrite length_map. }
    rewrite L in O. destruct O as [O|O]; auto. right.
    apply keyed_no_nan_iff; auto. fold kl.
    destruct reverse; auto.
    eapply no_nan_perm; [symmetry; apply Permutation_rev|exact O].
  - intros [F H]. rewrite (with_keys_texts F). simpl.
    set (kl := map (fun x => (key_of (key x), x)) l) in *.
    assert (O : is_ok (sort_r (if reverse then rev kl else kl)) = true).
    { apply sort_r_ok_iff.
      assert (L : length (if reverse then rev kl else kl) = length l).
      { unfold kl. destruct reverse; [rewrite length_rev|];
          now rewrite length_map. }
      rewrite L. destruct H as [H|H]; auto. right.
      apply (keyed_no_nan_iff F) in H. fold kl in H.
      destruct reverse; auto.
      eapply no_nan_perm; [apply Permutation_rev|exact H]. }
    destruct (sort_r (if reverse then rev kl else kl)); auto.
Qed.
End SortedResults.

(** ** Projections: what [sorted_side] returns and when it raises *)

Lemma items_of_cons (p q : string) (r : dict) prices :
  ~ In p prices -> items_of ((p, q) :: r) prices = items_of r prices.
Proof.
  unfold items_of, dict_value. intros N. apply map_ext_in. intros a Ha. simpl.
  destruct (String.eqb p a) eqn:E; auto.
  apply String.eqb_eq in E. subst a. contradiction.
Qed.

Lemma items_of_keys (d : dict) : dict_wf d -> items_of d (dict_keys d) = d.
Proof.
  unfold dict_wf. induction d as [|[p q] r IH]; simpl; intros W; auto.
  inversion W as [|? ? Np Wr]; subst.
  unfold items_of at 1. simpl. unfold dict_value at 1. simpl.
  rewrite String.eqb_refl. f_equal.
  fold (items_of ((p, q) :: r) (dict_keys r)).
  rewrite items_of_cons; auto.
Qed.

Lemma sorted_side_ok (d : dict) (s : side) (out : list (string * string)) :
  sorted_side d s = Ok out ->
  exists prices,
    sorted (fun p => p) (is_bid s) (dict_keys d) = Ok prices /\
    Permutation prices (dict_keys d) /\ out = items_of d prices.
Proof.
  unfold sorted_side. intros H.
  destruct (sorted (fun p => p) (is_bid s) (dict_keys d)) as [prices|e] eqn:E;
    simpl in H; try discriminate.
  pose proof (sorted_ok_perm _ _ _ E) as P.
  rewrite lookup_all_ok in H.
  - injection H as <-. eauto.
  - intros p. apply Permutation_in. exact P.
Qed.

Lemma sorted_side_ok_iff (d : dict) (s : side) :
  is_ok (sorted_side d s) = true <->
  Forall (fun pq => decimal_text (fst pq) = true) d /\
  ((length d <= 1)%nat \/ Forall (fun pq => price_okb (fst pq) = true) d).
Proof.
  pose proof (sorted_ok_iff (fun p : string => p) (is_bid s) (dict_keys d))
    as I.
  unfold dict_keys in I. rewrite length_map, !Forall_map in I.
  rewrite <- I. unfold sorted_side, dict_keys.
  destruct (sorted (fun p => p) (is_bid s) (map fst d)) as [prices|e] eqn:E;
    simpl; [|tauto].
  pose proof (sorted_ok_perm _ _ _ E) as P.
  rewrite lookup_all_ok; [simpl; tauto|].
  intros p. apply Permutation_in. exact P.
Qed.

Lemma sorted_side_err (d : dict) (s : side) (e : error) :
  sorted_side d s = Err e -> e = InvalidOperation.
Proof.
  unfold sorted_side. intros H.
  destruct (sorted (fun p => p) (is_bid s) (dict_keys d)) as [prices|e'] eqn:E;
    simpl in H.
  - pose proof (sorted_ok_perm _ _ _ E) as P.
    rewrite lookup_all_ok in H; [discriminate|].
    intros p. apply Permutation_in. exact P.
  - injection H as <-. eapply sorted_err; eauto.
Qed.

Lemma short_sorted (A : Type) (R : A -> A -> Prop) (l : list A) :
  (length l <= 1)%nat -> StronglySorted R l.
Proof.
  destruct l as [|x [|y r]]; simpl; intros L; try lia;
    repeat constructor.
Qed.

(** X7. A projection that is returned holds every level of the side
    once, none lost and none added, in the order of display: asks
    ascending and bids descending by the decimal value of the price. *)
Theorem sorted_side_permutation (d : dict) (s : side)
  (out : list (string * string)) :
  dict_wf d -> sorted_side d s = Ok out ->
  Permutation out d /\ StronglySorted (display_order s) out.
Proof.
  intros W H. split.
  - destruct (sorted_side_ok _ _ H) as (prices & _ & P & ->).
    rewrite <- (items_of_keys W) at 2.
    unfold items_of. now apply Permutation_map.
  - assert (O : is_ok (sorted_side d s) = true) by now rewrite H.
    apply sorted_side_ok_iff in O. destruct O as [_ [L|F]].
    + apply short_sorted.
      destruct (sorted_side_ok _ _ H) as (prices & _ & P & ->).
      unfold items_of. rewrite length_map, (Permutation_length P).
      unfold dict_keys. now rewrite length_map.
    + destruct (sorted_side_display_order s F) as (out' & E & S & _).
      rewrite H in E. injection E as <-. exact S.
Qed.

(** X8. [sorted_side] raises exactly when a price text of the side is no
    decimal, or when the side has two levels or more and a price text is
    a NaN; what it raises is [decimal.InvalidOperation], never a
    [KeyError]. A side with a single NaN price is returned as it is. *)
Theorem sorted_side_raises_iff (d : dict) (s : side) :
  (is_ok (sorted_side d s) = false <->
   Exists (fun pq => decimal_text (fst pq) = false) d \/
   ((2 <= length d)%nat /\
    Exists (fun pq => price_okb (fst pq) = false) d)) /\
  (forall e, sorted_side d s = Err e -> e = InvalidOperation).
Proof.
  split; [|intros e; apply sorted_side_err].
  pose proof (sorted_side_ok_iff d s) as I.
  assert (X1 : forall f : string * string -> bool,
             Exists (fun pq => f pq = false) d <->
             ~ Forall (fun pq => f pq = true) d).
  { intros f. rewrite <- Exists_Forall_neg.
    - split; apply Exists_impl; intros a; destruct (f a); congruence.
    - intros a. destruct (f a); auto. }
  rewrite (X1 (fun pq => decimal_text (fst pq))).
  rewrite (X1 (fun pq => price_okb (fst pq))).
  destruct (is_ok (sorted_side d s)).
  - split; [discriminate|]. intros [N|[L N]]; exfalso.
    + apply N. now apply I.
    + destruct (proj1 I eq_refl) as [_ [L'|F]]; [lia|contradiction].
  - split; auto. intros _.
    destruct (Forall_dec (fun pq : string * string =>
                            decimal_text (fst pq) = true)
                (fun pq => bool_dec (decimal_text (fst pq)) true) d)
      as [F|F]; auto.
    right.
    destruct (le_lt_dec (length d) 1) as [L|L].
    + assert (T : false = true) by (apply I; auto). discriminate.
    + split; [lia|]. intros G.
      assert (T : false = true) by (apply I; auto). discriminate.
Qed.

Lemma two_keys_length (d : dict) (p p' : string) :
  p' <> p -> dict_get d p <> None -> dict_get d p' <> None ->
  (2 <= length d)%nat.
Proof.
  destruct d as [|[k v] [|[k2 v2] r]]; simpl; try congruence; try lia.
  intros N. destruct (String.eqb k p) eqn:E1; try congruence.
  destruct (String.eqb k p') eqn:E2; try congruence.
  apply String.eqb_eq in E1, E2. congruence.
Qed.

Lemma book_to_levels_raises (bk : book) (s : side) :
  is_ok (sorted_side (side_of bk s) s) = false ->
  book_to_levels bk = Err InvalidOperation.
Proof.
  unfold book_to_levels. intros H.
  destruct (sorted_side (ask bk) AskSide) as [asks|e] eqn:Ea; simpl.
  - destruct (sorted_side (bid bk) BidSide) as [bids|e] eqn:Eb; simpl.
    + destruct s; simpl in H; rewrite ?Ea, ?Eb in H; discriminate.
    + now rewrite (sorted_side_err _ _ Eb).
  - now rewrite (sorted_side_err _ _ Ea).
Qed.

(** X9. The codec does not look at the value of a price: an update that
    sets a level at a price text that is a NaN is applied, and from then
    on the book cannot be projected while the side holds another level:
    [book_to_levels] raises [decimal.InvalidOperation]. *)
Theorem nan_price_breaks_projection (bk : book) (s : side)
  (p q p' : string) :
  parses_nan (JStr p) = true -> qty_posb q = true ->
  p' <> p -> dict_get (side_of bk s) p' <> None ->
  let r := apply_event bk [(side_key s, rows_json [(p, q)])] in
  snd r = Ok tt /\ book_to_levels (fst r) = Err InvalidOperation.
Proof.
  intros Hp Hq Np Hp'. simpl in Hp.
  unfold qty_posb in Hq. apply andb_prop in Hq. destruct Hq as [Qo Qz].
  apply negb_true_iff in Qz.
  assert (Dp : exists d, Dec.Decimal p = Some d).
  { destruct (Dec.Decimal p); [eauto|discriminate]. }
  assert (Op : price_okb p = false).
  { unfold price_okb. destruct (Dec.Decimal p); auto. now rewrite Hp. }
  assert (P : forall label, parse_levels (rows_json [(p, q)]) label
                            = Ok [(p, q)]).
  { intros label. simpl. apply (parse_rows_json label (out := [(p, q)]));
      repeat constructor; auto. }
  assert (F : Forall (fun pq : string * string => qty_okb (snd pq) = true)
                [(p, q)]) by (repeat constructor; auto).
  assert (G : forall d, dict_get d p' <> None ->
              is_ok (sorted_side (fst (apply_levels d [(p, q)])) s) = false).
  { intros d Hd.
    destruct (apply_levels_ok d F) as [_ L].
    apply (proj1 (sorted_side_raises_iff _ s)). right. split.
    - apply (@two_keys_length _ p p'); auto; rewrite L; unfold level_after;
        simpl; rewrite ?String.eqb_refl, ?Qz; try congruence.
      destruct (String.eqb p p') eqn:E; auto.
      apply String.eqb_eq in E. congruence.
    - apply Exists_exists. exists (p, q). split; auto.
      apply dict_get_in. rewrite L. unfold level_after. simpl.
      now rewrite String.eqb_refl, Qz. }
  destruct s; simpl in *.
  - rewrite (@apply_event_ok bk [("a", rows_json [(p, q)])] [] [(p, q)]
               eq_refl (P "asks")).
    split; auto. apply (@book_to_levels_raises _ AskSide). simpl. auto.
  - rewrite (@apply_event_ok bk [("b", rows_json [(p, q)])] [(p, q)] []
               (P "bids") eq_refl).
    split; auto. apply (@book_to_levels_raises _ BidSide). simpl. auto.
Qed.

(** ** The initial book: [iter_snapshots] as [main] consumes it *)

Lemma last_of_snapshots_objects pre : forall i last o,
  Forall (fun v => is_object v = true) pre ->
  last_of_snapshots i (pre ++ [JDict o]) last = Ok (Some o).
Proof.
  induction pre as [|v r IH]; simpl; intros i last o F; auto.
  inversion F as [|? ? Hv Hr]; subst.
  destruct v; try discriminate. now apply IH.
Qed.

Lemma last_of_snapshots_not_object pre : forall i last item post,
  Forall (fun v => is_object v = true) pre -> is_object item = false ->
  last_of_snapshots i (pre ++ item :: post) last
  = Err (ValueError (SnapshotNotObject (i + length pre))).
Proof.
  induction pre as [|v r IH]; simpl; intros i last item post F N.
  - rewrite Nat.add_0_r. destruct item; try discriminate; reflexivity.
  - inversion F as [|? ? Hv Hr]; subst.
    destruct v; try discriminate. rewrite (IH (S i) (Some fields) item post Hr N).
    now replace (S i + length r)%nat with (i + S (length r))%nat by lia.
Qed.

(** X10. Of a list of snapshots only the last one makes the initial
    book: the objects before it are not read, whatever they hold. An item
    of the list that is no object stops the run with a [ValueError] that
    names the index of the first such item, and an empty list stops it
    with [SystemExit]. *)
Theorem snapshot_list_last_only :
  (forall pre o,
     Forall (fun v => is_object v = true) pre ->
     initial_book_of (Some (JList (pre ++ [JDict o])))
     = book_from_snapshot o) /\
  (forall pre item post,
     Forall (fun v => is_object v = true) pre -> is_object item = false ->
     initial_book_of (Some (JList (pre ++ item :: post)))
     = Err (ValueError (SnapshotNotObject (length pre)))) /\
  initial_book_of (Some (JList []))
  = Err (SystemExit "Snapshot file contains no usable objects.").
Proof.
  split; [|split].
  - intros pre o F. unfold initial_book_of, iter_snapshots_last.
    now rewrite (@last_of_snapshots_objects pre 0 None o F).
  - intros pre item post F N. unfold initial_book_of, iter_snapshots_last.
    now rewrite (@last_of_snapshots_not_object pre 0 None item post F N).
  - reflexivity.
Qed.

(** X11. A snapshot given as a single object must have the key [asks] or
    the key [bids]: an object with neither is refused with a
    [ValueError]. The same object given in a list is accepted, and makes
    the empty book. *)
Theorem snapshot_object_without_sides (o : list (string * json)) :
  dict_mem o "asks" = false -> dict_mem o "bids" = false ->
  initial_book_of (Some (JDict o)) = Err (ValueError SnapshotBadShape) /\
  initial_book_of (Some (JList [JDict o])) = Ok new_empty_book.
Proof.
  intros Ha Hb. unfold initial_book_of, iter_snapshots_last.
  rewrite Ha, Hb. simpl. split; auto.
  unfold book_from_snapshot, get_default.
  unfold dict_mem in Ha, Hb.
  destruct (dict_get o "asks"); try discriminate.
  destruct (dict_get o "bids"); try discriminate.
  reflexivity.
Qed.

(** ** The two sampling modes of [main] *)

(** The states stored do not change what the loop does to the book. *)
Lemma store_loop_apply_all (k : Z) items : forall i n bk sts bk' sts',
  store_loop k i n items bk sts = (bk', Ok sts') ->
  apply_all i items bk = (bk', Ok tt).
Proof.
  induction items as [|item rest IH]; simpl; intros i n bk sts bk' sts' H.
  - now injection H as <- _.
  - destruct (depth_event i item) as [ev|e]; try discriminate.
    destruct (apply_event bk ev) as [bk1 [[]|e]]; try discriminate.
    destruct ((n + 1) mod Z.max 1 k =? 0).
    + destruct (book_to_levels bk1) as [st|e]; try discriminate.
      eapply IH; eauto.
    + eapply IH; eauto.
Qed.

(** With a stride of one the last state stored is the projection of the
    book the loop ends with. *)
Lemma store_loop_last (k : Z) items : forall i n bk sts bk' sts',
  k <= 1 ->
  store_loop k i n items bk sts = (bk', Ok sts') ->
  (items = [] /\ sts' = sts) \/
  (exists pre st, sts' = pre ++ [st] /\ book_to_levels bk' = Ok st).
Proof.
  induction items as [|item rest IH]; simpl; intros i n bk sts bk' sts' K H.
  - left. now injection H as _ <-.
  - right.
    destruct (depth_event i item) as [ev|e]; try discriminate.
    destruct (apply_event bk ev) as [bk1 [[]|e]]; try discriminate.
    rewrite (Z.max_l 1 k K), Z.mod_1_r in H. simpl in H.
    destruct (book_to_levels bk1) as [st|e] eqn:P; try discriminate.
    destruct (IH _ _ _ _ _ _ K H) as [[-> ->]|Hr]; auto.
    simpl in H. injection H as <-. eauto.
Qed.

(** X12. The two modes agree. When a run that stores states succeeds,
    the run with [--final-only] on the same input succeeds too, with the
    same revert update and a single state; when the stride is one (or
    less) and a state was stored, that single state is the last state of
    the storing run. *)
Theorem final_only_agrees (snapshot : option json) (upd_payload : json)
  (store_every : Z) (want_revert : bool) (out : output) :
  main snapshot upd_payload false store_every want_revert = Ok out ->
  exists st,
    main snapshot upd_payload true store_every want_revert
    = Ok (Output [st] (revert out)) /\
    (store_every <= 1 -> states out <> [] -> last (states out) JNull = st).
Proof.
  unfold main. intros H.
  destruct (initial_book_of snapshot) as [ib|e]; simpl in *;
    try discriminate.
  unfold run in *.
  destruct upd_payload as [| | | | |items|]; simpl in H; try discriminate.
  destruct (store_loop store_every 0 0 items (Book (ask ib) (bid ib)) [])
    as [bk r] eqn:L.
  destruct r as [sts|e]; simpl in H; try discriminate.
  rewrite (@store_loop_apply_all store_every items 0%nat 0 _ [] bk sts L).
  destruct (book_to_levels bk) as [st|e] eqn:P; simpl in H; try discriminate.
  simpl. rewrite P. simpl. exists st.
  assert (T : store_every <= 1 -> sts <> [] -> last sts JNull = st).
  { intros K N.
    destruct (@store_loop_last store_every items 0%nat 0 _ [] bk sts K L)
      as [[_ ->]|(pre & st' & -> & P')].
    - congruence.
    - rewrite last_last. congruence. }
  destruct want_revert.
  - destruct (generate_revert_update bk ib default_zero_fmt) as [rv|e];
      simpl in H; try discriminate.
    injection H as <-. simpl. auto.
  - injection H as <-. simpl. auto.
Qed.

(** ** Errors of an update on the path of [main] *)

Lemma depth_event_lists (i : nat) (item : json) (ev : list (string * json)) :
  depth_event i item = Ok ev ->
  exists a b, ev = [("a", JList a); ("b", JList b)].
Proof.
  unfold depth_event. destruct item as [| | | | | |o]; try discriminate.
  destruct (get_default o "data" (JDict o)) as [| | | | | |payload];
    try discriminate.
  destruct (get_default payload "a" (JList [])) as [| | | | |a|];
    try discriminate;
  destruct (get_default payload "b" (JList [])) as [| | | | |b|];
    try discriminate.
  simpl. intros H. injection H as <-. eauto.
Qed.

(** X13. An event yielded by [iter_depth_events] holds a list under [a]
    and under [b], so [apply_event] never refuses it for a value that is
    not a list: when it fails, the error is the one the codec raises for
    one row of the bids or of the asks of the event, at the index of that
    row. *)
Theorem update_error_names_a_row (i : nat) (item : json)
  (ev : list (string * json)) (bk : book) (e : error) :
  depth_event i item = Ok ev -> snd (apply_event bk ev) = Err e ->
  exists label key rows j row,
    ((label = "bids" /\ key = "b") \/ (label = "asks" /\ key = "a")) /\
    get_or_none ev key = JList rows /\ nth_error rows j = Some row /\
    check_level label j row = Err e.
Proof.
  intros D H. destruct (depth_event_lists _ _ D) as (a & b & ->).
  destruct (apply_event_cases bk [("a", JList a); ("b", JList b)])
    as [(e' & Eb & E)|[(bl & e' & Eb & Ea & E)|(bl & al & _ & _ & E)]];
    rewrite E in H; simpl in H; try discriminate; injection H as ->.
  - change (parse_rows "bids" 0 b = Err e) in Eb.
    destruct (parse_rows_first_error _ _ _ Eb) as (j & row & Hn & Hc & _).
    exists "bids", "b", b, j, row. auto.
  - change (parse_rows "asks" 0 a = Err e) in Ea.
    destruct (parse_rows_first_error _ _ _ Ea) as (j & row & Hn & Hc & _).
    exists "asks", "a", a, j, row. auto.
Qed.

(** ** What an event does to a price text *)

(** X14. After a successful [apply_event] every price text holds, on
    each side, the level of the last change of the event that names it:
    absent when that change has a zero quantity, else the quantity text
    of the change. A price text that the event does not name on a side
    keeps its level. *)
Theorem apply_event_last_change_wins (bk bk' : book)
  (ev : list (string * json)) (bl al : list (string * string)) :
  apply_event bk ev = (bk', Ok tt) ->
  parse_levels (get_or_none ev "b") "bids" = Ok bl ->
  parse_levels (get_or_none ev "a") "asks" = Ok al ->
  forall p,
    dict_get (bid bk') p
    = match last_update bl p with
      | Some q => if qty_zerob q then None else Some q
      | None => dict_get (bid bk) p
      end /\
    dict_get (ask bk') p
    = match last_update al p with
      | Some q => if qty_zerob q then None else Some q
      | None => dict_get (ask bk) p
      end.
Proof.
  intros H Pb Pa p. rewrite (apply_event_ok bk ev Pb Pa) in H.
  injection H as <-. simpl.
  rewrite (proj2 (apply_levels_ok (bid bk) (proj1 (parse_levels_ok _ _ Pb)))).
  rewrite (proj2 (apply_levels_ok (ask bk) (proj1 (parse_levels_ok _ _ Pa)))).
  split; reflexivity.
Qed.

(** ** A snapshot and the event of the same levels *)

Lemma apply_levels_set_all levels : forall d,
  Forall (fun pq => qty_okb (snd pq) = true) levels ->
  Forall (fun pq => qty_zerob (snd pq) = false) levels ->
  apply_levels d levels = (set_all d levels, Ok tt).
Proof.
  induction levels as [|[p q] r IH]; simpl; intros d F Z; auto.
  inversion F as [|? ? Hq Hr]; subst. inversion Z as [|? ? Zq Zr]; subst.
  simpl in *. rewrite (qty_okb_is_zero _ Hq), Zq. now apply IH.
Qed.

(** X15. Loading a snapshot in which no quantity is zero is the same as
    applying its levels as one event to the empty book: both give the
    same book, side for side and in the same order of insertion. *)
Theorem snapshot_as_event (asks_json bids_json : json)
  (asks bids : list (string * string)) :
  parse_levels asks_json "asks" = Ok asks ->
  parse_levels bids_json "bids" = Ok bids ->
  Forall (fun pq => qty_zerob (snd pq) = false) (asks ++ bids) ->
  exists bk,
    book_from_snapshot [("asks", asks_json); ("bids", bids_json)] = Ok bk /\
    apply_event new_empty_book [("a", asks_json); ("b", bids_json)]
    = (bk, Ok tt).
Proof.
  intros Pa Pb Z. apply Forall_app in Z. destruct Z as [Za Zb].
  exists (Book (set_all [] asks) (set_all [] bids)). split.
  - unfold book_from_snapshot. simpl. unfold get_default. simpl.
    now rewrite Pa, Pb.
  - rewrite (@apply_event_ok new_empty_book
               [("a", asks_json); ("b", bids_json)] bids asks Pb Pa).
    simpl.
    rewrite (apply_levels_set_all [] (proj1 (parse_levels_ok _ _ Pa)) Za).
    rewrite (apply_levels_set_all [] (proj1 (parse_levels_ok _ _ Pb)) Zb).
    reflexivity.
Qed.

(** ** The revert update, entry by entry *)

Lemma diff_rows_entries (cur tgt : dict) (z p q : string) :
  dict_wf cur -> dict_wf tgt ->
  In (p, q) (removals_and_changes cur tgt z ++ additions cur tgt) <->
  revert_entry cur tgt z p = Some q.
Proof.
  intros Wc Wt.
  pose proof (diff_rows_wf z Wc Wt) as N.
  assert (L : last_update (removals_and_changes cur tgt z ++ additions cur tgt)
                p = revert_entry cur tgt z p).
  { rewrite last_update_app, additions_update, removals_and_changes_update
      by assumption.
    unfold revert_entry, dict_mem.
    destruct (dict_get cur p), (dict_get tgt p); auto. }
  rewrite <- L. split.
  - now apply in_last_update.
  - apply last_update_in.
Qed.

Section SortedOrder.
Variable A : Type.
Variable key : A -> string.

(** A sort that returns has put its elements in order. *)
Lemma sorted_ok_sorted (reverse : bool) (l out : list A) :
  sorted key reverse l = Ok out ->
  StronglySorted
    (fun x y : A => if reverse then price_le (key y) (key x)
                    else price_le (key x) (key y)) out.
Proof.
  intros H.
  assert (O : is_ok (sorted key reverse l) = true) by now rewrite H.
  apply sorted_ok_iff in O. destruct O as [_ [L|K]].
  - apply short_sorted.
    now rewrite (Permutation_length (sorted_ok_perm _ _ _ H)).
  - rewrite (sorted_pure key reverse K) in H. injection H as <-.
    now apply psorted_sorted.
Qed.
End SortedOrder.

(** X16. The revert update follows the four rules of its docstring and
    nothing else: on each side it has one entry for every price text at
    which the current and the target book differ, and none for a price
    text at which they hold the same level; the entry carries the
    quantity of the target, or [zero_fmt] when the target has no level
    there. The entries are in the order of display. *)
Theorem side_diff_entries (current_book target_book : book) (z : string)
  (s : side) (out : list (string * string)) :
  dict_wf (side_of current_book s) -> dict_wf (side_of target_book s) ->
  side_diff current_book target_book z s = Ok out ->
  NoDup (map fst out) /\
  (forall p q,
     In (p, q) out <->
     revert_entry (side_of current_book s) (side_of target_book s) z p
     = Some q) /\
  StronglySorted (display_order s) out.
Proof.
  unfold side_diff. intros Wc Wt H.
  pose proof (sorted_ok_perm _ _ _ H) as P.
  split; [|split].
  - eapply Permutation_NoDup; [apply Permutation_map; symmetry; exact P|].
    now apply diff_rows_wf.
  - intros p q. rewrite <- (diff_rows_entries z p q Wc Wt).
    split; apply Permutation_in; [exact P|symmetry; exact P].
  - apply sorted_ok_sorted in H. exact H.
Qed.

Lemma revert_entry_none (cur tgt : dict) (z p : string) :
  revert_entry cur tgt z p = None <-> dict_get cur p = dict_get tgt p.
Proof.
  unfold revert_entry.
  destruct (dict_get cur p) as [qc|], (dict_get tgt p) as [qt|];
    try (split; congruence).
  destruct (String.eqb qt qc) eqn:E.
  - apply String.eqb_eq in E. subst. tauto.
  - apply String.eqb_neq in E. split; congruence.
Qed.

Lemma side_diff_empty_iff (cb tb : book) (z : string) (s : side) :
  dict_wf (side_of cb s) -> dict_wf (side_of tb s) ->
  side_diff cb tb z s = Ok [] <->
  forall p, dict_get (side_of cb s) p = dict_get (side_of tb s) p.
Proof.
  intros Wc Wt. split.
  - unfold side_diff. intros H p.
    apply sorted_ok_perm in H. apply Permutation_nil in H.
    apply (revert_entry_none _ _ z).
    destruct (revert_entry (side_of cb s) (side_of tb s) z p) as [q|] eqn:E;
      auto.
    apply (diff_rows_entries z p q Wc Wt) in E. rewrite H in E.
    destruct E.
  - intros H. unfold side_diff.
    assert (E : removals_and_changes (side_of cb s) (side_of tb s) z
                ++ additions (side_of cb s) (side_of tb s) = []).
    { destruct (removals_and_changes (side_of cb s) (side_of tb s) z
                ++ additions (side_of cb s) (side_of tb s))
        as [|[p q] r] eqn:E; auto.
      assert (I : In (p, q) ((p, q) :: r)) by (left; reflexivity).
      rewrite <- E in I. apply (diff_rows_entries z p q Wc Wt) in I.
      rewrite (proj2 (revert_entry_none _ _ z p) (H p)) in I.
      discriminate. }
    rewrite E. now destruct s.
Qed.

(** X17. The revert update is empty, with no entry under [b] and none
    under [a], exactly when the two books hold the same level at every
    price text of both sides. *)
Theorem revert_empty_iff (current_book target_book : book) (z : string) :
  dict_wf (ask current_book) -> dict_wf (bid current_book) ->
  dict_wf (ask target_book) -> dict_wf (bid target_book) ->
  generate_revert_update current_book target_book z
  = Ok (JDict [("data", JDict [("e", JStr "depthUpdate");
                               ("b", JList []); ("a", JList [])])]) <->
  forall p,
    dict_get (ask current_book) p = dict_get (ask target_book) p /\
    dict_get (bid current_book) p = dict_get (bid target_book) p.
Proof.
  intros Wca Wcb Wta Wtb.
  pose proof (@side_diff_empty_iff current_book target_book z AskSide Wca Wta)
    as Ia.
  pose proof (@side_diff_empty_iff current_book target_book z BidSide Wcb Wtb)
    as Ib.
  simpl in Ia, Ib. unfold generate_revert_update. split.
  - intros H p.
    destruct (side_diff current_book target_book z BidSide) as [b|e];
      simpl in H; try discriminate.
    destruct (side_diff current_book target_book z AskSide) as [a|e];
      simpl in H; try discriminate.
    unfold rows_json in H. injection H as Hb Ha.
    apply map_eq_nil in Ha, Hb. subst a b.
    split; [now apply Ia|now apply Ib].
  - intros H.
    rewrite (proj2 Ia (fun p => proj1 (H p))).
    rewrite (proj2 Ib (fun p => proj2 (H p))). reflexivity.
Qed.

(** ** A stored state read back as a snapshot *)

Section SortTwice.
Variable A : Type.
Variable key : A -> string.

Lemma isort_id (l : list (Dec.decimal * A)) :
  StronglySorted (@key_le A) l -> isort l = l.
Proof.
  induction 1 as [|x xs S IH F]; simpl; auto.
  rewrite IH. destruct xs as [|y ys]; simpl; auto.
  inversion F as [|? ? Hy _]; subst. unfold key_le in Hy. now rewrite Hy.
Qed.

Lemma keyed_map_snd (X : list (Dec.decimal * A)) :
  (forall kx, In kx X -> fst kx = key_of (key (snd kx))) ->
  map (fun x => (key_of (key x), x)) (map snd X) = X.
Proof.
  induction X as [|[k x] r IH]; simpl; intros H; auto.
  pose proof (H (k, x) (or_introl eq_refl)) as E. simpl in E.
  rewrite IH by auto. now rewrite <- E.
Qed.

(** Sorting a sorted list again changes nothing, also for a reverse
    sort. *)
Lemma psorted_idem (reverse : bool) (l : list A) :
  Forall (fun x => price_okb (key x) = true) l ->
  psorted key reverse (psorted key reverse l) = psorted key reverse l.
Proof.
  intros K. unfold psorted at 1 3.
  set (kl := map (fun x => (key_of (key x), x)) l).
  assert (N : no_nan kl) by (unfold kl; now apply keyed_no_nan).
  assert (Fk : forall kx, In kx kl -> fst kx = key_of (key (snd kx))).
  { unfold kl. intros kx. rewrite in_map_iff. now intros (x & <- & _). }
  destruct reverse.
  - unfold psorted. fold kl. rewrite keyed_map_snd.
    + rewrite rev_involutive, isort_id; auto.
      apply isort_sorted. eapply no_nan_perm; [apply Permutation_rev|exact N].
    + intros kx I. apply Fk. apply in_rev in I.
      eapply Permutation_in in I; [|apply isort_perm]. now apply in_rev.
  - unfold psorted. fold kl. rewrite keyed_map_snd.
    + rewrite isort_id; auto. now apply isort_sorted.
    + intros kx I. apply Fk.
      eapply Permutation_in in I; [|apply isort_perm]. exact I.
Qed.
End SortTwice.

Lemma dict_set_new (d : dict) (p q : string) :
  ~ In p (dict_keys d) -> dict_set d p q = d ++ [(p, q)].
Proof.
  induction d as [|[k v] r IH]; simpl; intros N; auto.
  destruct (String.eqb k p) eqn:E.
  - apply String.eqb_eq in E. subst. tauto.
  - rewrite IH; auto.
Qed.

Lemma set_all_fresh levels : forall d,
  NoDup (map fst (d ++ levels)) -> set_all d levels = d ++ levels.
Proof.
  unfold set_all.
  induction levels as [|[p q] r IH]; simpl; intros d N.
  - now rewrite app_nil_r.
  - rewrite dict_set_new.
    + rewrite IH; rewrite <- app_assoc; simpl; auto.
    + rewrite map_app in N. simpl in N.
      apply NoDup_remove_2 in N. intros I. apply N.
      apply in_or_app. auto.
Qed.

Lemma pside_perm (d : dict) (s : side) : dict_wf d -> Permutation (pside d s) d.
Proof.
  intros W. unfold pside.
  apply Permutation_trans with (items_of d (dict_keys d));
    [|rewrite (items_of_keys W); apply Permutation_refl].
  unfold items_of. apply Permutation_map. apply psorted_perm.
Qed.

Lemma dict_get_perm (d d' : dict) (p : string) :
  dict_wf d -> Permutation d d' -> dict_get d p = dict_get d' p.
Proof.
  intros W P.
  assert (W' : dict_wf d').
  { unfold dict_wf, dict_keys in *.
    eapply Permutation_NoDup; [apply Permutation_map; exact P|exact W]. }
  destruct (dict_get d p) as [q|] eqn:E.
  - symmetry. apply dict_in_get; auto.
    eapply Permutation_in; [exact P|]. now apply dict_get_in.
  - destruct (dict_get d' p) as [q|] eqn:E'; auto.
    apply dict_get_in in E'.
    eapply Permutation_in in E'; [|symmetry; exact P].
    apply dict_in_get in E'; auto. congruence.
Qed.

(** A side read back from its own projection. *)
Lemma pside_reload (d : dict) (s : side) (label : string) :
  side_valid d ->
  parse_levels (rows_json (pside d s)) label = Ok (pside d s) /\
  set_all [] (pside d s) = pside d s /\
  (forall p, dict_get (pside d s) p = dict_get d p) /\
  pside (pside d s) s = pside d s.
Proof.
  intros [W Fp Fq].
  pose proof (pside_perm s W) as P.
  assert (Fp' : Forall (fun pq => price_okb (fst pq) = true) (pside d s))
    by (eapply Permutation_Forall; [symmetry; exact P|exact Fp]).
  assert (Fq' : Forall (fun pq => qty_okb (snd pq) = true) (pside d s))
    by (eapply Permutation_Forall; [symmetry; exact P|exact Fq]).
  assert (W' : dict_wf (pside d s)).
  { unfold dict_wf, dict_keys in *.
    eapply Permutation_NoDup; [apply Permutation_map; symmetry; exact P|].
    exact W. }
  assert (G : forall p, dict_get (pside d s) p = dict_get d p).
  { intros p. symmetry. apply dict_get_perm; auto. now symmetry. }
  split; [|split; [|split]]; auto.
  - simpl. apply parse_rows_json; auto.
    eapply Forall_impl; [|exact Fp']. intros [p q] H. simpl in *.
    destruct (price_okb_key _ H) as [E _]. eauto.
  - apply (set_all_fresh (pside d s) []). exact W'.
  - unfold pside at 1.
    assert (Ks : dict_keys (pside d s)
                 = psorted (fun p => p) (is_bid s) (dict_keys d)).
    { unfold pside, items_of, dict_keys. rewrite map_map. simpl.
      apply map_id. }
    rewrite Ks, psorted_idem by (apply keys_price_ok; exact Fp).
    unfold pside, items_of. apply map_ext. intros p.
    unfold dict_value. fold (items_of d (psorted (fun p => p) (is_bid s)
                                           (dict_keys d))).
    fold (pside d s). now rewrite G.
Qed.

(** X18. A state stored by a run can be given back as a snapshot: for a
    book whose levels went through the codec and whose prices are not
    NaN, [main] builds from the projection of the book an initial book
    that holds the same level at every price text of both sides, and
    whose projection is the same state again. *)
Theorem projection_reloads (bk : book) (st : json) :
  book_valid bk -> book_to_levels bk = Ok st ->
  exists bk',
    initial_book_of (Some st) = Ok bk' /\
    (forall p, dict_get (ask bk') p = dict_get (ask bk) p /\
               dict_get (bid bk') p = dict_get (bid bk) p) /\
    book_to_levels bk' = Ok st.
Proof.
  intros V H. rewrite (book_valid_projection V) in H. injection H as <-.
  destruct V as [Va Vb].
  destruct (pside_reload AskSide "asks" Va) as (Pa & Sa & Ga & Ia).
  destruct (pside_reload BidSide "bids" Vb) as (Pb & Sb & Gb & Ib).
  exists (Book (pside (ask bk) AskSide) (pside (bid bk) BidSide)).
  split; [|split].
  - unfold initial_book_of, iter_snapshots_last. simpl.
    unfold book_from_snapshot, get_default. simpl.
    simpl in Pa, Pb. rewrite Pa, Pb. simpl. now rewrite Sa, Sb.
  - intros p. simpl. auto.
  - rewrite book_to_levels_pure; simpl.
    + now rewrite Ia, Ib.
    + eapply Permutation_Forall;
        [symmetry; apply (pside_perm AskSide (sv_wf Va))|apply (sv_price Va)].
    + eapply Permutation_Forall;
        [symmetry; apply (pside_perm BidSide (sv_wf Vb))|apply (sv_price Vb)].
Qed.

(** ** The further properties at concrete inputs *)

Lemma parse_levels_first_error_witness :
  parse_levels (JList [JList [JStr "1"; JStr "1"]; JStr "x"]) "bids"
  = Err (ValueError (NotAPair "bids" 1)) /\
  exists i row,
    nth_error [JList [JStr "1"; JStr "1"]; JStr "x"] i = Some row /\
    check_level "bids" i row = Err (ValueError (NotAPair "bids" 1)) /\
    forall j r, (j < i)%nat ->
                nth_error [JList [JStr "1"; JStr "1"]; JStr "x"] j = Some r ->
                is_ok (check_level "bids" j r) = true.
Proof.
  split; [reflexivity|].
  exact (@parse_levels_first_error [JList [JStr "1"; JStr "1"]; JStr "x"]
           "bids" (ValueError (NotAPair "bids" 1)) eq_refl).
Defined.

Lemma parse_levels_round_trip_witness :
  Forall (fun pq => fails_parsing (JStr (fst pq)) = false /\
                    qty_okb (snd pq) = true) [("100.5", "2")] /\
  parse_levels (rows_json [("100.5", "2")]) "asks" = Ok [("100.5", "2")].
Proof.
  assert (F : Forall (fun pq => fails_parsing (JStr (fst pq)) = false /\
                                qty_okb (snd pq) = true) [("100.5", "2")]).
  { constructor; [split; reflexivity|constructor]. }
  split; [exact F|].
  exact (proj2 parse_levels_round_trip [("100.5", "2")] "asks" F).
Defined.

Lemma zero_update_absent_noop_witness :
  apply_event scenario_book [("b", rows_json [("99.0", "0")])]
  = (scenario_book, Ok tt).
Proof.
  apply (@zero_update_absent_noop scenario_book
           [("b", rows_json [("99.0", "0")])] [("99.0", "0")] []);
    try reflexivity.
  - constructor; [split; reflexivity|constructor].
  - constructor.
Defined.

Lemma apply_event_untouched_witness :
  dict_get (bid (fst (apply_event scenario_book half_valid_event))) "99.0"
  = dict_get (bid scenario_book) "99.0".
Proof.
  apply (proj1 (apply_event_untouched scenario_book half_valid_event "99.0")).
  intros bl H. vm_compute in H. injection H as <-. simpl.
  intros [E|[]]. discriminate E.
Defined.

Lemma apply_event_idempotent_witness :
  apply_event scenario_book
    [("b", rows_json [("100.0", "0")]); ("a", rows_json [("100.5", "5")])]
  = (Book [("100.5", "5")] [], Ok tt) /\
  exists bk2,
    apply_event (Book [("100.5", "5")] [])
      [("b", rows_json [("100.0", "0")]); ("a", rows_json [("100.5", "5")])]
    = (bk2, Ok tt) /\
    forall p, dict_get (ask bk2) p = dict_get [("100.5", "5")] p /\
              dict_get (bid bk2) p = dict_get [] p.
Proof.
  split; [reflexivity|].
  exact (@apply_event_idempotent scenario_book (Book [("100.5", "5")] [])
           [("b", rows_json [("100.0", "0")]);
            ("a", rows_json [("100.5", "5")])] eq_refl).
Defined.

Lemma snapshot_last_write_wins_witness :
  book_from_snapshot scenario_snapshot = Ok scenario_book /\
  dict_wf (ask scenario_book) /\ dict_wf (bid scenario_book) /\
  forall p,
    dict_get (ask scenario_book) p = last_update [("100.5", "2")] p /\
    dict_get (bid scenario_book) p = last_update [("100.0", "3")] p.
Proof.
  split; [reflexivity|].
  exact (@snapshot_last_write_wins scenario_snapshot scenario_book
           [("100.5", "2")] [("100.0", "3")] eq_refl eq_refl eq_refl).
Defined.

Lemma sorted_side_permutation_witness :
  dict_wf [("100.5", "2"); ("101.0", "1")] /\
  sorted_side [("100.5", "2"); ("101.0", "1")] BidSide
  = Ok [("101.0", "1"); ("100.5", "2")] /\
  Permutation [("101.0", "1"); ("100.5", "2")]
              [("100.5", "2"); ("101.0", "1")] /\
  StronglySorted (display_order BidSide) [("101.0", "1"); ("100.5", "2")].
Proof.
  assert (W : dict_wf [("100.5", "2"); ("101.0", "1")]).
  { constructor; [simpl; intros [E|[]]; discriminate E|].
    constructor; [intros []|constructor]. }
  split; [exact W|]. split; [reflexivity|].
  exact (@sorted_side_permutation [("100.5", "2"); ("101.0", "1")] BidSide
           [("101.0", "1"); ("100.5", "2")] W eq_refl).
Defined.

Lemma sorted_side_raises_iff_witness :
  (2 <= length [("NaN", "1"); ("1", "1")])%nat /\
  Exists (fun pq : string * string => price_okb (fst pq) = false)
    [("NaN", "1"); ("1", "1")] /\
  is_ok (sorted_side [("NaN", "1"); ("1", "1")] AskSide) = false.
Proof.
  assert (L : (2 <= length [("NaN", "1"); ("1", "1")])%nat)
    by (simpl; lia).
  assert (X : Exists (fun pq : string * string => price_okb (fst pq) = false)
                [("NaN", "1"); ("1", "1")])
    by (apply Exists_cons_hd; reflexivity).
  split; [exact L|]. split; [exact X|].
  exact (proj2 (proj1 (sorted_side_raises_iff [("NaN", "1"); ("1", "1")]
                         AskSide))
           (or_intror (conj L X))).
Defined.

Lemma nan_price_breaks_projection_witness :
  parses_nan (JStr "NaN") = true /\ qty_posb "1" = true /\
  dict_get (side_of scenario_book AskSide) "100.5" <> None /\
  let r := apply_event scenario_book
             [(side_key AskSide, rows_json [("NaN", "1")])] in
  snd r = Ok tt /\ book_to_levels (fst r) = Err InvalidOperation.
Proof.
  assert (N : "100.5" <> "NaN") by discriminate.
  assert (G : dict_get (side_of scenario_book AskSide) "100.5" <> None)
    by discriminate.
  split; [reflexivity|]. split; [reflexivity|]. split; [exact G|].
  exact (@nan_price_breaks_projection scenario_book AskSide "NaN" "1" "100.5"
           eq_refl eq_refl N G).
Defined.

Lemma snapshot_list_last_only_witness :
  Forall (fun v => is_object v = true) [JDict []] /\
  initial_book_of (Some (JList ([JDict []] ++ [JDict scenario_snapshot])))
  = book_from_snapshot scenario_snapshot.
Proof.
  assert (F : Forall (fun v => is_object v = true) [JDict []])
    by (constructor; [reflexivity|constructor]).
  split; [exact F|].
  exact (proj1 snapshot_list_last_only [JDict []] scenario_snapshot F).
Defined.

Lemma snapshot_object_without_sides_witness :
  initial_book_of (Some (JDict [("lastUpdateId", JInt 1)]))
  = Err (ValueError SnapshotBadShape) /\
  initial_book_of (Some (JList [JDict [("lastUpdateId", JInt 1)]]))
  = Ok new_empty_book.
Proof.
  exact (@snapshot_object_without_sides [("lastUpdateId", JInt 1)]
           eq_refl eq_refl).
Defined.

Lemma final_only_agrees_witness :
  let st := JDict [("asks", rows_json [("100.5", "5"); ("101.0", "1")]);
                   ("bids", rows_json [])] in
  let rv := JDict [("data",
                    JDict [("e", JStr "depthUpdate");
                           ("b", rows_json [("100.0", "3")]);
                           ("a", rows_json [("100.5", "2");
                                            ("101.0", "0.00000000")])])] in
  main (Some (JDict scenario_snapshot)) (JList [scenario_event]) false 1 true
  = Ok (Output [st] (Some rv)) /\
  exists st',
    main (Some (JDict scenario_snapshot)) (JList [scenario_event]) true 1 true
    = Ok (Output [st'] (Some rv)) /\
    (1 <= 1 -> [st] <> [] -> last [st] JNull = st').
Proof.
  intros st rv. split; [reflexivity|].
  exact (@final_only_agrees (Some (JDict scenario_snapshot))
           (JList [scenario_event]) 1 true (Output [st] (Some rv)) eq_refl).
Defined.

Lemma update_error_names_a_row_witness :
  depth_event 0 (JDict half_valid_event)
  = Ok [("a", JList [JList [JStr "100.5"]]);
        ("b", rows_json [("100.0", "0")])] /\
  exists label key rows j row,
    ((label = "bids" /\ key = "b") \/ (label = "asks" /\ key = "a")) /\
    get_or_none [("a", JList [JList [JStr "100.5"]]);
                 ("b", rows_json [("100.0", "0")])] key = JList rows /\
    nth_error rows j = Some row /\
    check_level label j row = Err (ValueError (NotAPair "asks" 0)).
Proof.
  split; [reflexivity|].
  exact (@update_error_names_a_row 0%nat (JDict half_valid_event)
           [("a", JList [JList [JStr "100.5"]]);
            ("b", rows_json [("100.0", "0")])]
           scenario_book (ValueError (NotAPair "asks" 0)) eq_refl eq_refl).
Defined.

Lemma apply_event_last_change_wins_witness :
  apply_event scenario_book
    [("b", rows_json [("100.0", "0")]); ("a", rows_json [("100.5", "5")])]
  = (Book [("100.5", "5")] [], Ok tt) /\
  dict_get [] "100.0"
  = match last_update [("100.0", "0")] "100.0" with
    | Some q => if qty_zerob q then None else Some q
    | None => dict_get (bid scenario_book) "100.0"
    end /\
  dict_get [("100.5", "5")] "100.0"
  = match last_update [("100.5", "5")] "100.0" with
    | Some q => if qty_zerob q then None else Some q
    | None => dict_get (ask scenario_book) "100.0"
    end.
Proof.
  split; [reflexivity|].
  exact (@apply_event_last_change_wins scenario_book
           (Book [("100.5", "5")] [])
           [("b", rows_json [("100.0", "0")]);
            ("a", rows_json [("100.5", "5")])]
           [("100.0", "0")] [("100.5", "5")] eq_refl eq_refl eq_refl
           "100.0").
Defined.

Lemma snapshot_as_event_witness :
  exists bk,
    book_from_snapshot [("asks", rows_json [("100.5", "2")]);
                        ("bids", rows_json [("100.0", "3")])] = Ok bk /\
    apply_event new_empty_book [("a", rows_json [("100.5", "2")]);
                                ("b", rows_json [("100.0", "3")])]
    = (bk, Ok tt).
Proof.
  apply (@snapshot_as_event (rows_json [("100.5", "2")])
           (rows_json [("100.0", "3")]) [("100.5", "2")] [("100.0", "3")]
           eq_refl eq_refl).
  repeat (constructor; [reflexivity|]). constructor.
Defined.

Lemma side_diff_entries_witness :
  let cur := Book [("100.5", "5"); ("101.0", "1")] [] in
  let out := [("100.5", "2"); ("101.0", "0.00000000")] in
  side_diff cur scenario_book default_zero_fmt AskSide = Ok out /\
  NoDup (map fst out) /\
  (forall p q,
     In (p, q) out <->
     revert_entry (side_of cur AskSide) (side_of scenario_book AskSide)
       default_zero_fmt p = Some q) /\
  StronglySorted (display_order AskSide) out.
Proof.
  intros cur out. split; [reflexivity|].
  assert (Wc : dict_wf (side_of cur AskSide)).
  { constructor; [simpl; intros [E|[]]; discriminate E|].
    constructor; [intros []|constructor]. }
  assert (Wt : dict_wf (side_of scenario_book AskSide)).
  { constructor; [intros []|constructor]. }
  exact (@side_diff_entries cur scenario_book default_zero_fmt AskSide out
           Wc Wt eq_refl).
Defined.

Lemma revert_empty_iff_witness :
  generate_revert_update scenario_book scenario_book default_zero_fmt
  = Ok (JDict [("data", JDict [("e", JStr "depthUpdate");
                               ("b", JList []); ("a", JList [])])]).
Proof.
  assert (Wa : dict_wf (ask scenario_book))
    by (constructor; [intros []|constructor]).
  assert (Wb : dict_wf (bid scenario_book))
    by (constructor; [intros []|constructor]).
  apply (proj2 (@revert_empty_iff scenario_book scenario_book
                  default_zero_fmt Wa Wb Wa Wb)).
  intros p. split; reflexivity.
Defined.

Lemma projection_reloads_witness :
  let st := JDict [("asks", rows_json [("100.5", "2")]);
                   ("bids", rows_json [("100.0", "3")])] in
  book_valid scenario_book /\ book_to_levels scenario_book = Ok st /\
  exists bk',
    initial_book_of (Some st) = Ok bk' /\
    (forall p, dict_get (ask bk') p = dict_get (ask scenario_book) p /\
               dict_get (bid bk') p = dict_get (bid scenario_book) p) /\
    book_to_levels bk' = Ok st.
Proof.
  intros st. split; [exact scenario_book_valid|]. split; [reflexivity|].
  exact (@projection_reloads scenario_book st scenario_book_valid eq_refl).
Defined.
